(** * Hybrid retrieval and caching pipeline: a shallow embedding

    The Python sources embedded here are
    - [src/data/bm25_retriever.py]   (BM25Retriever.search, reciprocal_rank_fusion)
    - [src/ml/reranker.py]           (Reranker.rerank and its strategies)
    - [src/data/document_store.py]   (add_document(s), search_documents,
                                      hybrid_search, _try_repair_collection_schema)
    - [src/ml/query_rewriter.py]     (QueryRewriter.rewrite)
    - [src/ml/context_compressor.py] (ContextCompressor.compress)
    - [src/utils/semantic_cache.py]  (SemanticCache._cosine_similarity, get)
    - [src/utils/cache.py]           (FileCache and the decorator cached)
    and, of the files above, also BM25Retriever.index_documents,
    add_documents_batch, advanced_rag_search and rewrite_if_needed.

    Part I holds the embedding, Part II the lemmas and theorems on the
    claims of the specification, Part III further properties of the code. *)

From Stdlib Require Import ZArith NArith List String Ascii Lia Floats.
From Stdlib Require Import Permutation Sorted.
From stdpp Require Import base list strings gmap pretty.

Local Open Scope Z_scope.

(* ===================================================================== *)
(** * Part I.  The embedding                                              *)
(* ===================================================================== *)

(** ** Python exceptions and the error monad

    A Python call either returns a value or raises.  Every exception class
    met in the embedded code derives from [Exception]; the class is kept so
    that [except sqlite3.OperationalError] can be told from [except Exception]. *)

Inductive exn_class : Type :=
| ZeroDivisionError
| OverflowError
| TypeError
| KeyError
| IndexError
| ValueError
| AttributeError
| OperationalError            (* sqlite3.OperationalError *)
| OtherException.             (* any other subclass of Exception *)

(** An exception object: its class and [str(error)]. *)
Record exn : Type := Exn {
  exn_class_of : exn_class;
  exn_str : string
}.

Inductive res (A : Type) : Type :=
| Ok (a : A)
| Raise (e : exn).
Arguments Ok {A} a.
Arguments Raise {A} e.

#[export] Instance res_ret : MRet res := fun A a => Ok a.
#[export] Instance res_bind : MBind res := fun A B f m =>
  match m with
  | Ok a => f a
  | Raise e => Raise e
  end.

(** [try: body except Exception: handler] when the handler ignores the
    exception object. *)
Definition try_except {A} (body : res A) (handler : A) : A :=
  match body with
  | Ok a => a
  | Raise _ => handler
  end.

(** A [for] loop whose body may raise: the first exception ends the loop. *)
Fixpoint for_each {S X} (body : S -> X -> res S) (xs : list X) (s : S) : res S :=
  match xs with
  | [] => Ok s
  | x :: xs' => s' ← body s x; for_each body xs' s'
  end.

(** ** Python floats

    A Python [float] is an IEEE 754 binary64 number.  The embedded functions
    are written over the operations they use; the instance [binary64] runs
    them bit for bit on the kernel's primitive floats.  What is proved for
    every instance holds for binary64, and uses no law of arithmetic that
    rounding breaks. *)

Class PyFloat (F : Type) : Type := {
  of_int : Z -> F;              (* float(n) *)
  int_fits : Z -> bool;         (* float(n) does not raise OverflowError *)
  fadd : F -> F -> F;
  fsub : F -> F -> F;
  fmul : F -> F -> F;
  fdiv : F -> F -> F;           (* IEEE division; Python's own check for a
                                   zero divisor is written where it applies *)
  fsqrt : F -> F;
  feqb : F -> F -> bool;        (* == *)
  fltb : F -> F -> bool;        (* <  *)
  fleb : F -> F -> bool         (* <= *)
}.

Definition float_of_Z (n : Z) : float :=
  SF2Prim (binary_normalize prec emax n 0 false).

#[export] Instance binary64 : PyFloat float := {|
  of_int := float_of_Z;
  int_fits := fun n => Z.abs n <? 2 ^ 1024 - 2 ^ 970;
  fadd := PrimFloat.add;
  fsub := PrimFloat.sub;
  fmul := PrimFloat.mul;
  fdiv := PrimFloat.div;
  fsqrt := PrimFloat.sqrt;
  feqb := PrimFloat.eqb;
  fltb := PrimFloat.ltb;
  fleb := PrimFloat.leb
|}.

(** ** Python values, documents, ranked results *)

(** The JSON-like values a metadata dictionary or a result dictionary holds. *)
Inductive value (F : Type) : Type :=
| VNone
| VBool (b : bool)
| VInt (n : Z)
| VFloat (x : F)
| VStr (s : string).
Arguments VNone {F}.
Arguments VBool {F} b.
Arguments VInt {F} n.
Arguments VFloat {F} x.
Arguments VStr {F} s.

(** langchain's [Document]: [page_content] and a [metadata] dictionary. *)
Record Document (F : Type) : Type := mkDocument {
  page_content : string;
  metadata : gmap string (value F)
}.
Arguments mkDocument {F} _ _.
Arguments page_content {F} _.
Arguments metadata {F} _.

(** The dictionaries [{'document': .., 'score': .., 'rank': ..}] every ranking
    stage produces.  ['document'] is always read with [result['document']];
    ['rank'] and ['score'] are read with [.get], so their absence is modelled. *)
Record Result (F : Type) : Type := mkResult {
  document : Document F;
  score : option (value F);
  rank : option (value F)
}.
Arguments mkResult {F} _ _ _.
Arguments document {F} _.
Arguments score {F} _.
Arguments rank {F} _.

(** ** Python sequences *)

(** [l[:n]]: a negative bound counts from the end. *)
Definition slice_to {A} (n : Z) (l : list A) : list A :=
  if 0 <=? n then take (Z.to_nat n) l
  else take (length l - Z.to_nat (- n))%nat l.

(** [l[i]]: a negative index counts from the end, out of range raises. *)
Definition index {A} (l : list A) (i : Z) : res A :=
  let n := Z.of_nat (length l) in
  let j := if 0 <=? i then i else n + i in
  if (0 <=? j) && (j <? n) then
    match l !! Z.to_nat j with
    | Some x => Ok x
    | None => Raise (Exn IndexError "list index out of range")
    end
  else Raise (Exn IndexError "list index out of range").

(** [enumerate(l)] with the index as a Python int. *)
Definition enumerate {A} (l : list A) : list (Z * A) :=
  imap (fun i x => (Z.of_nat i, x)) l.

(** ** Python strings

    A Python [str] is a sequence of Unicode code points.  It is modelled as
    the Rocq [string] that holds its UTF-8 encoding, one byte per [ascii].
    Equality, concatenation and the search for a substring read the same on
    the encoding; [len], [split], [strip], [lower] and [isalnum] read the
    string one code point at a time. *)

(** A byte [10xxxxxx] continues the encoding of a code point. *)
Definition is_continuation (b : ascii) : bool :=
  let n := nat_of_ascii b in ((128 <=? n) && (n <? 192))%nat.

(** The characters of [s], each one the string of its own bytes: a byte
    that is no continuation byte starts a character. *)
Fixpoint chars (s : string) : list string :=
  match s with
  | EmptyString => []
  | String b s' =>
      match chars s' with
      | String b' c :: cs =>
          if is_continuation b' then String b (String b' c) :: cs
          else String b EmptyString :: String b' c :: cs
      | cs => String b EmptyString :: cs
      end
  end.

(** [''.join(cs)] *)
Definition unchars (cs : list string) : string := foldr String.append EmptyString cs.

(** [len(s)]: the number of code points. *)
Definition len (s : string) : nat := length (chars s).

(** [ord(c)] of a character: the code point its bytes encode. *)
Definition ord (c : string) : N :=
  match c with
  | EmptyString => 0
  | String b rest =>
      let n := N_of_ascii b in
      let lead := if n <? 128 then n
                  else if n <? 224 then n mod 32
                  else if n <? 240 then n mod 16
                  else n mod 8 in
      fold_left (fun acc b' => acc * 64 + N_of_ascii b' mod 64)
                (list_ascii_of_string rest) lead
  end%N.

(** [chr(n)]: the encoding of the code point [n]. *)
Definition chr (n : N) : string :=
  let byte (k : N) := String (ascii_of_N k) EmptyString in
  let cont (k : N) := byte (128 + k mod 64)%N in
  (if n <? 128 then byte n
   else if n <? 2048 then byte (192 + n / 64) +:+ cont n
   else if n <? 65536 then byte (224 + n / 4096) +:+ cont (n / 64) +:+ cont n
   else byte (240 + n / 262144) +:+ cont (n / 4096) +:+ cont (n / 64) +:+ cont n)%N.

(** The code points on which [str.isspace] holds; [str.split()] and
    [str.strip()] cut at the same ones. *)
Definition whitespace : list N :=
  [9; 10; 11; 12; 13; 28; 29; 30; 31; 32; 133; 160; 5760;
   8192; 8193; 8194; 8195; 8196; 8197; 8198; 8199; 8200; 8201; 8202;
   8232; 8233; 8239; 8287; 12288]%N.

Definition isspace (c : string) : bool := bool_decide (ord c ∈ whitespace).

(** The Unicode database above U+00FF, which the interpreter brings along
    and the embedding takes as given: [ch.isalnum()] of a code point, and
    what [lower] writes for the character at a position of a string (one
    code point or several; for the capital sigma it depends on the
    neighbours, so the whole list of characters is given). *)
Class Unicode : Type := {
  unicode_isalnum : N -> bool;
  unicode_lower : list string -> nat -> string
}.

(** [ch.isalnum()] up to U+00FF: digits, letters, and the superscripts,
    fractions and ordinal indicators of Latin-1. *)
Definition latin1_isalnum (n : N) : bool :=
  ((48 <=? n) && (n <=? 57) || (65 <=? n) && (n <=? 90) || (97 <=? n) && (n <=? 122)
   || (n =? 170) || (178 <=? n) && (n <=? 179) || (n =? 181)
   || (185 <=? n) && (n <=? 186) || (188 <=? n) && (n <=? 190)
   || (192 <=? n) && (n <=? 214) || (216 <=? n) && (n <=? 246)
   || (248 <=? n) && (n <=? 255))%N.

(** The code points up to U+00FF that [lower] changes; each moves up by 32. *)
Definition latin1_isupper (n : N) : bool :=
  ((65 <=? n) && (n <=? 90) || (192 <=? n) && (n <=? 214) || (216 <=? n) && (n <=? 222))%N.

Section WithUnicode.
Context `{Unicode}.

(** [ch.isalnum()] *)
Definition isalnum (c : string) : bool :=
  let n := ord c in
  if (n <? 256)%N then latin1_isalnum n else unicode_isalnum n.

(** [s.lower()]: every character is replaced by its lowering, in order. *)
Definition lower (s : string) : string :=
  let cs := chars s in
  unchars (imap (fun i c =>
                   if (ord c <? 256)%N then
                     if latin1_isupper (ord c) then chr (ord c + 32) else c
                   else unicode_lower cs i)
                cs).

End WithUnicode.

(** [s.split()]: the maximal runs of non-whitespace characters, in order.
    [cur] is the run being read, if one has started. *)
Fixpoint split_from (cur : option (list string)) (cs : list string) : list (list string) :=
  match cs with
  | [] => match cur with Some t => [t] | None => [] end
  | c :: cs' =>
      if isspace c then
        match cur with
        | Some t => t :: split_from None cs'
        | None => split_from None cs'
        end
      else split_from (Some (default [] cur ++ [c])) cs'
  end.

Definition split (s : string) : list string := map unchars (split_from None (chars s)).

(** [s.strip(chars)]: characters of [chars] removed from both ends. *)
Definition in_chars (set c : string) : bool := bool_decide (c ∈ chars set).

Fixpoint lstrip_by (p : string -> bool) (cs : list string) : list string :=
  match cs with
  | [] => []
  | c :: cs' => if p c then lstrip_by p cs' else cs
  end.

(** Removes the longest suffix of characters satisfying [p]. *)
Fixpoint rstrip_by (p : string -> bool) (cs : list string) : list string :=
  match cs with
  | [] => []
  | c :: cs' =>
      match rstrip_by p cs' with
      | [] => if p c then [] else [c]
      | t => c :: t
      end
  end.

Definition strip_by (p : string -> bool) (s : string) : string :=
  unchars (rstrip_by p (lstrip_by p (chars s))).

(** [s.strip()] and [s.strip(chars)] *)
Definition strip (s : string) : string := strip_by isspace s.
Definition strip_chars (set s : string) : string := strip_by (in_chars set) s.

(** [''.join(ch for ch in s if p(ch))] *)
Definition filter_chars (p : string -> bool) (s : string) : string :=
  unchars (filter (fun c => p c = true) (chars s)).

(** [s[:n]] for [n >= 0]. *)
Definition str_take (n : nat) (s : string) : string := unchars (take n (chars s)).

(** The substring operations below compare bytes.  UTF-8 is
    self-synchronising: the encoding of a string occurs in the encoding of
    another only where the string itself occurs, so a match of the bytes is
    a match of the characters. *)

(** [s] without its leading [p], when [s] starts with [p]. *)
Fixpoint drop_prefix (p s : string) : option string :=
  match p, s with
  | EmptyString, _ => Some s
  | String a p', String b s' => if bool_decide (a = b) then drop_prefix p' s' else None
  | String _ _, EmptyString => None
  end.

(** [needle in hay] *)
Fixpoint contains (needle hay : string) : bool :=
  match drop_prefix needle hay with
  | Some _ => true
  | None =>
      match hay with
      | EmptyString => false
      | String _ hay' => contains needle hay'
      end
  end.

(** [' '.join(words)] *)
Fixpoint join (sep : string) (words : list string) : string :=
  match words with
  | [] => EmptyString
  | [w] => w
  | w :: ws => w +:+ sep +:+ join sep ws
  end.

(** ** Insertion-ordered dictionaries

    [doc_scores] and [doc_objects] of [reciprocal_rank_fusion] are Python
    dictionaries keyed by [hash(doc.page_content)]; iteration follows
    insertion order, which the final sort observes on ties. *)

Definition dict (V : Type) : Type := list (Z * V).

(** [d.get(k)] / [k in d] *)
Fixpoint dict_get {V} (d : dict V) (k : Z) : option V :=
  match d with
  | [] => None
  | (k', v) :: d' => if k' =? k then Some v else dict_get d' k
  end.

(** [d[k] = v]: an existing key keeps its place, a new one goes last. *)
Fixpoint dict_set {V} (d : dict V) (k : Z) (v : V) : dict V :=
  match d with
  | [] => [(k, v)]
  | (k', v') :: d' => if k' =? k then (k', v) :: d' else (k', v') :: dict_set d' k v
  end.

(** [d[k]] *)
Definition dict_item {V} (d : dict V) (k : Z) : res V :=
  match dict_get d k with
  | Some v => Ok v
  | None => Raise (Exn KeyError (pretty k))
  end.

(** ** Sorting

    [sorted(xs, key=f, reverse=True)] and [xs.sort(key=f, reverse=True)]:
    descending in the key, elements with equal keys in their original order.
    Python compares keys with [<] only.  On keys that [<] orders (for
    floats: none is NaN) the result does not depend on the algorithm, and
    the insertion below gives what Python's sort gives; with a NaN among the
    keys the two may differ, and what is proved of the order assumes there
    is none. *)

Section Sorting.
Context {F : Type} `{PyFloat F} {A : Type} (key : A -> F).

Fixpoint insert_desc (x : A) (l : list A) : list A :=
  match l with
  | [] => [x]
  | y :: l' => if fltb (key x) (key y) then y :: insert_desc x l' else x :: l
  end.

Fixpoint sorted_desc (l : list A) : list A :=
  match l with
  | [] => []
  | x :: l' => insert_desc x (sorted_desc l')
  end.

End Sorting.

(** ** [src/data/bm25_retriever.py] *)

Module bm25_retriever.
Section WithFloat.
Context {F : Type} `{PyFloat F} `{Unicode}.

(** [class BM25Retriever].  [bm25] is the [rank_bm25.BM25Okapi] index built
    by [index_documents]; of that library only [get_scores] is used, kept
    here as the function from a tokenized query to one score per document. *)
Record BM25Retriever : Type := {
  k1 : F;
  b : F;
  bm25 : option (list string -> list F);
  documents : list (Document F);
  tokenized_corpus : list (list string)
}.

(** One iteration of the loop that builds [results] in [search]. *)
Definition search_step (self : BM25Retriever) (scores : list F)
    (results : list (Result F)) (idx : nat) : res (list (Result F)) :=
  s ← index scores (Z.of_nat idx);
  if fltb (of_int 0) s then
    doc ← index (documents self) (Z.of_nat idx);
    Ok (results ++ [mkResult doc (Some (VFloat s))
                             (Some (VInt (Z.of_nat (length results) + 1)))])
  else Ok results.

(** [BM25Retriever.search(query, top_k)].  [argsort] is [numpy.argsort]. *)
Definition search (argsort : list F -> list nat) (self : BM25Retriever)
    (query : string) (top_k : Z) : res (list (Result F)) :=
  match bm25 self, documents self with
  | None, _ | _, [] => Ok []
  | Some get_scores, _ :: _ =>
      let tokenized_query := split (lower query) in
      let scores := get_scores tokenized_query in
      let top_indices := slice_to top_k (rev (argsort scores)) in
      for_each (search_step self scores) top_indices []
  end.

(** [result.get('rank', result.get('score', 1))] *)
Definition get_rank (result : Result F) : value F :=
  match rank result with
  | Some r => r
  | None => match score result with Some s => s | None => VInt 1 end
  end.

(** [1.0 / n] for a Python int [n]. *)
Definition one_over_int (n : Z) : res F :=
  if negb (int_fits n) then Raise (Exn OverflowError "int too large to convert to float")
  else if n =? 0 then Raise (Exn ZeroDivisionError "float division by zero")
  else Ok (fdiv (of_int 1) (of_int n)).

(** [rrf_score = 1.0 / (k + rank)], by the Python type of [rank]. *)
Definition rrf_score (k : Z) (rank : value F) : res F :=
  match rank with
  | VInt n => one_over_int (k + n)
  | VBool b => one_over_int (k + (if b then 1 else 0))
  | VFloat x =>
      if negb (int_fits k) then Raise (Exn OverflowError "int too large to convert to float")
      else
        let d := fadd (of_int k) x in
        if feqb d (of_int 0) then Raise (Exn ZeroDivisionError "float division by zero")
        else Ok (fdiv (of_int 1) d)
  | VNone | VStr _ => Raise (Exn TypeError "unsupported operand type(s) for +")
  end.

(** The body of the inner loop over [result in results]; the state is the
    pair [(doc_scores, doc_objects)]. *)
Definition fuse_step (hash : string -> Z) (k : Z)
    (st : dict F * dict (Document F)) (result : Result F)
    : res (dict F * dict (Document F)) :=
  let '(doc_scores, doc_objects) := st in
  let doc := document result in
  let rank := get_rank result in
  let doc_key := hash (page_content doc) in
  rrf_score ← rrf_score k rank;
  match dict_get doc_scores doc_key with
  | Some s => Ok (dict_set doc_scores doc_key (fadd s rrf_score), doc_objects)
  | None => Ok (dict_set doc_scores doc_key rrf_score, dict_set doc_objects doc_key doc)
  end.

(** The body of the loop that builds [fused_results]. *)
Definition build_step (doc_objects : dict (Document F))
    (fused_results : list (Result F)) (item : Z * F) : res (list (Result F)) :=
  let '(doc_key, score) := item in
  doc ← dict_item doc_objects doc_key;
  Ok (fused_results ++ [mkResult doc (Some (VFloat score))
                                 (Some (VInt (Z.of_nat (length fused_results) + 1)))]).

(** [reciprocal_rank_fusion(results_list, k)].  [hash] is Python's [hash] on
    strings, fixed for the life of the process. *)
Definition reciprocal_rank_fusion (hash : string -> Z)
    (results_list : list (list (Result F))) (k : Z) : res (list (Result F)) :=
  '(doc_scores, doc_objects) ←
    for_each (fun st results => for_each (fuse_step hash k) results st)
             results_list ([], []);
  let sorted_docs := sorted_desc snd doc_scores in
  for_each (build_step doc_objects) sorted_docs [].

End WithFloat.
End bm25_retriever.

(** ** [src/ml/reranker.py] *)

Module reranker.
Section WithFloat.
Context {F : Type} `{PyFloat F}.

(** One item of [results.results] of the remote rerank service. *)
Record RerankItem : Type := {
  item_index : Z;             (* result.index *)
  relevance_score : F         (* result.relevance_score *)
}.

(** [class Reranker].  The two model handles are the external services:
    [cohere_client.rerank(model=, query=, documents=, top_n=)] and
    [cross_encoder.predict(pairs)]; either call may raise. *)
Record Reranker : Type := {
  use_local : bool;
  cohere_client : option (string -> string -> list string -> Z -> res (list RerankItem));
  cross_encoder : option (list (string * string) -> res (list F));
  cohere_model : string
}.

(** The literal [0.5]. *)
Definition half : F := fdiv (of_int 1) (of_int 2).

(** The list comprehension shared by the three fallbacks:
    [[{'document': doc, 'score': doc.metadata.get('relevance_score', 0.5),
       'rank': i + 1} for i, doc in enumerate(documents[:top_k])]] *)
Definition original_order (documents : list (Document F)) (top_k : Z) : list (Result F) :=
  map (fun '(i, doc) =>
         mkResult doc
                  (Some (default (VFloat half) (metadata doc !! "relevance_score")))
                  (Some (VInt (i + 1))))
      (enumerate (slice_to top_k documents)).

(** [reranked.append({... 'rank': len(reranked) + 1})] *)
Definition append_ranked (reranked : list (Result F)) (doc : Document F) (s : F)
    : list (Result F) :=
  reranked ++ [mkResult doc (Some (VFloat s)) (Some (VInt (Z.of_nat (length reranked) + 1)))].

(** [Reranker._rerank_cohere] *)
Definition _rerank_cohere (self : Reranker) (query : string)
    (documents : list (Document F)) (top_k : Z) : list (Result F) :=
  try_except
    (let doc_texts := map page_content documents in
     rerank_call ← match cohere_client self with
                   | Some c => Ok c
                   | None => Raise (Exn AttributeError "'NoneType' object has no attribute 'rerank'")
                   end;
     results ← rerank_call (cohere_model self) query doc_texts top_k;
     for_each (fun reranked result =>
                 doc ← index documents (item_index result);
                 Ok (append_ranked reranked doc (relevance_score result)))
              results [])
    (original_order documents top_k).

(** [Reranker._rerank_local] *)
Definition _rerank_local (self : Reranker) (query : string)
    (documents : list (Document F)) (top_k : Z) : list (Result F) :=
  try_except
    (let pairs := map (fun doc => (query, page_content doc)) documents in
     predict ← match cross_encoder self with
               | Some p => Ok p
               | None => Raise (Exn AttributeError "'NoneType' object has no attribute 'predict'")
               end;
     scores ← predict pairs;
     let scored_docs := sorted_desc snd (zip documents scores) in
     Ok (fold_left (fun reranked '(doc, s) => append_ranked reranked doc s)
                   (slice_to top_k scored_docs) []))
    (original_order documents top_k).

(** [Reranker.rerank(query, documents, top_k)] *)
Definition rerank (self : Reranker) (query : string)
    (documents : list (Document F)) (top_k : Z) : list (Result F) :=
  match documents with
  | [] => []
  | _ :: _ =>
      if use_local self && bool_decide (is_Some (cross_encoder self)) then
        _rerank_local self query documents top_k
      else if bool_decide (is_Some (cohere_client self)) then
        _rerank_cohere self query documents top_k
      else
        original_order documents top_k
  end.

End WithFloat.
End reranker.

(** ** [src/ml/query_rewriter.py] *)

(** The chat-completion interface of the text-generation service, shared by
    the query rewriter and the context compressor. *)
Record ChatRequest (F : Type) : Type := mkChatRequest {
  req_model : string;
  req_messages : list (string * string);   (* (role, content) *)
  req_temperature : F;
  req_max_tokens : Z
}.
Arguments mkChatRequest {F} _ _ _ _.

(** [response.choices[i].message.content], which the service may leave [None]. *)
Definition ChatResponse : Type := list (option string).

(** [response.choices[0].message.content.strip()] *)
Definition first_content_stripped (response : ChatResponse) : res string :=
  content ← index response 0;
  match content with
  | Some text => Ok (strip text)
  | None => Raise (Exn AttributeError "'NoneType' object has no attribute 'strip'")
  end.

Definition quote : string := String "034"%char EmptyString.
Definition newline : string := String "010"%char EmptyString.

Module query_rewriter.
Section WithFloat.
Context {F : Type} `{PyFloat F}.

(** [class QueryRewriter]; [client] is [None] when no API key was found. *)
Record QueryRewriter : Type := {
  client : option (ChatRequest F -> res ChatResponse);
  model : string;
  max_tokens : Z
}.

Definition rewrite_prompt (query : string) : string :=
  "You are a query expansion expert. Your task is to rewrite the following search query to be more detailed and specific for a vector database search."
  +:+ newline +:+ newline
  +:+ "Original query: " +:+ quote +:+ query +:+ quote +:+ newline +:+ newline
  +:+ "Rewrite this query to:" +:+ newline
  +:+ "1. Expand abbreviations (e.g., " +:+ quote +:+ "ML" +:+ quote +:+ " → "
  +:+ quote +:+ "machine learning" +:+ quote +:+ ")" +:+ newline
  +:+ "2. Add relevant context and related terms" +:+ newline
  +:+ "3. Make it more specific and searchable" +:+ newline
  +:+ "4. Keep it concise (1-2 sentences max)" +:+ newline +:+ newline
  +:+ "Rewritten query:".

(** The arguments of [self.client.chat.completions.create(...)] in [rewrite]. *)
Definition rewrite_request (self : QueryRewriter) (query : string) : ChatRequest F :=
  let prompt := rewrite_prompt query in
  mkChatRequest (model self)
    [("system", "You are a helpful assistant that expands search queries.");
     ("user", prompt)]
    (fdiv (of_int 3) (of_int 10))
    (max_tokens self).

(** [QueryRewriter.rewrite(query)] *)
Definition rewrite (self : QueryRewriter) (query : string) : res string :=
  match client self with
  | None => Ok query
  | Some create =>
      if 50 <? Z.of_nat (len query) then Ok query
      else
        Ok (try_except
              (response ← create (rewrite_request self query);
               rewritten_query ← first_content_stripped response;
               let rewritten_query := strip_chars (quote +:+ "'") rewritten_query in
               Ok rewritten_query)
              query)
  end.

(** [QueryRewriter.rewrite_if_needed(query, threshold)] *)
Definition rewrite_if_needed (self : QueryRewriter) (query : string) (threshold : Z)
    : res string :=
  if Z.of_nat (len query) <? threshold then rewrite self query
  else Ok query.

End WithFloat.
End query_rewriter.

(** ** [src/ml/context_compressor.py] *)

Module context_compressor.
Section WithFloat.
Context {F : Type} `{PyFloat F}.

(** [class ContextCompressor] *)
Record ContextCompressor : Type := {
  client : option (ChatRequest F -> res ChatResponse);
  model : string;
  max_tokens : Z
}.

Definition compress_prompt (query content : string) : string :=
  "You are a text compression expert. Extract only the sentences from the following text that are directly relevant to answering this query:"
  +:+ newline +:+ newline
  +:+ "Query: " +:+ quote +:+ query +:+ quote +:+ newline +:+ newline
  +:+ "Text:" +:+ newline +:+ content +:+ newline +:+ newline
  +:+ "Instructions:" +:+ newline
  +:+ "1. Extract ONLY sentences that directly answer or relate to the query" +:+ newline
  +:+ "2. Preserve the original wording - do not paraphrase" +:+ newline
  +:+ "3. Remove redundant or tangential information" +:+ newline
  +:+ "4. Keep the extracted sentences in their original order" +:+ newline
  +:+ "5. If multiple sentences are relevant, separate them with a space"
  +:+ newline +:+ newline
  +:+ "Relevant sentences:".

(** The arguments of [self.client.chat.completions.create(...)] in
    [_compress_single]. *)
Definition compress_request (self : ContextCompressor) (query content : string)
    : ChatRequest F :=
  let prompt := compress_prompt query content in
  mkChatRequest (model self)
    [("system", "You are a helpful assistant that extracts relevant information.");
     ("user", prompt)]
    (fdiv (of_int 1) (of_int 10))
    (max_tokens self).

(** [ContextCompressor._compress_single(query, content)] *)
Definition _compress_single (self : ContextCompressor) (query content : string) : string :=
  try_except
    (create ← match client self with
              | Some c => Ok c
              | None => Raise (Exn AttributeError "'NoneType' object has no attribute 'chat'")
              end;
     response ← create (compress_request self query content);
     compressed ← first_content_stripped response;
     if Z.of_nat (len compressed) <? 50 then Ok content
     else Ok compressed)
    content.

(** The body of the loop over [doc in documents]: the document appended to
    [compressed_docs].  The token totals only feed a log line.  Nothing in
    the [try] block raises here ([_compress_single] handles its own
    exceptions), so the handler that appends [doc] is kept but never runs. *)
Definition compress_doc (self : ContextCompressor) (query : string) (doc : Document F)
    : Document F :=
  let original_tokens := Z.of_nat (len (page_content doc)) / 4 in
  if original_tokens <? 100 then doc
  else
    try_except
      (let compressed_content := _compress_single self query (page_content doc) in
       Ok (mkDocument compressed_content
             (<["compressed_length" := VInt (Z.of_nat (len compressed_content))]>
              (<["original_length" := VInt (Z.of_nat (len (page_content doc)))]>
               (<["compressed" := VBool true]> (metadata doc))))))
      doc.

(** [ContextCompressor.compress(query, documents)] *)
Definition compress (self : ContextCompressor) (query : string)
    (documents : list (Document F)) : list (Document F) :=
  match client self, documents with
  | None, _ | _, [] => documents
  | Some _, _ :: _ =>
      fold_left (fun compressed_docs doc => compressed_docs ++ [compress_doc self query doc])
                documents []
  end.

End WithFloat.
End context_compressor.

(** ** [src/utils/semantic_cache.py] *)

Module semantic_cache.
Section WithFloat.
Context {F : Type} `{PyFloat F}.

(** [numpy.dot] on two one-dimensional arrays: the sum of the products,
    [ValueError] when the lengths differ.  The products are added from left
    to right, each operation rounded; a numpy built on a BLAS library may
    add in another order or fuse an addition with a product, which can move
    the last bit of the sum.  Nothing proved below depends on that bit,
    except the runs on sample vectors, where every sum is exact. *)
Definition np_dot (a b : list F) : res F :=
  if bool_decide (length a = length b) then
    Ok (fold_left (fun acc '(x, y) => fadd acc (fmul x y)) (zip a b) (of_int 0))
  else Raise (Exn ValueError "shapes not aligned").

(** [numpy.linalg.norm] on a one-dimensional real array: [sqrt(x.dot(x))],
    the square root of the same sum as [np_dot a a]. *)
Definition np_linalg_norm (a : list F) : F :=
  fsqrt (fold_left (fun acc x => fadd acc (fmul x x)) a (of_int 0)).

(** [SemanticCache._cosine_similarity(vec1, vec2)] *)
Definition _cosine_similarity (vec1 vec2 : list F) : res F :=
  dot_product ← np_dot vec1 vec2;
  let norm1 := np_linalg_norm vec1 in
  let norm2 := np_linalg_norm vec2 in
  if feqb norm1 (of_int 0) || feqb norm2 (of_int 0) then Ok (of_int 0)
  else Ok (fdiv dot_product (fmul norm1 norm2)).

End WithFloat.
End semantic_cache.

(** ** [src/data/document_store.py] *)

(** [s.split(sep, 1)] cuts at the first occurrence of [sep]:
    [[before; after]], or [[s]] when [sep] does not occur. *)
Fixpoint split_once (sep s : string) : list string :=
  match drop_prefix sep s with
  | Some after => [EmptyString; after]
  | None =>
      match s with
      | EmptyString => [EmptyString]
      | String c s' =>
          match split_once sep s' with
          | [before; after] => [String c before; after]
          | _ => [s]
          end
      end
  end.

(** [range(a, b)] *)
Definition range (a b : Z) : list Z :=
  map (fun j => a + Z.of_nat j) (seq 0 (Z.to_nat (b - a))).

(** [range(0, n, step)] for a positive [step]. *)
Definition range_step (n step : nat) : list nat :=
  map (fun j => j * step)%nat (seq 0 ((n + step - 1) / step)%nat).

(** [l[i:j]] for [0 <= i <= j]. *)
Definition slice {A} (i j : nat) (l : list A) : list A := take (j - i) (drop i l).

Module document_store.
Section WithFloat.
Context {F : Type} `{PyFloat F} `{Unicode}.

(** A metadata dictionary. *)
Local Abbreviation Metadata := (gmap string (value F)).

(** A [filters] entry: a plain value, or a list of admissible values. *)
Inductive filter_value : Type :=
| FScalar (v : value F)
| FList (vs : list (value F)).

(** An entry of the [where] dictionary handed to the storage engine. *)
Inductive where_clause : Type :=
| WEq (v : value F)
| WIn (vs : list (value F))            (* {"$in": vs} *)
| WRaw (v : filter_value).             (* the filter as given ([where.update(filters)]) *)

(** What [collection.query] returns: a dictionary of per-query lists. *)
Record QueryResult : Type := {
  q_documents : option (list (list string));
  q_metadatas : option (list (list Metadata));
  q_distances : option (list (list F))
}.

(** What [collection.get] returns. *)
Record GetResult : Type := {
  g_documents : option (list string);
  g_metadatas : option (list Metadata)
}.

(** The keyword arguments of one [collection.add] call. *)
Record AddCall : Type := {
  documents : list string;
  metadatas : list Metadata;
  ids : list string
}.

(** A Chroma collection handle.  The storage engine is external; the first
    argument of [query] counts the earlier attempts of the same call, so the
    retry after a schema repair may answer differently. *)
Record Collection : Type := {
  add : AddCall -> res unit;
  query : nat -> string -> Z -> option (gmap string where_clause)
          -> res (option QueryResult);
  get : option (gmap string where_clause) -> res (option GetResult)
}.

(** The file [chroma.sqlite3] as [sqlite3] shows it to the repair code. *)
Record Sqlite : Type := {
  db_file_exists : bool;          (* db_file.exists() *)
  connect : res unit;             (* sqlite3.connect(str(db_file)) *)
  execute : string -> res unit;   (* conn.execute(statement) *)
  commit : res unit               (* conn.commit() *)
}.

(** [class DocumentStore]: what the embedded methods read of it. *)
Record DocumentStore : Type := {
  get_or_create_collection : nat -> string -> res Collection;
  sqlite : Sqlite;
  cache_get : string -> option (list (Document F))   (* cache.get(cache_key) *)
}.


(** [f"doc_{i}_{hash(doc.page_content) % 1000000}"] *)
Definition batch_id (hash : string -> Z) (i : Z) (doc : Document F) : string :=
  "doc_" +:+ pretty i +:+ "_" +:+ pretty (hash (page_content doc) `mod` 1000000).

(** The [try] block of [_try_repair_collection_schema] that parses the error
    message: [None] stands for the early [return False] when no dot is found. *)
Definition parse_missing_column (message : string) : res (option (string * string)) :=
  let missing_prefix := "no such column: " in
  rest ← index (split_once missing_prefix message) 1;
  token ← index (split rest) 0;
  let parts := strip_chars (quote +:+ "`[]") token in
  if negb (contains "." parts) then Ok None
  else
    match split_once "." parts with
    | [table_name; column_name] => Ok (Some (table_name, column_name))
    | _ => Raise (Exn ValueError "not enough values to unpack")
    end.

(** [ch.isalnum() or ch == '_'] *)
Definition is_safe_char (ch : string) : bool := isalnum ch || bool_decide (ch = "_"%string).

Definition alter_statement (safe_table safe_column : string) : string :=
  "ALTER TABLE " +:+ safe_table +:+ " ADD COLUMN " +:+ safe_column +:+ " TEXT".

(** [except sqlite3.OperationalError: return False]; other classes propagate. *)
Definition on_operational_error (e : exn) : res bool :=
  match exn_class_of e with
  | OperationalError => Ok false
  | _ => Raise e
  end.

(** [DocumentStore._try_repair_collection_schema(error)]: the outcome and the
    statements passed to [conn.execute]. *)
Definition _try_repair_collection_schema (self : DocumentStore) (error : exn)
    : res bool * list string :=
  let message := exn_str error in
  let missing_prefix := "no such column: " in
  if negb (contains missing_prefix message) then (Ok false, [])
  else
    match parse_missing_column message with
    | Raise e =>
        match exn_class_of e with
        | IndexError | ValueError => (Ok false, [])
        | _ => (Raise e, [])
        end
    | Ok None => (Ok false, [])
    | Ok (Some (table_name, column_name)) =>
        let safe_table := filter_chars is_safe_char table_name in
        let safe_column := filter_chars is_safe_char column_name in
        if negb (bool_decide (safe_table = table_name))
           || negb (bool_decide (safe_column = column_name)) then (Ok false, [])
        else if negb (db_file_exists (sqlite self)) then (Ok false, [])
        else
          match connect (sqlite self) with
          | Raise e => (on_operational_error e, [])
          | Ok _ =>
              let statement := alter_statement safe_table safe_column in
              match execute (sqlite self) statement with
              | Raise e => (on_operational_error e, [statement])
              | Ok _ =>
                  match commit (sqlite self) with
                  | Raise e => (on_operational_error e, [statement])
                  | Ok _ => (Ok true, [statement])
                  end
              end
          end
    end.

(** [DocumentStore._initialize_collection(name)] *)
Definition _initialize_collection (self : DocumentStore) (name : string) : res Collection :=
  match get_or_create_collection self 0 name with
  | Ok collection => Ok collection
  | Raise exc =>
      repaired ← fst (_try_repair_collection_schema self exc);
      if repaired : bool then get_or_create_collection self 1 name
      else Raise exc
  end.


(** [DocumentStore.add_documents(documents, collection_name)]: one
    [collection.add] call per batch of 100. *)
Definition add_documents (hash : string -> Z) (self : DocumentStore)
    (docs : list (Document F)) (collection_name : string) : res (list string) :=
  match docs with
  | [] => Ok []
  | _ :: _ =>
      collection ← _initialize_collection self collection_name;
      let contents := map page_content docs in
      let metadatas := map metadata docs in
      let ids := map (fun '(i, doc) => batch_id hash i doc) (enumerate docs) in
      let batch_size := 100%nat in
      _ ← for_each (fun _ (i : nat) =>
                      let batch_end := Nat.min (i + batch_size) (length docs) in
                      add collection {| documents := slice i batch_end contents;
                                        metadatas := slice i batch_end metadatas;
                                        ids := slice i batch_end ids |})
                   (range_step (length docs) batch_size) ();
      Ok ids
  end.

(** The [where] dictionary of [search_documents]: a list value becomes
    [{"$in": value}]; [where if where else None]. *)
Definition where_of (filters : option (gmap string filter_value))
    : option (gmap string where_clause) :=
  let where_ := (fun v => match v with FScalar x => WEq x | FList xs => WIn xs end)
               <$> default ∅ filters in
  if bool_decide (where_ = ∅) then None else Some where_.

(** [distance -> 1.0 - (distance / 2.0)] *)
Definition relevance_of_distance (distance : F) : F :=
  fsub (of_int 1) (fdiv distance (of_int 2)).

(** [xs[0][i] if xs and xs[0] else dflt], for [xs = result.get(key)]. *)
Definition nested_item {A} (xs : option (list (list A))) (i : Z) (dflt : A) : res A :=
  match xs with
  | Some ((_ :: _) as first :: _) => index first i
  | _ => Ok dflt
  end.

(** The body of the loop that converts the engine's answer to documents. *)
Definition convert_step (result : QueryResult) (first : list string)
    (documents : list (Document F)) (i : Z) : res (list (Document F)) :=
  content ← index first i;
  metadata ← nested_item (q_metadatas result) i ∅;
  distance ← nested_item (q_distances result) i (of_int 1);
  let metadata := <["relevance_score" := VFloat (relevance_of_distance distance)]> metadata in
  Ok (documents ++ [mkDocument content metadata]).

(** "Convert results to Document objects": the tail of [search_documents]. *)
Definition convert_results (result : option QueryResult) (top_k offset : Z)
    : res (list (Document F)) :=
  match result with
  | Some r =>
      match q_documents r with
      | Some (first :: _) =>
          let start_idx := offset in
          let end_idx := offset + top_k in
          for_each (convert_step r first)
                   (range start_idx (end_idx `min` Z.of_nat (length first))) []
      | _ => Ok []
      end
  | None => Ok []
  end.

(** [DocumentStore.search_documents(query, collection_name, filters, top_k, offset)] *)
Definition search_documents (self : DocumentStore) (query_text collection_name : string)
    (filters : option (gmap string filter_value)) (top_k offset : Z)
    : res (list (Document F)) :=
  match _initialize_collection self collection_name with
  | Raise _ => Ok []
  | Ok collection =>
      let where_ := where_of filters in
      match query collection 0 query_text (top_k + offset) where_ with
      | Ok result => convert_results result top_k offset
      | Raise e =>
          repaired ← fst (_try_repair_collection_schema self e);
          if repaired : bool then
            match query collection 1 query_text (top_k + offset) where_ with
            | Ok result => convert_results result top_k offset
            | Raise _ => Ok []
            end
          else Ok []
      end
  end.

(** [match_count / len(query_terms)] on Python ints. *)
Definition int_truediv (m n : Z) : res F :=
  if n =? 0 then Raise (Exn ZeroDivisionError "division by zero")
  else Ok (fdiv (of_int m) (of_int n)).

Definition stop_words : list string :=
  ["the"; "a"; "an"; "and"; "or"; "but"; "in"; "on"; "at"; "to"; "for"; "of"; "with"; "by"].

(** The query optimisation at the head of [hybrid_search]. *)
Definition optimize_query (query_text : string) : string :=
  let optimized_query :=
    if (500 <? len query_text)%nat then str_take 500 query_text else query_text in
  let query_words := split (lower optimized_query) in
  let filtered_words := filter (fun w => w ∉ stop_words) query_words in
  match filtered_words with
  | [] => optimized_query
  | _ :: _ => join " " filtered_words
  end.

(** [sum(1 for term in query_terms if term in content_lower)] *)
Definition match_count (query_terms : list string) (content_lower : string) : Z :=
  Z.of_nat (length (filter (fun term => contains term content_lower = true) query_terms)).

(** The loop of the keyword branch.  An exception ends it; [except
    Exception: pass] keeps the documents appended before. *)
Fixpoint keyword_loop (result : GetResult) (query_terms : list string)
    (items : list (Z * string)) (keyword_docs : list (Document F)) : list (Document F) :=
  match items with
  | [] => keyword_docs
  | (i, content) :: items' =>
      let content_lower := lower content in
      let count := match_count query_terms content_lower in
      if 0 <? count then
        let metadata :=
          match g_metadatas result with
          | Some ((_ :: _) as ms) => index ms i
          | _ => Ok ∅
          end in
        match metadata ≫= (fun md =>
                score ← int_truediv count (Z.of_nat (length query_terms));
                Ok (<["relevance_score" := VFloat score]> md)) with
        | Ok md => keyword_loop result query_terms items'
                                (keyword_docs ++ [mkDocument content md])
        | Raise _ => keyword_docs
        end
      else keyword_loop result query_terms items' keyword_docs
  end.

(** The keyword branch of [hybrid_search]: the list [keyword_docs]. *)
Definition keyword_branch (self : DocumentStore) (query_text collection_name : string)
    (filters : option (gmap string filter_value)) : list (Document F) :=
  match _initialize_collection self collection_name with
  | Raise _ => []
  | Ok collection =>
      let where_ := WRaw <$> default ∅ filters in
      match get collection (if bool_decide (where_ = ∅) then None else Some where_) with
      | Ok (Some result) =>
          match g_documents result with
          | Some ((_ :: _) as contents) =>
              (* set(query.lower().split()) *)
              let query_terms := remove_dups (split (lower query_text)) in
              keyword_loop result query_terms (enumerate contents) []
          | _ => []
          end
      | _ => []
      end
  end.

(** [doc.metadata.get("relevance_score", 0)] as a sort key; the scores set
    by the two branches are floats. *)
Definition relevance_key (doc : Document F) : F :=
  match metadata doc !! "relevance_score" with
  | Some (VFloat x) => x
  | Some (VInt n) => of_int n
  | Some (VBool true) => of_int 1
  | _ => of_int 0
  end.

(** "Combine results, removing duplicates": the dictionary [all_docs]. *)
Definition combine_results (hash : string -> Z)
    (semantic_results keyword_docs : list (Document F)) : dict (Document F) :=
  let all_docs :=
    fold_left (fun all_docs doc => dict_set all_docs (hash (page_content doc)) doc)
              semantic_results [] in
  fold_left (fun all_docs doc =>
               let doc_key := hash (page_content doc) in
               match dict_get all_docs doc_key with
               | Some _ => all_docs
               | None => dict_set all_docs doc_key doc
               end)
            keyword_docs all_docs.

(** [DocumentStore.hybrid_search].  The timing, the counters and the write
    to the cache are left out; the cache read is [cache_get]. *)
Definition hybrid_search (hash : string -> Z) (self : DocumentStore)
    (query_text collection_name : string) (filters : option (gmap string filter_value))
    (top_k : Z) (min_relevance : F) (use_cache : bool) : res (list (Document F)) :=
  let optimized_query := optimize_query query_text in
  match (if use_cache then cache_get self optimized_query else None) with
  | Some ((_ :: _) as cached_results) => Ok cached_results
  | _ =>
      semantic_results ← search_documents self optimized_query collection_name
                                          filters (top_k * 2) 0;
      let keyword_docs := keyword_branch self query_text collection_name filters in
      let all_docs := combine_results hash semantic_results keyword_docs in
      let sorted_docs := sorted_desc relevance_key (map snd all_docs) in
      let filtered_docs :=
        filter (fun doc => fleb min_relevance (relevance_key doc) = true) sorted_docs in
      Ok (slice_to top_k filtered_docs)
  end.

End WithFloat.
End document_store.

(** ** More of the cited files

    The functions below are the other methods of the classes embedded
    above, the helpers they call and the pipeline that calls them. *)

(** [s.endswith(suffix)] *)
Fixpoint ends_with (suffix s : string) : bool :=
  bool_decide (s = suffix) ||
  match s with
  | EmptyString => false
  | String _ s' => ends_with suffix s'
  end.

(** ** [src/utils/cache.py] *)

Module file_cache.
Section WithFloat.
Context {F : Type} `{PyFloat F} {V : Type}.

(** A file of the cache directory, as [get] reads it.  [Json] is a file that
    [json.load] parses to an object: [expires_at] and [created_at] are its
    numbers under those keys (when it has them), [value] what it holds under
    ['value'] (when it has the key and it is not [null]).  [Unreadable] is
    any other file: [open] or [json.load] raises, or the JSON is no object. *)
Inductive File : Type :=
| Json (expires_at created_at : option F) (value : option V)
| Unreadable.

(** The cache directory: file name to file. *)
Local Abbreviation Directory := (gmap string File).

(** [class FileCache].  [encode v] is what [json.load] reads back after
    [json.dump] wrote [v], [None] when [json.dump] raises (the value is not
    JSON-serializable); [writable path] says that [open(path, 'w')]
    succeeds. *)
Record FileCache : Type := {
  default_ttl : Z;
  encode : V -> option V;
  writable : string -> bool
}.

(** [FileCache._get_cache_path(key)], relative to [cache_dir]. *)
Definition _get_cache_path (key : string) : string := key +:+ ".json".

(** [FileCache.get(key)] at the time [now]: the value returned ([None] for
    Python's [None]) and the directory afterwards.  The second reading of
    the clock only feeds a log line. *)
Definition get (now : F) (dir : Directory) (key : string) : option V * Directory :=
  let cache_path := _get_cache_path key in
  match dir !! cache_path with
  | None => (None, dir)
  | Some (Json (Some expires_at) created_at value) =>
      if fltb expires_at now then (None, delete cache_path dir)
      else
        match created_at with
        | Some _ => (value, dir)
        | None => (None, dir)        (* KeyError, caught *)
        end
  | Some _ => (None, dir)            (* the exception is caught *)
  end.

(** [FileCache.set(key, value, ttl)]; [now] and [now'] are the two readings
    of the clock.  [time.time() + ttl] is computed before the [try]. *)
Definition set (self : FileCache) (now now' : F) (dir : Directory) (key : string)
    (value : option V) (ttl : option Z) : res bool * Directory :=
  let cache_path := _get_cache_path key in
  let ttl := match ttl with
             | Some t => if t =? 0 then default_ttl self else t
             | None => default_ttl self
             end in
  if negb (int_fits ttl) then
    (Raise (Exn OverflowError "int too large to convert to float"), dir)
  else
    let expires_at := fadd now (of_int ttl) in
    if negb (writable self cache_path) then (Ok false, dir)
    else
      match value with
      | None => (Ok true, <[cache_path := Json (Some expires_at) (Some now') None]> dir)
      | Some v =>
          match encode self v with
          | Some v' =>
              (Ok true, <[cache_path := Json (Some expires_at) (Some now') (Some v')]> dir)
          | None => (Ok false, <[cache_path := Unreadable]> dir)
          end
      end.

(** [ttl or self.default_ttl] *)
Definition effective_ttl (self : FileCache) (ttl : option Z) : Z :=
  match ttl with
  | Some t => if t =? 0 then default_ttl self else t
  | None => default_ttl self
  end.

(** [self.cache_dir.glob("*.json")] *)
Definition glob_json (dir : Directory) : list (string * File) :=
  filter (fun '(name, _) => ends_with ".json" name = true) (map_to_list dir).

(** [FileCache.clear()] *)
Definition clear (dir : Directory) : Z * Directory :=
  fold_left (fun '(count, dir) '(cache_file, _) => (count + 1, delete cache_file dir))
            (glob_json dir) (0, dir).

(** [FileCache.clear_expired()] at the time [current_time]. *)
Definition clear_expired (current_time : F) (dir : Directory) : Z * Directory :=
  fold_left (fun '(count, dir) '(cache_file, data) =>
               match data with
               | Json (Some expires_at) _ _ =>
                   if fltb expires_at current_time then (count + 1, delete cache_file dir)
                   else (count, dir)
               | _ => (count + 1, delete cache_file dir)   (* "If we can't read it, delete it" *)
               end)
            (glob_json dir) (0, dir).

(** The [wrapper] that [cached(ttl)] puts around [func], called with
    arguments that give the cache key [cache_key]; [func] is the outcome of
    calling the wrapped function with them.  [t0] is the clock at
    [cache.get], [t1] and [t2] at [cache.set]. *)
Definition cached (self : FileCache) (ttl : Z) (func : res (option V))
    (cache_key : string) (t0 t1 t2 : F) (dir : Directory)
    : res (option V) * Directory :=
  match get t0 dir cache_key with
  | (Some cached_value, dir) => (Ok (Some cached_value), dir)
  | (None, dir) =>
      match func with
      | Raise e => (Raise e, dir)
      | Ok result =>
          match set self t1 t2 dir cache_key result (Some ttl) with
          | (Raise e, dir) => (Raise e, dir)
          | (Ok _, dir) => (Ok result, dir)
          end
      end
  end.

End WithFloat.
End file_cache.

(** ** [src/utils/semantic_cache.py]: the cache itself *)

Module semantic_cache_store.
Section WithFloat.
Context {F : Type} `{PyFloat F} {V : Type}.
Import semantic_cache.

(** What [get] reads of one cached entry: the array
    [np.array(cached_dict["embedding"])] and what [cached_dict["result"]]
    gives, [None] when the entry has no such key (a [KeyError]),
    [Some None] when it holds [null]. *)
Record Entry : Type := {
  embedding : list F;
  result : option (option V)
}.

(** The Redis connection as [get] uses it.  [scan_iter] is what the
    iterator [scan_iter(match="semantic_cache:*")] yields, and the exception
    that ends the iteration if one does; [redis_get key] is [get(key)]. *)
Record Redis : Type := {
  scan_iter : list string * option exn;
  redis_get : string -> res (option string)
}.

(** [class SemanticCache].  [embed text] stands for
    [openai_client.embeddings.create(model=EMBEDDING_MODEL, input=text)]
    followed by [np.array(response.data[0].embedding)]; [loads data] for
    [json.loads(data.decode("utf-8"))] followed by the reading of the
    embedding. *)
Record SemanticCache : Type := {
  enabled : bool;
  redis_client : option Redis;
  openai_client : option (string -> res (list F));
  similarity_threshold : F;
  ttl : Z;
  loads : string -> res Entry
}.

(** [SemanticCache._get_embedding(text)] *)
Definition _get_embedding (self : SemanticCache) (text : string) : option (list F) :=
  match openai_client self with
  | None => None
  | Some create =>
      match create text with
      | Ok embedding => Some embedding
      | Raise _ => None
      end
  end.

(** The body of the loop over the scanned keys; the state is
    [(best_similarity, best_result)].  An exception ends the iteration of
    the body only ([except Exception: continue]); when it is the [KeyError]
    of [cached_dict["result"]], [best_similarity] is already assigned. *)
Definition scan_step (self : SemanticCache) (redis : Redis)
    (query_embedding : list F) (current_threshold : F)
    (st : F * option V) (key : string) : F * option V :=
  let '(best_similarity, best_result) := st in
  match redis_get redis key with
  | Ok (Some cached_data) =>
      if bool_decide (cached_data = EmptyString) then st
      else
        match loads self cached_data with
        | Ok cached_dict =>
            match _cosine_similarity query_embedding (embedding cached_dict) with
            | Ok similarity =>
                if fltb best_similarity similarity && fleb current_threshold similarity then
                  match result cached_dict with
                  | Some r => (similarity, r)
                  | None => (similarity, best_result)
                  end
                else st
            | Raise _ => st
            end
        | Raise _ => st
        end
  | _ => st
  end.

(** [SemanticCache.get(query, threshold)] *)
Definition get (self : SemanticCache) (query : string) (threshold : option F) : option V :=
  match enabled self, redis_client self with
  | false, _ | _, None => None
  | true, Some redis =>
      let current_threshold := default (similarity_threshold self) threshold in
      match _get_embedding self query with
      | None => None
      | Some query_embedding =>
          let '(keys, failure) := scan_iter redis in
          let '(best_similarity, best_result) :=
            fold_left (scan_step self redis query_embedding current_threshold)
                      keys (of_int 0, None) in
          match failure with
          | Some _ => None
          | None => best_result
          end
      end
  end.

End WithFloat.
End semantic_cache_store.

(** ** [src/data/bm25_retriever.py]: building the index *)

Module bm25_index.
Section WithFloat.
Context {F : Type} `{PyFloat F} `{Unicode}.
Import bm25_retriever.

(** [BM25Retriever(k1, b)] *)
Definition __init__ (k1 b : F) : BM25Retriever :=
  {| k1 := k1; b := b; bm25 := None; documents := []; tokenized_corpus := [] |}.

(** [BM25Retriever.index_documents(documents)]: the outcome and the retriever
    afterwards.  [BM25Okapi corpus k1 b] is the constructor of
    [rank_bm25.BM25Okapi], giving the [get_scores] of the index it builds;
    the two attributes assigned before it runs stay assigned when it raises. *)
Definition index_documents
    (BM25Okapi : list (list string) -> F -> F -> res (list string -> list F))
    (self : BM25Retriever) (documents : list (Document F)) : res unit * BM25Retriever :=
  match documents with
  | [] => (Ok (), self)
  | _ :: _ =>
      let tokenized_corpus := map (fun doc => split (lower (page_content doc))) documents in
      match BM25Okapi tokenized_corpus (k1 self) (b self) with
      | Ok index =>
          (Ok (), {| k1 := k1 self; b := b self; bm25 := Some index;
                     documents := documents; tokenized_corpus := tokenized_corpus |})
      | Raise e =>
          (Raise e, {| k1 := k1 self; b := b self; bm25 := bm25 self;
                       documents := documents; tokenized_corpus := tokenized_corpus |})
      end
  end.

End WithFloat.
End bm25_index.

(** ** [src/data/document_store.py]: batches *)

Module document_store_batch.
Section WithFloat.
Context {F : Type} `{PyFloat F} `{Unicode}.
Import document_store.

(** The [collection.add] calls of [add_documents], one per batch of 100. *)
Definition batch_calls (hash : string -> Z) (docs : list (Document F)) : list AddCall :=
  let contents := map page_content docs in
  let metadatas := map metadata docs in
  let ids := map (fun '(i, doc) => batch_id hash i doc) (enumerate docs) in
  let batch_size := 100%nat in
  map (fun i : nat =>
         let batch_end := Nat.min (i + batch_size) (length docs) in
         {| documents := slice i batch_end contents;
            metadatas := slice i batch_end metadatas;
            ids := slice i batch_end ids |})
      (range_step (length docs) batch_size).

(** [DocumentStore.add_documents_batch(documents, collection_name,
    batch_size)].  [elapsed] is [time.time() - start_time], by which the
    last log line divides inside the [try]. *)
Definition add_documents_batch (hash : string -> Z) (self : DocumentStore)
    (docs : list (Document F)) (collection_name : string) (batch_size : Z)
    (elapsed : F) : list string :=
  match docs with
  | [] => []
  | _ :: _ =>
      try_except
        (collection ← _initialize_collection self collection_name;
         starts ← (if batch_size =? 0 then
                     Raise (Exn ValueError "range() arg 3 must not be zero")
                   else if batch_size <? 0 then Ok []
                   else Ok (range_step (length docs) (Z.to_nat batch_size)));
         all_ids ←
           for_each (fun all_ids (i : nat) =>
                       let batch_end := Nat.min (i + Z.to_nat batch_size) (length docs) in
                       let batch := slice i batch_end docs in
                       let contents := map page_content batch in
                       let metadatas := map metadata batch in
                       let ids := map (fun '(j, doc) => batch_id hash (Z.of_nat i + j) doc)
                                      (enumerate batch) in
                       _ ← add collection {| documents := contents;
                                             metadatas := metadatas;
                                             ids := ids |};
                       Ok (all_ids ++ ids))
                    starts [];
         if feqb elapsed (of_int 0) then
           Raise (Exn ZeroDivisionError "float division by zero")
         else Ok all_ids)
        []
  end.

End WithFloat.
End document_store_batch.

(** ** [src/data/document_store.py]: the retrieval pipeline *)

Module rag_pipeline.
Section WithFloat.
Context {F : Type} `{PyFloat F} `{Unicode}.
Import document_store.

(** What [advanced_rag_search] reads of [src/utils/config.py] and of the
    process: the switches and sizes, and the constructors of the stages,
    each of which may raise. *)
Record Pipeline : Type := {
  ENABLE_SEMANTIC_CACHE : bool;
  QUERY_REWRITE_ENABLED : bool;
  RERANK_ENABLED : bool;
  CONTEXTUAL_COMPRESSION_ENABLED : bool;
  HYBRID_TOP_K : Z;
  RERANK_TOP_K : Z;
  BM25_K1 : F;
  BM25_B : F;
  (* SemanticCache(redis_url=..., ttl=..., similarity_threshold=...) *)
  new_semantic_cache :
    res (semantic_cache_store.SemanticCache (F:=F) (V:=list (Document F)));
  (* QueryRewriter(model=..., max_tokens=...) *)
  new_query_rewriter : res (query_rewriter.QueryRewriter (F:=F));
  (* Reranker(use_local=..., cohere_api_key=..., ...) *)
  new_reranker : res (reranker.Reranker (F:=F));
  (* ContextCompressor(model=..., max_tokens=...) *)
  new_context_compressor : res (context_compressor.ContextCompressor (F:=F));
  (* self.client.get_collection(name=..., embedding_function=...) *)
  get_collection : string -> res (Collection (F:=F));
  BM25Okapi : list (list string) -> F -> F -> res (list string -> list F);
  argsort : list F -> list nat;     (* numpy.argsort *)
  hash : string -> Z                (* hash on strings *)
}.

(** "Get all documents for BM25 indexing": any exception gives no document. *)
Definition all_documents (env : Pipeline) (collection_name : string) : list (Document F) :=
  try_except
    (collection ← get_collection env collection_name;
     all_docs_result ← get collection None;
     match all_docs_result with
     | Some result =>
         match g_documents result with
         | Some ((_ :: _) as docs) =>
             for_each (fun acc '(i, doc) =>
                         metadata ← match g_metadatas result with
                                    | Some ((_ :: _) as ms) => index ms i
                                    | _ => Ok ∅
                                    end;
                         Ok (acc ++ [mkDocument doc metadata]))
                      (enumerate docs) []
         | _ => Ok []
         end
     | None => Ok []
     end)
    [].

(** [[{'document': doc, 'score': doc.metadata.get('relevance_score', 0.5),
      'rank': i + 1} for i, doc in enumerate(semantic_docs)]] *)
Definition semantic_results (semantic_docs : list (Document F)) : list (Result F) :=
  map (fun '(i, doc) =>
         mkResult doc
                  (Some (default (VFloat reranker.half) (metadata doc !! "relevance_score")))
                  (Some (VInt (i + 1))))
      (enumerate semantic_docs).

(** "Step 3: Hybrid retrieval": the [try] block. *)
Definition hybrid_retrieval (env : Pipeline) (self : DocumentStore) (query : string)
    (collection_name : string) (filters : option (gmap string filter_value))
    : res (list (Document F)) :=
  let all_documents := all_documents env collection_name in
  bm25_results ←
    match all_documents with
    | [] => Ok []
    | _ :: _ =>
        let bm25 := bm25_index.__init__ (BM25_K1 env) (BM25_B env) in
        let '(outcome, bm25) := bm25_index.index_documents (BM25Okapi env) bm25 all_documents in
        _ ← outcome;
        bm25_retriever.search (argsort env) bm25 query (HYBRID_TOP_K env)
    end;
  semantic_docs ← search_documents self query collection_name filters (HYBRID_TOP_K env) 0;
  let semantic_results := semantic_results semantic_docs in
  fused_results ←
    match bm25_results, semantic_results with
    | _ :: _, _ :: _ =>
        bm25_retriever.reciprocal_rank_fusion (hash env) [bm25_results; semantic_results] 60
    | _ :: _, [] => Ok bm25_results
    | [], _ => Ok semantic_results
    end;
  Ok (map document (slice_to (HYBRID_TOP_K env) fused_results)).

(** "Step 1: Check semantic cache": an exception gives no cached result. *)
Definition semantic_cache_check (env : Pipeline) (query : string) (use_cache : bool)
    : option (list (Document F)) :=
  if ENABLE_SEMANTIC_CACHE env && use_cache then
    match new_semantic_cache env with
    | Ok cache_client => semantic_cache_store.get cache_client query None
    | Raise _ => None
    end
  else None.

(** "Step 2: Query rewriting": an exception keeps the query. *)
Definition query_rewriting (env : Pipeline) (query : string) : string :=
  if QUERY_REWRITE_ENABLED env then
    match rewriter ← new_query_rewriter env;
          query_rewriter.rewrite_if_needed rewriter query 20 with
    | Ok rewritten => rewritten
    | Raise _ => query
    end
  else query.

(** "Step 4: Reranking" *)
Definition reranking (env : Pipeline) (query : string) (candidate_docs : list (Document F))
    (top_k : Z) : list (Document F) :=
  if RERANK_ENABLED env && bool_decide (candidate_docs <> []) then
    match new_reranker env with
    | Ok reranker =>
        map document (reranker.rerank reranker query candidate_docs (RERANK_TOP_K env))
    | Raise _ => slice_to (RERANK_TOP_K env) candidate_docs
    end
  else slice_to top_k candidate_docs.

(** "Step 5: Contextual compression" *)
Definition contextual_compression (env : Pipeline) (query : string)
    (candidate_docs : list (Document F)) : list (Document F) :=
  if CONTEXTUAL_COMPRESSION_ENABLED env && bool_decide (candidate_docs <> []) then
    match new_context_compressor env with
    | Ok compressor => context_compressor.compress compressor query candidate_docs
    | Raise _ => candidate_docs
    end
  else candidate_docs.

(** [DocumentStore.advanced_rag_search(query, collection_name, filters,
    top_k, use_cache)].  The write to the semantic cache at the end acts on
    the Redis store only and is left out. *)
Definition advanced_rag_search (env : Pipeline) (self : DocumentStore) (query : string)
    (collection_name : string) (filters : option (gmap string filter_value))
    (top_k : Z) (use_cache : bool) : res (list (Document F)) :=
  match semantic_cache_check env query use_cache with
  | Some ((_ :: _) as cached_result) => Ok cached_result
  | _ =>
      let query := query_rewriting env query in
      candidate_docs ←
        match hybrid_retrieval env self query collection_name filters with
        | Ok candidate_docs => Ok candidate_docs
        | Raise _ =>
            (* "Falling back to semantic only" *)
            search_documents self query collection_name filters (HYBRID_TOP_K env) 0
        end;
      let candidate_docs := reranking env query candidate_docs top_k in
      let final_docs := contextual_compression env query candidate_docs in
      Ok final_docs
  end.

End WithFloat.
End rag_pipeline.

(** ** Vocabulary of the statements *)

(** Every character of [s] satisfies [p]. *)
Definition all_chars (p : string -> bool) (s : string) : bool := forallb p (chars s).

(** A run of continuation bytes. *)
Fixpoint continuation_run (s : string) : bool :=
  match s with
  | EmptyString => true
  | String b s' => is_continuation b && continuation_run s'
  end.

(** A character as [chars] cuts it: a byte, then continuation bytes. *)
Definition is_char (c : string) : Prop :=
  match c with
  | EmptyString => False
  | String _ r => continuation_run r = true
  end.

(** A character that starts with a byte of its own, and a string that starts
    with such a character or is empty. *)
Definition headed (c : string) : Prop :=
  match c with
  | EmptyString => False
  | String b _ => is_continuation b = false
  end.

Definition starts_char (t : string) : Prop :=
  match t with
  | EmptyString => True
  | String b _ => is_continuation b = false
  end.

(** Every byte of [s] satisfies [p]. *)
Fixpoint all_bytes (p : ascii -> bool) (s : string) : bool :=
  match s with
  | EmptyString => true
  | String c s' => p c && all_bytes p s'
  end.


(** [a] stands before [b] in [l]. *)
Definition before {A} (a b : A) (l : list A) : Prop :=
  exists l1 l2 l3, l = l1 ++ a :: l2 ++ b :: l3.

Section FusionVocabulary.
Context {F : Type} `{PyFloat F}.

(** The dictionary key of a result: [hash(doc.page_content)]. *)
Definition key_of (hash : string -> Z) (e : Result F) : Z :=
  hash (page_content (document e)).

(** A result as the ranking stages build it: its rank is an int [r], and
    [k + r] is neither zero nor too large for a float. *)
Definition ranked (k : Z) (e : Result F) : Prop :=
  exists r : Z, rank e = Some (VInt r) /\ k + r <> 0 /\ int_fits (k + r) = true.

Definition rank_value (e : Result F) : Z :=
  match rank e with
  | Some (VInt r) => r
  | _ => 1
  end.

(** [1 / (k + r)] *)
Definition rrf_term (k r : Z) : F := fdiv (of_int 1) (of_int (k + r)).

(** [t1 + t2 + ... + tn], added in the order written; no value for no term. *)
Definition fsum (ts : list F) : option F :=
  match ts with
  | [] => None
  | t :: ts' => Some (fold_left fadd ts' t)
  end.

(** The results of the input lists, in order, whose document is keyed [key]. *)
Definition occurrences (hash : string -> Z) (key : Z)
    (results_list : list (list (Result F))) : list (Result F) :=
  filter (fun e => key_of hash e = key) (concat results_list).

(** [Σ 1/(k + rank)] over the occurrences of the document keyed [key]. *)
Definition expected_score (hash : string -> Z) (k : Z) (key : Z)
    (results_list : list (list (Result F))) : option F :=
  fsum (map (fun e => rrf_term k (rank_value e)) (occurrences hash key results_list)).

(** Where the document keyed [key] is first seen when the input lists are
    read in order, and the result met there. *)
Definition first_seen (hash : string -> Z) (key : Z)
    (results_list : list (list (Result F))) : option (nat * Result F) :=
  list_find (fun e => key_of hash e = key) (concat results_list).

(** The score a result carries, when it is a float. *)
Definition score_of (e : Result F) : option F :=
  match score e with
  | Some (VFloat s) => Some s
  | _ => None
  end.

(** What holds of [(doc_scores, doc_objects)] once the results [es] have
    been read: same keys in both, each once; the score of a key is the sum
    of its terms; its document is the first one seen; keys stand in the
    order in which they were first seen. *)
Definition fuse_inv (hash : string -> Z) (k : Z) (es : list (Result F))
    (st : dict F * dict (Document F)) : Prop :=
  map fst st.1 = map fst st.2 /\
  NoDup (map fst st.1) /\
  (forall key, dict_get st.1 key
               = fsum (map (fun e => rrf_term k (rank_value e))
                           (filter (fun e => key_of hash e = key) es))) /\
  (forall key, dict_get st.2 key
               = (fun '(_, e) => document e)
                   <$> list_find (fun e => key_of hash e = key) es) /\
  (forall ka kb, before ka kb (map fst st.1) ->
     exists ia ea ib eb,
       list_find (fun e => key_of hash e = ka) es = Some (ia, ea) /\
       list_find (fun e => key_of hash e = kb) es = Some (ib, eb) /\
       (ia < ib)%nat).

End FusionVocabulary.

Section RetrievalVocabulary.
Context {F : Type} `{PyFloat F}.
Import document_store.

(** The [relevance_score] a document carries, when it is a float. *)
Definition relevance_score_of (doc : Document F) : option F :=
  match metadata doc !! "relevance_score" with
  | Some (VFloat s) => Some s
  | _ => None
  end.

End RetrievalVocabulary.

(** A key that orders the binary64 values other than NaN as the IEEE
    comparison does: by sign class, then exponent, then mantissa. *)
Definition SFkey (f : spec_float) : Z * Z * Z :=
  match f with
  | S754_nan => (0, 0, 0)
  | S754_infinity true => (-2, 0, 0)
  | S754_infinity false => (2, 0, 0)
  | S754_zero _ => (0, 0, 0)
  | S754_finite true m e => (-1, - e, - Zpos m)
  | S754_finite false m e => (1, e, Zpos m)
  end.

Definition lex_lt (a b : Z * Z * Z) : Prop :=
  let '(a1, a2, a3) := a in
  let '(b1, b2, b3) := b in
  a1 < b1 \/ (a1 = b1 /\ (a2 < b2 \/ (a2 = b2 /\ a3 < b3))).

Definition SFis_nan (f : spec_float) : bool :=
  match f with
  | S754_nan => true
  | _ => false
  end.

(** A binary64 value other than NaN. *)
Definition not_nan (x : float) : Prop := PrimFloat.is_nan x = false.

Section MoreVocabulary.
Context {F : Type} `{PyFloat F}.
Import document_store.

(** What holds of [all_docs] while the two loops of "Combine results" run:
    keys are content hashes, each once; a document filed under a key that a
    semantic result has is a semantic result. *)
Definition combine_inv (hash : string -> Z) (semantic_results keyword_docs : list (Document F))
    (all_docs : dict (Document F)) : Prop :=
  NoDup (map fst all_docs) /\
  (forall key doc, (key, doc) ∈ all_docs -> key = hash (page_content doc)) /\
  (forall key doc, (key, doc) ∈ all_docs ->
     doc ∈ semantic_results \/
     (doc ∈ keyword_docs /\
      forall s, s ∈ semantic_results -> hash (page_content s) <> key)).

(** A row of per-item values is absent, empty, or covers the documents. *)
Definition row_covers {A} (xs : option (list (list A))) (n : nat) : Prop :=
  forall row rest, xs = Some (row :: rest) -> row = [] \/ (n <= length row)%nat.

(** Whether [search] keeps the document at [idx]: [scores[idx] > 0]. *)
Definition scores_above_zero (scores : list F) (idx : nat) : bool :=
  match scores !! idx with
  | Some s => fltb (of_int 0) s
  | None => false
  end.

End MoreVocabulary.

(** A token as [s.split()] gives them: not empty, no whitespace in it. *)
Definition is_token (t : string) : Prop :=
  t <> EmptyString /\ all_chars (fun c => negb (isspace c)) t = true.

Section CacheVocabulary.
Context {F : Type} `{PyFloat F} {V : Type}.
Import semantic_cache semantic_cache_store.

(** Whether [clear_expired] unlinks a file. *)
Definition stale (current_time : F) (file : file_cache.File (F:=F) (V:=V)) : bool :=
  match file with
  | file_cache.Json (Some expires_at) _ _ => fltb expires_at current_time
  | _ => true
  end.

(** The entry stored under [key] is readable, and its similarity to the
    embedding [q] is [s]. *)
Definition entry_similarity (self : SemanticCache (V:=V)) (redis : Redis)
    (q : list F) (key : string) (entry : Entry (V:=V)) (s : F) : Prop :=
  exists data, redis_get redis key = Ok (Some data) /\ data <> EmptyString /\
               loads self data = Ok entry /\
               _cosine_similarity q (embedding entry) = Ok s.

(** What holds of [(best_similarity, best_result)] once the keys [done]
    have been read. *)
Definition scan_inv (self : SemanticCache (V:=V)) (redis : Redis) (q : list F) (thr : F)
    (done : list string) (st : F * option V) : Prop :=
  (st.1 = of_int 0 /\ st.2 = None \/ fltb (of_int 0) st.1 = true) /\
  forall v, st.2 = Some v ->
    exists key entry s,
      key ∈ done /\ entry_similarity self redis q key entry s /\
      result entry = Some (Some v) /\ fleb thr s = true /\ fltb (of_int 0) s = true.

(** With every readable entry holding a result, [best_similarity] is the
    similarity of the entry that gave [best_result], and no entry read so
    far that reaches the threshold has a greater one. *)
Definition best_inv (self : SemanticCache (V:=V)) (redis : Redis) (q : list F) (thr : F)
    (done : list string) (st : F * option V) : Prop :=
  (forall v, st.2 = Some v ->
     exists key entry,
       key ∈ done /\ entry_similarity self redis q key entry st.1 /\
       result entry = Some (Some v)) /\
  (forall key entry s,
     key ∈ done -> entry_similarity self redis q key entry s -> fleb thr s = true ->
     fltb st.1 s = false).

End CacheVocabulary.

(** ** Sample inputs

    Concrete services and documents on which the theorems of Part II are
    instantiated, all over [binary64] unless said otherwise. *)

Module samples.

(** The Unicode tables of the samples.  No sample holds a code point above
    U+00FF, so what the tables say there is never read. *)
Definition latin1_only : Unicode :=
  {| unicode_isalnum := fun _ => false;
     unicode_lower := fun cs i => default EmptyString (cs !! i) |}.

(** A text-generation service that always times out. *)
Definition failing_chat (_ : ChatRequest float) : res ChatResponse :=
  Raise (Exn OtherException "Request timed out.").

Definition failing_rewriter : query_rewriter.QueryRewriter :=
  {| query_rewriter.client := Some failing_chat;
     query_rewriter.model := "gpt-3.5-turbo";
     query_rewriter.max_tokens := 100 |}.

Definition failing_compressor : context_compressor.ContextCompressor :=
  {| context_compressor.client := Some failing_chat;
     context_compressor.model := "gpt-3.5-turbo";
     context_compressor.max_tokens := 500 |}.

(** [n] copies of the letter [a]. *)
Fixpoint letters (n : nat) : string :=
  match n with
  | O => EmptyString
  | S n' => String "a"%char (letters n')
  end.

(** A stand-in for Python's [hash] on strings; it tells apart contents of
    different lengths, which is all the samples need. *)
Definition sample_hash (s : string) : Z := Z.of_nat (String.length s).

(** Two ranked lists as the BM25 and the vector retriever hand them to the
    fusion: ranks count from 1 in each list. *)
Definition ranked_result (content : string) (r : Z) : Result float :=
  mkResult (mkDocument content ∅) (Some (VFloat 0.5%float)) (Some (VInt r)).

Definition keyword_list : list (Result float) :=
  [ranked_result "a" 1; ranked_result "bb" 2].
Definition vector_list : list (Result float) :=
  [ranked_result "bb" 1; ranked_result "ccc" 2].
Definition disjoint_list : list (Result float) :=
  [ranked_result "ccc" 1; ranked_result "dddd" 2].

(** A remote rerank service that prefers the second document, and a
    reranker that uses it. *)
Definition remote_rerank (_ _ : string) (_ : list string) (_ : Z)
    : res (list (reranker.RerankItem (F:=float))) :=
  Ok [ {| reranker.item_index := 1; reranker.relevance_score := 0.875%float |};
       {| reranker.item_index := 0; reranker.relevance_score := 0.75%float |} ].

Definition remote_reranker : reranker.Reranker :=
  {| reranker.use_local := false;
     reranker.cohere_client := Some remote_rerank;
     reranker.cross_encoder := None;
     reranker.cohere_model := "rerank-english-v3.0" |}.

Definition three_docs : list (Document float) :=
  [mkDocument "Python loops and functions" ∅;
   mkDocument "Variables in Python" ∅;
   mkDocument "JavaScript closures" ∅].

(** An argsort for the samples: the indices of [scores], ascending in the
    score, by insertion. *)
Fixpoint argsort_insert (scores : list float) (i : nat) (sorted : list nat) : list nat :=
  match sorted with
  | [] => [i]
  | j :: sorted' =>
      if PrimFloat.ltb (nth i scores 0%float) (nth j scores 0%float)
      then i :: sorted
      else j :: argsort_insert scores i sorted'
  end.

Definition sample_argsort (scores : list float) : list nat :=
  fold_right (argsort_insert scores) [] (seq 0 (length scores)).

(** A keyword index over [three_docs] that scores the two Python documents
    and gives the third nothing. *)
Definition sample_retriever : bm25_retriever.BM25Retriever :=
  {| bm25_retriever.k1 := 1.5%float;
     bm25_retriever.b := 0.75%float;
     bm25_retriever.bm25 := Some (fun _ => [0.5%float; 0.75%float; 0%float]);
     bm25_retriever.documents := three_docs;
     bm25_retriever.tokenized_corpus :=
       [["python"; "loops"; "and"; "functions"]; ["variables"; "in"; "python"];
        ["javascript"; "closures"]]%string |}.

(** A storage engine that holds [three_docs] and answers every query with
    the two Python documents at the given distances; no schema error, no
    cache entry. *)
Definition sample_collection (distances : list float) : document_store.Collection :=
  {| document_store.add := fun _ => Ok ();
     document_store.query := fun _ _ _ _ =>
       Ok (Some {| document_store.q_documents :=
                     Some [["Python loops and functions"; "Variables in Python"]%string];
                   document_store.q_metadatas := Some [[∅; ∅]];
                   document_store.q_distances := Some [distances] |});
     document_store.get := fun _ =>
       Ok (Some {| document_store.g_documents :=
                     Some ["Python loops and functions"; "Variables in Python";
                           "JavaScript closures"]%string;
                   document_store.g_metadatas := Some [∅; ∅; ∅] |}) |}.

Definition sample_sqlite : document_store.Sqlite :=
  {| document_store.db_file_exists := true;
     document_store.connect := Ok ();
     document_store.execute := fun _ => Ok ();
     document_store.commit := Ok () |}.

Definition sample_store (distances : list float) : document_store.DocumentStore :=
  {| document_store.get_or_create_collection := fun _ _ => Ok (sample_collection distances);
     document_store.sqlite := sample_sqlite;
     document_store.cache_get := fun _ => None |}.

(** A document of 400 characters (100 estimated tokens) and a short one. *)
Definition long_doc : Document float := mkDocument (letters 400) ∅.
Definition short_doc : Document float := mkDocument "Variables in Python" ∅.

End samples.

(** The closed lemmas on the samples read strings with the tables of the
    samples; every section that states a property of the code takes the
    tables as its own [Context]. *)
#[global] Existing Instance samples.latin1_only.

(** ** More sample inputs *)

Module more_samples.

(** A reranker with a local cross-encoder that prefers the second document,
    and one whose cross-encoder raises. *)
Definition local_reranker : reranker.Reranker :=
  {| reranker.use_local := true;
     reranker.cohere_client := None;
     reranker.cross_encoder := Some (fun _ => Ok [0.25%float; 0.75%float; 0.5%float]);
     reranker.cohere_model := "rerank-english-v3.0" |}.

Definition raising_reranker : reranker.Reranker (F:=float) :=
  {| reranker.use_local := true;
     reranker.cohere_client := None;
     reranker.cross_encoder :=
       Some (fun _ => Raise (Exn OtherException "CUDA out of memory"));
     reranker.cohere_model := "rerank-english-v3.0" |}.

(** A text-generation service that answers every request with one line. *)
Definition answering_chat (_ : ChatRequest float) : res ChatResponse :=
  Ok [Some "Loops repeat a block."%string].

Definition answering_compressor : context_compressor.ContextCompressor :=
  {| context_compressor.client := Some answering_chat;
     context_compressor.model := "gpt-3.5-turbo";
     context_compressor.max_tokens := 500 |}.

(** The global cache of [utils/cache.py], holding strings: every path can
    be written, every string is JSON-serializable and read back as it is. *)
Definition string_cache : file_cache.FileCache (V:=string) :=
  {| file_cache.default_ttl := 86400;
     file_cache.encode := Some;
     file_cache.writable := fun _ => true |}.


(** A Redis holding two entries of the semantic cache, and a cache over it
    whose embedding service maps every text to [[1; 0]].  The first entry
    lies in the same direction as the query, the second at a right angle. *)
Definition sample_redis : semantic_cache_store.Redis :=
  {| semantic_cache_store.scan_iter :=
       (["semantic_cache:aa"; "semantic_cache:bb"]%string, None);
     semantic_cache_store.redis_get := fun key =>
       Ok (if bool_decide (key = "semantic_cache:aa"%string) then Some "near"%string
           else if bool_decide (key = "semantic_cache:bb"%string) then Some "far"%string
           else None) |}.

Definition sample_loads (data : string)
    : res (semantic_cache_store.Entry (F:=float) (V:=string)) :=
  if bool_decide (data = "near"%string) then
    Ok {| semantic_cache_store.embedding := [2%float; 0%float];
          semantic_cache_store.result := Some (Some "cached answer"%string) |}
  else if bool_decide (data = "far"%string) then
    Ok {| semantic_cache_store.embedding := [0%float; 1%float];
          semantic_cache_store.result := Some (Some "other answer"%string) |}
  else Raise (Exn OtherException "Expecting value").

Definition sample_semantic_cache : semantic_cache_store.SemanticCache :=
  {| semantic_cache_store.enabled := true;
     semantic_cache_store.redis_client := Some sample_redis;
     semantic_cache_store.openai_client := Some (fun _ => Ok [1%float; 0%float]);
     semantic_cache_store.similarity_threshold := 0.9375%float;
     semantic_cache_store.ttl := 3600;
     semantic_cache_store.loads := sample_loads |}.

Definition answering_rewriter : query_rewriter.QueryRewriter :=
  {| query_rewriter.client := Some answering_chat;
     query_rewriter.model := "gpt-3.5-turbo";
     query_rewriter.max_tokens := 100 |}.

(** The pipeline in a process without Redis and without API keys, every
    optional stage switched off: the constructors of the stages raise. *)
Definition plain_pipeline : rag_pipeline.Pipeline :=
  {| rag_pipeline.ENABLE_SEMANTIC_CACHE := false;
     rag_pipeline.QUERY_REWRITE_ENABLED := false;
     rag_pipeline.RERANK_ENABLED := false;
     rag_pipeline.CONTEXTUAL_COMPRESSION_ENABLED := false;
     rag_pipeline.HYBRID_TOP_K := 20;
     rag_pipeline.RERANK_TOP_K := 5;
     rag_pipeline.BM25_K1 := 1.5%float;
     rag_pipeline.BM25_B := 0.75%float;
     rag_pipeline.new_semantic_cache := Raise (Exn OtherException "Connection refused");
     rag_pipeline.new_query_rewriter := Raise (Exn OtherException "OPENAI_API_KEY not set");
     rag_pipeline.new_reranker := Raise (Exn OtherException "COHERE_API_KEY not set");
     rag_pipeline.new_context_compressor :=
       Raise (Exn OtherException "OPENAI_API_KEY not set");
     rag_pipeline.get_collection := fun _ => Ok (samples.sample_collection [0.5%float; 1%float]);
     rag_pipeline.BM25Okapi := fun _ _ _ => Ok (fun _ => [0.5%float; 0.75%float; 0%float]);
     rag_pipeline.argsort := samples.sample_argsort;
     rag_pipeline.hash := samples.sample_hash |}.

End more_samples.

(* ===================================================================== *)
(** * Part II.  Lemmas and theorems                                       *)
(* ===================================================================== *)

(** ** The error monad *)

Lemma bind_Ok {A B} (m : res A) (f : A -> res B) (b : B) :
  m ≫= f = Ok b -> exists a, m = Ok a /\ f a = Ok b.
Proof. destruct m as [a|e]; simpl; [eauto | discriminate]. Qed.

Lemma try_except_Raise {A} (e : exn) (handler : A) :
  try_except (Raise e) handler = handler.
Proof. reflexivity. Qed.

(** ** Query rewriter *)

Section QueryRewriterFacts.
Context {F : Type} `{PyFloat F} {U : Unicode}.
Import query_rewriter.

(** [rewrite] has no path that raises. *)
Lemma rewrite_never_raises (self : QueryRewriter) (query : string) :
  exists s, rewrite self query = Ok s.
Proof.
  unfold rewrite. destruct (client self); [|eauto].
  destruct (50 <? _); eauto.
Qed.

(** C8.  If the text-generation call that [QueryRewriter.rewrite] makes for
    [query] raises, whatever the exception, [rewrite] returns [query] itself
    and does not raise. *)
Theorem rewrite_generation_failure (self : QueryRewriter) (query : string)
    (create : ChatRequest F -> res ChatResponse) (e : exn) :
  client self = Some create ->
  create (rewrite_request self query) = Raise e ->
  rewrite self query = Ok query.
Proof.
  intros Hclient Hfail. unfold rewrite. rewrite Hclient.
  destruct (50 <? _); [reflexivity|].
  rewrite Hfail. reflexivity.
Qed.

(** A response without choices, or whose content is [None], is handled the
    same way. *)
Lemma rewrite_malformed_response (self : QueryRewriter) (query : string)
    (create : ChatRequest F -> res ChatResponse) (response : ChatResponse) :
  client self = Some create ->
  create (rewrite_request self query) = Ok response ->
  response = [] \/ (exists rest, response = None :: rest) ->
  rewrite self query = Ok query.
Proof.
  intros Hclient Hresp Hbad. unfold rewrite. rewrite Hclient.
  destruct (50 <? _); [reflexivity|].
  rewrite Hresp. destruct Hbad as [->|[rest ->]]; reflexivity.
Qed.

End QueryRewriterFacts.

Lemma rewrite_generation_failure_witness :
  query_rewriter.rewrite samples.failing_rewriter "ML" = Ok "ML"%string.
Proof.
  apply (rewrite_generation_failure samples.failing_rewriter "ML" samples.failing_chat
           (Exn OtherException "Request timed out.")); reflexivity.
Defined.

(** ** Context compressor *)

Lemma fold_left_append_map {A B} (f : A -> B) (l : list A) (acc : list B) :
  fold_left (fun acc x => acc ++ [f x]) l acc = acc ++ map f l.
Proof.
  revert acc. induction l as [|x l IH]; intros acc; simpl.
  - by rewrite app_nil_r.
  - rewrite IH. by rewrite <- app_assoc.
Qed.

Section ContextCompressorFacts.
Context {F : Type} `{PyFloat F} {U : Unicode}.
Import context_compressor.

(** With a client and a non-empty input, [compress] is [compress_doc]
    applied to each document in turn. *)
Lemma compress_map (self : ContextCompressor) (query : string)
    (documents : list (Document F)) :
  compress self query documents =
  match client self with
  | None => documents
  | Some _ => map (compress_doc self query) documents
  end.
Proof.
  unfold compress. destruct (client self); [|reflexivity].
  destruct documents as [|d l]; [reflexivity|].
  by rewrite fold_left_append_map.
Qed.

Lemma compress_single_cases (self : ContextCompressor) (query content : string) :
  _compress_single self query content = content \/
  exists create response text,
    client self = Some create /\
    create (compress_request self query content) = Ok response /\
    response !! 0%nat = Some (Some text) /\
    (50 <= len (strip text))%nat /\
    _compress_single self query content = strip text.
Proof.
  unfold _compress_single.
  destruct (client self) as [create|] eqn:Hc; simpl; [|by left].
  destruct (create _) as [response|e] eqn:Hr; simpl; [|by left].
  destruct response as [|[text|] rest]; simpl; try by left.
  destruct (Z.of_nat (len (strip text)) <? 50) eqn:Hlen; simpl; [by left|].
  right. exists create, (Some text :: rest), text.
  repeat split; try done. apply Z.ltb_ge in Hlen. lia.
Qed.

Lemma compress_single_failure (self : ContextCompressor) (query content : string)
    (create : ChatRequest F -> res ChatResponse) (e : exn) :
  client self = Some create ->
  create (compress_request self query content) = Raise e ->
  _compress_single self query content = content.
Proof. intros Hc Hr. unfold _compress_single. rewrite Hc. simpl. by rewrite Hr. Qed.

(** C10 (amended).  [compress] returns as many documents as it is given, in
    the same order: the [i]-th output comes from the [i]-th input.  A document
    of fewer than 100 estimated tokens is returned as it is.  The content of
    any other output document is the original content or the stripped answer
    of the service (of at least 50 characters), and it is the original content
    whenever the compression call raises. *)
Theorem compress_preserves_documents (self : ContextCompressor) (query : string)
    (documents : list (Document F)) :
  length (compress self query documents) = length documents /\
  forall (i : nat) (doc : Document F),
    documents !! i = Some doc ->
    exists doc',
      compress self query documents !! i = Some doc' /\
      (Z.of_nat (len (page_content doc)) / 4 < 100 -> doc' = doc) /\
      (page_content doc' = page_content doc \/
       exists create response text,
         client self = Some create /\
         create (compress_request self query (page_content doc)) = Ok response /\
         response !! 0%nat = Some (Some text) /\
         (50 <= len (strip text))%nat /\
         page_content doc' = strip text) /\
      (forall create e,
         client self = Some create ->
         create (compress_request self query (page_content doc)) = Raise e ->
         page_content doc' = page_content doc).
Proof.
  rewrite compress_map. destruct (client self) as [create|] eqn:Hc.
  - split; [by rewrite length_map|].
    intros i doc Hi. exists (compress_doc self query doc).
    split; [by rewrite list_lookup_fmap, Hi|].
    unfold compress_doc.
    destruct (_ <? 100) eqn:Hshort.
    + repeat split; auto.
    + apply Z.ltb_ge in Hshort. simpl. split; [lia|]. split.
      * destruct (compress_single_cases self query (page_content doc)) as [->|Hex];
          [by left|].
        destruct Hex as (c & r & t & Hc' & ? & ? & ? & ?). right. exists c, r, t.
        repeat split; try done. congruence.
      * intros c e Hc' Hr. eapply compress_single_failure; [|exact Hr]. congruence.
  - split; [done|]. intros i doc Hi. exists doc. repeat split; auto.
Qed.

End ContextCompressorFacts.

Lemma compress_preserves_documents_witness :
  length (context_compressor.compress samples.failing_compressor "python"
            [samples.short_doc; samples.long_doc]) = 2%nat /\
  exists doc',
    context_compressor.compress samples.failing_compressor "python"
      [samples.short_doc; samples.long_doc] !! 1%nat = Some doc' /\
    page_content doc' = page_content samples.long_doc.
Proof.
  destruct (compress_preserves_documents samples.failing_compressor "python"
              [samples.short_doc; samples.long_doc]) as [Hlen Hat].
  split; [exact Hlen|].
  destruct (Hat 1%nat samples.long_doc eq_refl) as (doc' & Hdoc' & _ & _ & Hfail).
  exists doc'. split; [exact Hdoc'|].
  apply (Hfail samples.failing_chat (Exn OtherException "Request timed out."));
    reflexivity.
Defined.

(** C10, as stated, fails: the compression call for [long_doc] raises, and
    the document returned for it is not [long_doc] (it carries the three
    annotation keys, ['compressed': True] among them). *)
Lemma compress_failure_not_unchanged :
  samples.failing_chat
    (context_compressor.compress_request samples.failing_compressor "python"
       (page_content samples.long_doc))
  = Raise (Exn OtherException "Request timed out.") /\
  context_compressor.compress samples.failing_compressor "python" [samples.long_doc]
  <> [samples.long_doc].
Proof.
  split; [reflexivity|]. intros Heq.
  apply (f_equal (fun l => match l with
                           | [d] => metadata d !! "compressed"
                           | _ => None
                           end)) in Heq.
  vm_compute in Heq. discriminate Heq.
Qed.

(** ** Document ids *)

Lemma all_bytes_app (p : ascii -> bool) (s t : string) :
  all_bytes p (s +:+ t) = all_bytes p s && all_bytes p t.
Proof.
  induction s as [|c s IH]; simpl; [done|]. rewrite IH. by rewrite andb_assoc.
Qed.






Section DocumentIds.
Context {F : Type} `{PyFloat F} {U : Unicode}.
Import document_store.


Lemma for_each_unit_Ok {X} (body : X -> res unit) (xs : list X) :
  (forall x, body x = Ok ()) -> for_each (fun _ x => body x) xs () = Ok ().
Proof. intros Hbody. induction xs as [|x xs IH]; simpl; [done|]. by rewrite Hbody. Qed.

(** Whatever [add_documents] returns is the list of the positional ids. *)
Lemma add_documents_ids (hash : string -> Z) (self : DocumentStore)
    (docs : list (Document F)) (name : string) (ids : list string) :
  add_documents hash self docs name = Ok ids ->
  ids = map (fun '(i, doc) => batch_id hash i doc) (enumerate docs).
Proof.
  unfold add_documents. destruct docs as [|d docs]; [by intros [= <-]|].
  intros Hrun. apply bind_Ok in Hrun as (collection & _ & Hrun).
  apply bind_Ok in Hrun as (? & _ & Hrun). by injection Hrun as <-.
Qed.



End DocumentIds.


(** The ids [add_documents] gives to the same content at positions 0 and 1. *)
Lemma add_documents_duplicate_sample :
  document_store.add_documents samples.sample_hash (samples.sample_store [])
    [samples.short_doc; samples.short_doc] "learning_resources"
  = Ok ["doc_0_19"; "doc_1_19"]%string.
Proof. reflexivity. Qed.


(** ** Dictionaries *)

Section DictFacts.
Context {V : Type}.
Implicit Types (d : dict V) (k : Z) (v : V).

Lemma dict_get_set_eq d k v : dict_get (dict_set d k v) k = Some v.
Proof.
  induction d as [|[k' v'] d IH]; simpl.
  - by rewrite Z.eqb_refl.
  - destruct (k' =? k) eqn:E; simpl; rewrite E; [done|exact IH].
Qed.

Lemma dict_get_set_ne d k k' v : k' <> k -> dict_get (dict_set d k v) k' = dict_get d k'.
Proof.
  intros Hne. induction d as [|[k0 v0] d IH]; simpl.
  - destruct (k =? k') eqn:E; [apply Z.eqb_eq in E; congruence|done].
  - destruct (k0 =? k) eqn:E; simpl.
    + apply Z.eqb_eq in E. subst k0.
      destruct (k =? k') eqn:E'; [apply Z.eqb_eq in E'; congruence|done].
    + by rewrite IH.
Qed.

Lemma dict_get_None d k : dict_get d k = None <-> k ∉ map fst d.
Proof.
  induction d as [|[k' v'] d IH]; simpl.
  - split; [intros _; apply not_elem_of_nil|done].
  - rewrite not_elem_of_cons. destruct (k' =? k) eqn:E.
    + apply Z.eqb_eq in E. split; [done|]. intros [? _]. congruence.
    + apply Z.eqb_neq in E. rewrite IH. split; [intros ?; split; congruence|tauto].
Qed.

Lemma dict_get_Some_elem d k v : dict_get d k = Some v -> (k, v) ∈ d.
Proof.
  induction d as [|[k' v'] d IH]; simpl; [done|].
  destruct (k' =? k) eqn:E.
  - apply Z.eqb_eq in E. intros [= ->]. subst. apply list_elem_of_here.
  - intros Hd. apply list_elem_of_further. by apply IH.
Qed.

Lemma dict_get_elem d k v : NoDup (map fst d) -> (k, v) ∈ d -> dict_get d k = Some v.
Proof.
  induction d as [|[k' v'] d IH]; simpl; intros Hnd Hin.
  - by apply elem_of_nil in Hin.
  - apply NoDup_cons in Hnd as [Hk' Hnd]. apply elem_of_cons in Hin as [Heq|Hin].
    + inversion Heq; subst. by rewrite Z.eqb_refl.
    + destruct (k' =? k) eqn:E; [|by apply IH].
      apply Z.eqb_eq in E. subst k'. exfalso. apply Hk'.
      apply list_elem_of_fmap. by exists (k, v).
Qed.

(** [d[k] = v] on a present key changes no key, on an absent key appends. *)
Lemma dict_set_present d k v v0 :
  dict_get d k = Some v0 ->
  exists d1 d2, d = d1 ++ (k, v0) :: d2 /\ dict_set d k v = d1 ++ (k, v) :: d2 /\
                k ∉ map fst d1.
Proof.
  induction d as [|[k' v'] d IH]; simpl; [done|].
  destruct (k' =? k) eqn:E.
  - apply Z.eqb_eq in E. subst k'. intros [= ->].
    exists [], d. repeat split; try done. apply not_elem_of_nil.
  - intros Hd. destruct (IH Hd) as (d1 & d2 & -> & -> & Hn).
    exists ((k', v') :: d1), d2. repeat split; try done.
    simpl. apply not_elem_of_cons. split; [|done].
    apply Z.eqb_neq in E. congruence.
Qed.

Lemma dict_set_absent d k v : dict_get d k = None -> dict_set d k v = d ++ [(k, v)].
Proof.
  induction d as [|[k' v'] d IH]; simpl; [done|].
  destruct (k' =? k) eqn:E; [done|]. intros Hd. by rewrite IH.
Qed.

Lemma dict_set_keys_present d k v v0 :
  dict_get d k = Some v0 -> map fst (dict_set d k v) = map fst d.
Proof.
  intros Hd. destruct (dict_set_present d k v v0 Hd) as (d1 & d2 & -> & -> & _).
  by rewrite !map_app.
Qed.

End DictFacts.

(** ** Loops *)

Lemma for_each_app {S X} (body : S -> X -> res S) (xs ys : list X) (s : S) :
  for_each body (xs ++ ys) s = for_each body xs s ≫= for_each body ys.
Proof.
  revert s. induction xs as [|x xs IH]; intros s; simpl; [done|].
  destruct (body s x) as [s'|e]; simpl; [apply IH|done].
Qed.

Lemma for_each_concat {S X} (body : S -> X -> res S) (xss : list (list X)) (s : S) :
  for_each (fun st xs => for_each body xs st) xss s = for_each body (concat xss) s.
Proof.
  revert s. induction xss as [|xs xss IH]; intros s; simpl; [done|].
  rewrite for_each_app. destruct (for_each body xs s) as [s'|e]; simpl; [apply IH|done].
Qed.

(** A loop whose body keeps an invariant indexed by the items read so far. *)
Lemma for_each_invariant {S X} (body : S -> X -> res S) (Inv : list X -> S -> Prop)
    (P : X -> Prop) (xs done : list X) (s : S) :
  (forall done s x, Inv done s -> P x ->
      exists s', body s x = Ok s' /\ Inv (done ++ [x]) s') ->
  Forall P xs -> Inv done s ->
  exists s', for_each body xs s = Ok s' /\ Inv (done ++ xs) s'.
Proof.
  intros Hstep. revert done s. induction xs as [|x xs IH]; intros done s HP Hinv; simpl.
  - exists s. by rewrite app_nil_r.
  - apply Forall_cons in HP as [Hx HP].
    destruct (Hstep done s x Hinv Hx) as (s' & -> & Hinv'). simpl.
    destruct (IH (done ++ [x]) s' HP Hinv') as (s'' & -> & Hinv'').
    exists s''. split; [done|]. by rewrite <- app_assoc in Hinv''.
Qed.

(** ** Positions in a list *)

Lemma before_snoc {A} (a b x : A) (l : list A) :
  before a b (l ++ [x]) -> before a b l \/ (b = x /\ a ∈ l).
Proof.
  intros (l1 & l2 & l3 & Heq).
  destruct l3 as [|y l3 _] using rev_ind.
  - right. replace (l1 ++ a :: l2 ++ [b]) with ((l1 ++ a :: l2) ++ [b]) in Heq
      by (by rewrite <- app_assoc).
    apply app_inj_tail in Heq as [-> ->]. split; [done|].
    apply elem_of_app. right. apply list_elem_of_here.
  - left. replace (l1 ++ a :: l2 ++ b :: l3 ++ [y])
      with ((l1 ++ a :: l2 ++ b :: l3) ++ [y]) in Heq
      by (rewrite <- !app_assoc; simpl; by rewrite <- !app_assoc).
    apply app_inj_tail in Heq as [-> _]. by exists l1, l2, l3.
Qed.

Lemma before_lookup {A} (l : list A) (i j : nat) (a b : A) :
  l !! i = Some a -> l !! j = Some b -> (i < j)%nat -> before a b l.
Proof.
  intros Hi Hj Hlt.
  exists (take i l), (take (j - S i) (drop (S i) l)), (drop (S j) l).
  rewrite <- (take_drop_middle l i a Hi) at 1. f_equal. f_equal.
  assert (drop (S i) l !! (j - S i)%nat = Some b) as Hj'.
  { rewrite lookup_drop. rewrite <- Hj. f_equal. lia. }
  rewrite <- (take_drop_middle _ _ _ Hj') at 1. f_equal. f_equal.
  rewrite drop_drop. f_equal. lia.
Qed.

Lemma lookup_before {A} (a b : A) (l : list A) :
  before a b l -> exists i j, l !! i = Some a /\ l !! j = Some b /\ (i < j)%nat.
Proof.
  intros (l1 & l2 & l3 & ->).
  exists (length l1), (length l1 + S (length l2))%nat. repeat split; [| |lia].
  - by rewrite list_lookup_middle.
  - rewrite lookup_app_r by lia.
    replace (length l1 + S (length l2) - length l1)%nat with (S (length l2)) by lia.
    simpl. by rewrite list_lookup_middle.
Qed.

(** ** Reciprocal rank fusion: the accumulation *)

Section FusionAccumulation.
Context {F : Type} `{PyFloat F} {U : Unicode}.
Import bm25_retriever.
Variable hash : string -> Z.
Variable k : Z.

Lemma fsum_snoc (ts : list F) (t : F) :
  fsum (ts ++ [t]) = Some (match fsum ts with Some s => fadd s t | None => t end).
Proof.
  destruct ts as [|t0 ts]; simpl; [done|]. by rewrite fold_left_app.
Qed.

Lemma fsum_None (ts : list F) : fsum ts = None -> ts = [].
Proof. by destruct ts. Qed.

Lemma rrf_score_ranked (e : Result F) :
  ranked k e -> rrf_score k (get_rank e) = Ok (rrf_term k (rank_value e)).
Proof.
  intros (r & Hr & Hnz & Hfit). unfold get_rank, rank_value. rewrite Hr. simpl.
  unfold one_over_int. rewrite Hfit. simpl.
  destruct (k + r =? 0) eqn:E; [apply Z.eqb_eq in E; lia|done].
Qed.

Lemma fuse_inv_empty : fuse_inv hash k [] ([], []).
Proof.
  repeat split; simpl; try done.
  - apply NoDup_nil_2.
  - intros ka kb (l1 & l2 & l3 & Heq). by destruct l1.
Qed.

Lemma list_find_snoc_keep {A} (P : A -> Prop) `{forall x, Decision (P x)}
    (l : list A) (x : A) (r : nat * A) :
  list_find P l = Some r -> list_find P (l ++ [x]) = Some r.
Proof. destruct r as [i y]. intros Hl. apply list_find_app_Some. by left. Qed.

Lemma fuse_step_inv (es : list (Result F)) (st : dict F * dict (Document F))
    (e : Result F) :
  fuse_inv hash k es st -> ranked k e ->
  exists st', fuse_step hash k st e = Ok st' /\ fuse_inv hash k (es ++ [e]) st'.
Proof.
  destruct st as [scores objects].
  intros (Hkeys & Hnd & Hsc & Hob & Hord) Hr. simpl in *.
  unfold fuse_step. rewrite (rrf_score_ranked e Hr). simpl.
  set (key0 := hash (page_content (document e))).
  set (t := rrf_term k (rank_value e)).
  assert (Hfilter : forall key,
    filter (fun e' => key_of hash e' = key) (es ++ [e])
    = filter (fun e' => key_of hash e' = key) es
      ++ (if decide (key0 = key) then [e] else [])).
  { intros key. by rewrite filter_app. }
  destruct (dict_get scores key0) as [s|] eqn:Hget.
  - (* the key is known: its score grows *)
    eexists. split; [reflexivity|].
    assert (Hfind0 : is_Some (list_find (fun e' => key_of hash e' = key0) es)).
    { destruct (dict_get objects key0) as [d|] eqn:Hd.
      - rewrite Hob in Hd. destruct (list_find _ es); [done|discriminate].
      - apply dict_get_None in Hd. rewrite <- Hkeys in Hd.
        apply dict_get_None in Hd. congruence. }
    repeat split; simpl.
    + by rewrite (dict_set_keys_present _ _ _ _ Hget).
    + by rewrite (dict_set_keys_present _ _ _ _ Hget).
    + intros key. rewrite Hfilter, map_app.
      destruct (decide (key0 = key)) as [<-|Hne].
      * rewrite dict_get_set_eq. simpl. rewrite fsum_snoc. fold t.
        by rewrite <- Hsc, Hget.
      * rewrite dict_get_set_ne by done. simpl. by rewrite app_nil_r.
    + intros key. rewrite Hob.
      destruct (list_find (fun e' => key_of hash e' = key) es) as [r|] eqn:Hf.
      * by rewrite (list_find_snoc_keep _ _ _ _ Hf).
      * destruct (decide (key = key0)) as [->|Hne].
        { rewrite Hf in Hfind0. by destruct Hfind0. }
        assert (list_find (fun e' => key_of hash e' = key) (es ++ [e]) = None) as ->; [|done].
        apply list_find_None. apply Forall_app. split; [by apply list_find_None in Hf|].
        apply Forall_singleton. unfold key_of. fold key0. congruence.
    + intros ka kb Hb. rewrite (dict_set_keys_present _ _ _ _ Hget) in Hb.
      destruct (Hord ka kb Hb) as (ia & ea & ib & eb & Ha & Hb' & Hlt).
      exists ia, ea, ib, eb.
      by rewrite (list_find_snoc_keep _ _ _ _ Ha), (list_find_snoc_keep _ _ _ _ Hb').
  - (* a new key: appended to both dictionaries *)
    eexists. split; [reflexivity|].
    assert (Hgeto : dict_get objects key0 = None).
    { apply dict_get_None. rewrite <- Hkeys. by apply dict_get_None. }
    assert (Hnone : list_find (fun e' => key_of hash e' = key0) es = None).
    { specialize (Hob key0). rewrite Hgeto in Hob.
      destruct (list_find _ es); [discriminate|done]. }
    assert (Hnew : list_find (fun e' => key_of hash e' = key0) (es ++ [e])
                   = Some (length es, e)).
    { apply list_find_app_Some. right. split; [lia|]. split; [done|].
      rewrite Nat.sub_diag. simpl. unfold key_of. fold key0.
      by rewrite decide_True. }
    rewrite (dict_set_absent _ _ _ Hget), (dict_set_absent _ _ _ Hgeto).
    repeat split; simpl.
    + rewrite !map_app. by rewrite Hkeys.
    + rewrite map_app. simpl. apply NoDup_app. split; [done|]. split.
      * intros x Hx Hx'. apply list_elem_of_singleton in Hx'. subst x.
        by apply dict_get_None in Hget.
      * apply NoDup_singleton.
    + intros key. rewrite Hfilter, map_app.
      destruct (decide (key0 = key)) as [<-|Hne].
      * rewrite <- (dict_set_absent _ _ _ Hget), dict_get_set_eq.
        simpl. rewrite fsum_snoc. fold t. by rewrite <- Hsc, Hget.
      * rewrite <- (dict_set_absent _ _ _ Hget), dict_get_set_ne by done.
        simpl. by rewrite app_nil_r.
    + intros key. destruct (decide (key0 = key)) as [<-|Hne].
      * rewrite <- (dict_set_absent _ _ _ Hgeto), dict_get_set_eq. by rewrite Hnew.
      * rewrite <- (dict_set_absent _ _ _ Hgeto), dict_get_set_ne by done.
        rewrite Hob.
        destruct (list_find (fun e' => key_of hash e' = key) es) as [r|] eqn:Hf.
        { by rewrite (list_find_snoc_keep _ _ _ _ Hf). }
        assert (list_find (fun e' => key_of hash e' = key) (es ++ [e]) = None) as ->; [|done].
        apply list_find_None. apply Forall_app. split; [by apply list_find_None in Hf|].
        apply Forall_singleton. unfold key_of. fold key0. congruence.
    + intros ka kb Hb. rewrite map_app in Hb. simpl in Hb.
      apply before_snoc in Hb as [Hb|[-> Hin]].
      * destruct (Hord ka kb Hb) as (ia & ea & ib & eb & Ha & Hb' & Hlt).
        exists ia, ea, ib, eb.
        by rewrite (list_find_snoc_keep _ _ _ _ Ha), (list_find_snoc_keep _ _ _ _ Hb').
      * destruct (list_find (fun e' => key_of hash e' = ka) es) as [[ia ea]|] eqn:Hf.
        { exists ia, ea, (length es), e.
          rewrite (list_find_snoc_keep _ _ _ _ Hf), Hnew. repeat split; try done.
          apply list_find_Some in Hf as (Hl & _). by apply lookup_lt_Some in Hl. }
        exfalso. specialize (Hob ka). rewrite Hf in Hob. simpl in Hob.
        apply dict_get_None in Hob. by rewrite <- Hkeys in Hob.
Qed.

(** The two nested loops of [reciprocal_rank_fusion]. *)
Lemma fuse_loops (results_list : list (list (Result F))) :
  Forall (Forall (ranked k)) results_list ->
  exists st,
    for_each (fun st results => for_each (fuse_step hash k) results st)
             results_list ([], []) = Ok st /\
    fuse_inv hash k (concat results_list) st.
Proof.
  intros Hr. rewrite for_each_concat.
  destruct (for_each_invariant (fuse_step hash k) (fuse_inv hash k) (ranked k)
              (concat results_list) [] ([], [])) as (st & Hst & Hinv).
  - intros. by apply fuse_step_inv.
  - by apply Forall_concat.
  - apply fuse_inv_empty.
  - by exists st.
Qed.

End FusionAccumulation.

(** ** The stable descending sort *)

Lemma before_cons {A} (a b x : A) (l : list A) : before a b l -> before a b (x :: l).
Proof. intros (l1 & l2 & l3 & ->). by exists (x :: l1), l2, l3. Qed.

Lemma before_head {A} (x b : A) (l : list A) : b ∈ l -> before x b (x :: l).
Proof.
  intros Hb. apply list_elem_of_split in Hb as (l2 & l3 & ->). by exists [], l2, l3.
Qed.

Lemma before_elem_l {A} (a b : A) (l : list A) : before a b l -> a ∈ l.
Proof. intros (l1 & l2 & l3 & ->). apply elem_of_app. right. apply list_elem_of_here. Qed.

Lemma before_elem_r {A} (a b : A) (l : list A) : before a b l -> b ∈ l.
Proof.
  intros (l1 & l2 & l3 & ->). apply elem_of_app. right. apply list_elem_of_further.
  apply elem_of_app. right. apply list_elem_of_here.
Qed.

(** Where the two elements stand once [x] has been put between [l1] and [l2]. *)
Lemma before_middle {A} (a b x : A) (l1 l2 : list A) :
  before a b (l1 ++ x :: l2) ->
  (a = x /\ b ∈ l2) \/ (b = x /\ a ∈ l1) \/ before a b (l1 ++ l2).
Proof.
  intros Hb. apply lookup_before in Hb as (i & j & Hi & Hj & Hlt).
  destruct (decide (i = length l1)) as [->|Hi'].
  - left. rewrite list_lookup_middle in Hi by done. split; [congruence|].
    rewrite lookup_app_r in Hj by lia.
    destruct (j - length l1)%nat as [|j'] eqn:E; [lia|]. simpl in Hj.
    by eapply list_elem_of_lookup_2.
  - destruct (decide (j = length l1)) as [->|Hj'].
    + right. left. rewrite list_lookup_middle in Hj by done. split; [congruence|].
      rewrite lookup_app_l in Hi by lia. by eapply list_elem_of_lookup_2.
    + right. right.
      assert (forall n y, n <> length l1 -> (l1 ++ x :: l2) !! n = Some y ->
                (l1 ++ l2) !! (if decide (n < length l1)%nat then n else pred n) = Some y)
        as Hshift.
      { intros n y Hn Hl. case_decide.
        - rewrite lookup_app_l in Hl by lia. by rewrite lookup_app_l by lia.
        - rewrite lookup_app_r in Hl by lia. rewrite lookup_app_r by lia.
          destruct (n - length l1)%nat as [|n'] eqn:E; [lia|]. simpl in Hl.
          rewrite <- Hl. f_equal. lia. }
      eapply before_lookup; [apply (Hshift i a Hi' Hi)|apply (Hshift j b Hj' Hj)|].
      repeat case_decide; lia.
Qed.

Section SortingFacts.
Context {F : Type} `{PyFloat F} {U : Unicode} {A : Type} (key : A -> F).

(** [insert_desc] walks past the elements with a greater key and stops at
    the first element whose key is not greater. *)
Lemma insert_desc_split (x : A) (l : list A) :
  exists l1 l2,
    l = l1 ++ l2 /\ insert_desc key x l = l1 ++ x :: l2 /\
    Forall (fun y => fltb (key x) (key y) = true) l1 /\
    (forall y l2', l2 = y :: l2' -> fltb (key x) (key y) = false).
Proof.
  induction l as [|y l IH]; simpl.
  - exists [], []. repeat split; [by apply Forall_nil|done].
  - destruct (fltb (key x) (key y)) eqn:E.
    + destruct IH as (l1 & l2 & -> & -> & Hall & Hhead).
      exists (y :: l1), l2. repeat split; [by apply Forall_cons|done].
    + exists [], (y :: l). repeat split; [by apply Forall_nil|].
      intros y' l2' [= <- <-]. done.
Qed.

Lemma insert_desc_perm (x : A) (l : list A) : Permutation (insert_desc key x l) (x :: l).
Proof.
  destruct (insert_desc_split x l) as (l1 & l2 & -> & -> & _).
  symmetry. apply Permutation_middle.
Qed.

Lemma sorted_desc_perm (l : list A) : Permutation (sorted_desc key l) l.
Proof.
  induction l as [|x l IH]; simpl; [done|].
  rewrite insert_desc_perm. by constructor.
Qed.

Lemma sorted_desc_length (l : list A) : length (sorted_desc key l) = length l.
Proof. by rewrite sorted_desc_perm. Qed.

Lemma sorted_desc_elem (x : A) (l : list A) : x ∈ sorted_desc key l <-> x ∈ l.
Proof. by rewrite sorted_desc_perm. Qed.

(** Stability: when [a] stands before [b] in the sorted list although the
    key of [b] is not smaller than the key of [a], then [a] stood before [b]
    in the input. *)
Lemma sorted_desc_stable (a b : A) (l : list A) :
  before a b (sorted_desc key l) -> fltb (key b) (key a) = false -> before a b l.
Proof.
  revert a b. induction l as [|x l IH]; intros a b Hb Htie; simpl in Hb.
  - destruct Hb as (l1 & l2 & l3 & Heq). by destruct l1.
  - destruct (insert_desc_split x (sorted_desc key l)) as (l1 & l2 & Hs & Hi & Hall & _).
    rewrite Hi in Hb. apply before_middle in Hb as [[-> Hin]|[[-> Hin]|Hb]].
    + apply before_head. apply (proj1 (sorted_desc_elem b l)). rewrite Hs.
      apply elem_of_app. by right.
    + rewrite Forall_forall in Hall. specialize (Hall _ Hin). congruence.
    + apply before_cons, IH; [|done]. by rewrite Hs.
Qed.

(** Sortedness needs the order to behave on the keys at hand: on floats that
    are not NaN, [<] is asymmetric and "not less" is transitive. *)
Variable comparable : F -> Prop.
Hypothesis fltb_asym : forall x y,
  comparable x -> comparable y -> fltb x y = true -> fltb y x = false.
Hypothesis fltb_negtrans : forall x y z,
  comparable x -> comparable y -> comparable z ->
  fltb x y = false -> fltb y z = false -> fltb x z = false.

Lemma sorted_desc_sorted (a b : A) (l : list A) :
  Forall (fun x => comparable (key x)) l ->
  before a b (sorted_desc key l) -> fltb (key a) (key b) = false.
Proof.
  revert a b. induction l as [|x l IH]; intros a b Hok Hb; simpl in Hb.
  - destruct Hb as (l1 & l2 & l3 & Heq). by destruct l1.
  - apply Forall_cons in Hok as [Hx Hok].
    assert (Hok' : forall y, y ∈ sorted_desc key l -> comparable (key y)).
    { intros y Hy. apply (proj1 (sorted_desc_elem y l)) in Hy.
      by apply (proj1 (Forall_forall _ _) Hok). }
    destruct (insert_desc_split x (sorted_desc key l)) as (l1 & l2 & Hs & Hi & Hall & Hhead).
    rewrite Hi in Hb. apply before_middle in Hb as [[-> Hin]|[[-> Hin]|Hb]].
    + destruct l2 as [|y l2']; [by apply elem_of_nil in Hin|].
      specialize (Hhead y l2' eq_refl).
      apply elem_of_cons in Hin as [->|Hin]; [done|].
      assert (y ∈ sorted_desc key l) by (rewrite Hs; apply elem_of_app; right; apply list_elem_of_here).
      assert (b ∈ sorted_desc key l)
        by (rewrite Hs; apply elem_of_app; right; by apply list_elem_of_further).
      apply (fltb_negtrans _ (key y)); auto.
      apply IH; [done|]. rewrite Hs.
      apply list_elem_of_split in Hin as (l3 & l4 & ->). by exists l1, l3, l4.
    + rewrite Forall_forall in Hall.
      assert (a ∈ sorted_desc key l) by (rewrite Hs; apply elem_of_app; by left).
      apply fltb_asym; auto.
    + apply IH; [done|]. by rewrite Hs.
Qed.

End SortingFacts.

(** ** Reciprocal rank fusion: the result *)

Section FusionResult.
Context {F : Type} `{PyFloat F} {U : Unicode}.
Import bm25_retriever.
Variable hash : string -> Z.
Variable k : Z.

(** The loop that builds [fused_results]: one result per item, in order,
    ranked by position. *)
Lemma build_loop (doc_objects : dict (Document F)) (items : list (Z * F))
    (acc : list (Result F)) :
  (forall key s, (key, s) ∈ items -> is_Some (dict_get doc_objects key)) ->
  exists out,
    for_each (build_step doc_objects) items acc = Ok (acc ++ out) /\
    length out = length items /\
    forall (i : nat) key s, items !! i = Some (key, s) ->
      exists doc, dict_get doc_objects key = Some doc /\
        out !! i = Some (mkResult doc (Some (VFloat s))
                           (Some (VInt (Z.of_nat (length acc + i) + 1)))).
Proof.
  revert acc. induction items as [|[key s] items IH]; intros acc Hobj; simpl.
  - exists []. rewrite app_nil_r. repeat split. intros i ? ? Hi. done.
  - destruct (Hobj key s) as [doc Hdoc]; [apply list_elem_of_here|].
    unfold dict_item. rewrite Hdoc. simpl.
    destruct (IH (acc ++ [mkResult doc (Some (VFloat s))
                            (Some (VInt (Z.of_nat (length acc) + 1)))]))
      as (out & Hout & Hlen & Hitems).
    { intros key' s' Hin. apply (Hobj key' s'). by apply list_elem_of_further. }
    eexists (_ :: out). split; [by rewrite Hout, <- app_assoc|].
    split; [simpl; by rewrite Hlen|].
    intros [|i] key' s' Hi; simpl in *.
    + injection Hi as <- <-. exists doc. split; [done|].
      by rewrite Nat.add_0_r.
    + destruct (Hitems i key' s' Hi) as (doc' & Hdoc' & Hlook).
      exists doc'. split; [done|]. rewrite Hlook. do 4 f_equal.
      rewrite length_app. simpl. lia.
Qed.

(** What [reciprocal_rank_fusion] returns, in terms of the dictionaries left
    by the two loops. *)
Lemma fusion_spec (results_list : list (list (Result F))) :
  Forall (Forall (ranked k)) results_list ->
  exists doc_scores doc_objects fused,
    fuse_inv hash k (concat results_list) (doc_scores, doc_objects) /\
    reciprocal_rank_fusion hash results_list k = Ok fused /\
    length fused = length doc_scores /\
    forall (i : nat) key s, sorted_desc snd doc_scores !! i = Some (key, s) ->
      exists doc, dict_get doc_objects key = Some doc /\
        fused !! i = Some (mkResult doc (Some (VFloat s)) (Some (VInt (Z.of_nat i + 1)))).
Proof.
  intros Hr. destruct (fuse_loops hash k results_list Hr) as ([scores objects] & Hloops & Hinv).
  destruct (build_loop objects (sorted_desc snd scores) []) as (out & Hout & Hlen & Hitems).
  { intros key s Hin. apply sorted_desc_elem in Hin.
    destruct Hinv as (Hkeys & _). simpl in Hkeys.
    destruct (dict_get objects key) eqn:Hd; [done|].
    apply dict_get_None in Hd. rewrite <- Hkeys in Hd. exfalso. apply Hd.
    apply list_elem_of_fmap. by exists (key, s). }
  exists scores, objects, out. split; [done|]. split.
  - unfold reciprocal_rank_fusion. rewrite Hloops. simpl. by rewrite Hout.
  - split; [by rewrite Hlen, sorted_desc_length|]. exact Hitems.
Qed.

(** Each fused result read against the dictionaries: its key, its score. *)
Lemma fusion_result_at (results_list : list (list (Result F)))
    (doc_scores : dict F) (doc_objects : dict (Document F)) (fused : list (Result F)) :
  fuse_inv hash k (concat results_list) (doc_scores, doc_objects) ->
  length fused = length doc_scores ->
  (forall (i : nat) key s, sorted_desc snd doc_scores !! i = Some (key, s) ->
     exists doc, dict_get doc_objects key = Some doc /\
       fused !! i = Some (mkResult doc (Some (VFloat s)) (Some (VInt (Z.of_nat i + 1))))) ->
  forall (i : nat) o, fused !! i = Some o ->
    exists s,
      sorted_desc snd doc_scores !! i = Some (key_of hash o, s) /\
      score_of o = Some s /\
      rank o = Some (VInt (Z.of_nat i + 1)) /\
      dict_get doc_scores (key_of hash o) = Some s /\
      exists p e, first_seen hash (key_of hash o) results_list = Some (p, e) /\
                  document o = document e.
Proof.
  intros (Hkeys & Hnd & Hsc & Hob & Hord) Hlen Hat i o Hi. simpl in *.
  destruct (sorted_desc snd doc_scores !! i) as [[key s]|] eqn:Hs.
  2:{ apply lookup_ge_None in Hs. apply lookup_lt_Some in Hi.
      rewrite sorted_desc_length in Hs. lia. }
  destruct (Hat i key s Hs) as (doc & Hdoc & Hfused).
  rewrite Hi in Hfused. injection Hfused as ->.
  rewrite Hob in Hdoc. unfold first_seen.
  destruct (list_find (fun e => key_of hash e = key) (concat results_list))
    as [[p e]|] eqn:Hfind; [|discriminate].
  simpl in Hdoc. injection Hdoc as <-.
  apply list_find_Some in Hfind as Hfind'. destruct Hfind' as (_ & Hkey & _).
  assert (key_of hash (mkResult (document e) (Some (VFloat s))
                                (Some (VInt (Z.of_nat i + 1)))) = key) as Hk
    by exact Hkey.
  rewrite Hk. exists s. repeat split; try done.
  - apply dict_get_elem; [done|]. apply (sorted_desc_elem snd).
    by eapply list_elem_of_lookup_2.
  - exists p, e. by rewrite Hfind.
Qed.

End FusionResult.

Section FusionScores.
Context {F : Type} `{PyFloat F} {U : Unicode}.
Import bm25_retriever.

(** The fused list holds each distinct key once, and each score is the sum
    of the terms of its key. *)
Lemma fusion_keys_scores (hash : string -> Z)
    (results_list : list (list (Result F))) (k : Z) :
  Forall (Forall (ranked k)) results_list ->
  exists fused,
    reciprocal_rank_fusion hash results_list k = Ok fused /\
    NoDup (map (key_of hash) fused) /\
    (forall e, e ∈ concat results_list ->
       exists o, o ∈ fused /\ key_of hash o = key_of hash e) /\
    (forall o, o ∈ fused ->
       exists e, e ∈ concat results_list /\ key_of hash e = key_of hash o) /\
    (forall o, o ∈ fused ->
       is_Some (score_of o) /\
       score_of o = expected_score hash k (key_of hash o) results_list).
Proof.
  intros Hr.
  destruct (fusion_spec hash k results_list Hr)
    as (scores & objects & fused & Hinv & Hrun & Hlen & Hat).
  pose proof (fusion_result_at hash k results_list scores objects fused Hinv Hlen Hat)
    as Hres.
  destruct Hinv as (Hkeys & Hnd & Hsc & Hob & Hord). simpl in *.
  assert (Hmap : map (key_of hash) fused = map fst (sorted_desc snd scores)).
  { apply list_eq. intros i. rewrite !list_lookup_fmap.
    destruct (fused !! i) as [o|] eqn:Hi; simpl.
    - destruct (Hres i o Hi) as (s & -> & _). done.
    - apply lookup_ge_None in Hi. rewrite Hlen, <- (sorted_desc_length snd) in Hi.
      apply lookup_ge_None in Hi. by rewrite Hi. }
  exists fused. split; [done|]. split; [|split; [|split]].
  - rewrite Hmap. rewrite (sorted_desc_perm snd scores). done.
  - intros e He.
    assert (key_of hash e ∈ map (key_of hash) fused) as Hin.
    { rewrite Hmap, (sorted_desc_perm snd scores).
      destruct (dict_get scores (key_of hash e)) as [s|] eqn:Hget.
      - apply dict_get_Some_elem in Hget. apply list_elem_of_fmap. by exists (key_of hash e, s).
      - rewrite Hsc in Hget. apply fsum_None in Hget.
        apply fmap_nil_inv in Hget.
        assert (e ∈ filter (fun e' => key_of hash e' = key_of hash e) (concat results_list))
          as Hin by (apply list_elem_of_filter; by split).
        rewrite Hget in Hin. by apply elem_of_nil in Hin. }
    apply list_elem_of_fmap in Hin as (o & Hk & Ho). by exists o.
  - intros o Ho. apply list_elem_of_lookup in Ho as [i Hi].
    destruct (Hres i o Hi) as (s & _ & _ & _ & _ & p & e & Hfirst & _).
    apply list_find_Some in Hfirst as (Hp & Hkey & _).
    exists e. split; [by eapply list_elem_of_lookup_2|done].
  - intros o Ho. apply list_elem_of_lookup in Ho as [i Hi].
    destruct (Hres i o Hi) as (s & _ & Hs & _ & Hget & _).
    split; [by rewrite Hs|]. rewrite Hs, <- Hget. apply Hsc.
Qed.

(** C1.  When every input result carries an int rank [r] with [k + r] a
    usable divisor (ranks count from 1 and [k] is 60 by default),
    [reciprocal_rank_fusion] returns a list that holds each distinct document
    key of the input exactly once, and the score of each returned result is
    the sum, in the order of the input lists, of [1/(k + rank)] over the
    results with that key.  In particular a document met once, at rank [r],
    scores [1/(k + r)], and a document met once in list A at rank [r1] and
    once in list B at rank [r2] scores [1/(k + r1) + 1/(k + r2)]. *)
Theorem rrf_score_formula (hash : string -> Z)
    (results_list : list (list (Result F))) (k : Z) :
  Forall (Forall (ranked k)) results_list ->
  exists fused,
    reciprocal_rank_fusion hash results_list k = Ok fused /\
    NoDup (map (key_of hash) fused) /\
    (forall e, e ∈ concat results_list ->
       exists o, o ∈ fused /\ key_of hash o = key_of hash e) /\
    (forall o, o ∈ fused ->
       is_Some (score_of o) /\
       score_of o = expected_score hash k (key_of hash o) results_list) /\
    (forall o e r, o ∈ fused ->
       occurrences hash (key_of hash o) results_list = [e] ->
       rank e = Some (VInt r) ->
       score_of o = Some (rrf_term k r)) /\
    (forall o list_a list_b e1 e2 r1 r2, o ∈ fused ->
       results_list = [list_a; list_b] ->
       filter (fun e => key_of hash e = key_of hash o) list_a = [e1] ->
       filter (fun e => key_of hash e = key_of hash o) list_b = [e2] ->
       rank e1 = Some (VInt r1) -> rank e2 = Some (VInt r2) ->
       score_of o = Some (fadd (rrf_term k r1) (rrf_term k r2))).
Proof.
  intros Hr.
  destruct (fusion_keys_scores hash results_list k Hr)
    as (fused & Hrun & Hnd & Hcover & _ & Hscore).
  exists fused. do 4 (split; [done|]). split.
  - intros o e r Ho Hocc Hrank.
    destruct (Hscore o Ho) as [_ ->]. unfold expected_score. rewrite Hocc. simpl.
    unfold rank_value. by rewrite Hrank.
  - intros o list_a list_b e1 e2 r1 r2 Ho -> Ha Hb Hr1 Hr2.
    destruct (Hscore o Ho) as [_ ->]. unfold expected_score, occurrences. simpl.
    rewrite app_nil_r, filter_app, Ha, Hb. simpl.
    unfold rank_value. by rewrite Hr1, Hr2.
Qed.

End FusionScores.

Lemma sample_lists_ranked :
  Forall (Forall (ranked 60)) [samples.keyword_list; samples.vector_list].
Proof.
  repeat constructor; eexists; (split; [reflexivity|split; [lia|reflexivity]]).
Qed.

Lemma rrf_score_formula_witness :
  exists fused,
    bm25_retriever.reciprocal_rank_fusion samples.sample_hash
      [samples.keyword_list; samples.vector_list] 60 = Ok fused /\
    NoDup (map (key_of samples.sample_hash) fused) /\
    forall o, o ∈ fused ->
      score_of o = expected_score samples.sample_hash 60 (key_of samples.sample_hash o)
                     [samples.keyword_list; samples.vector_list].
Proof.
  destruct (rrf_score_formula samples.sample_hash
              [samples.keyword_list; samples.vector_list] 60 sample_lists_ranked)
    as (fused & Hrun & Hnd & _ & Hscore & _).
  exists fused. split; [exact Hrun|]. split; [exact Hnd|].
  intros o Ho. exact (proj2 (Hscore o Ho)).
Defined.

(** The fused list of the two sample lists, bit for bit. *)
Lemma rrf_sample_run :
  map (fun o => (page_content (document o), score_of o, rank o))
      (match bm25_retriever.reciprocal_rank_fusion samples.sample_hash
               [samples.keyword_list; samples.vector_list] 60 with
       | Ok fused => fused
       | Raise _ => []
       end)
  = [("bb"%string, Some (PrimFloat.add (PrimFloat.div 1 62) (PrimFloat.div 1 61)), Some (VInt 1));
     ("a"%string, Some (PrimFloat.div 1 61), Some (VInt 2));
     ("ccc"%string, Some (PrimFloat.div 1 62), Some (VInt 3))].
Proof. vm_compute. reflexivity. Qed.

Section FusionOrder.
Context {F : Type} `{PyFloat F} {U : Unicode}.
Import bm25_retriever.

(** The comparison [<] is only assumed to be a strict weak order on the
    scores it meets (for binary64: on everything but NaN). *)
Variable comparable : F -> Prop.
Hypothesis fltb_asym : forall x y,
  comparable x -> comparable y -> fltb x y = true -> fltb y x = false.
Hypothesis fltb_negtrans : forall x y z,
  comparable x -> comparable y -> comparable z ->
  fltb x y = false -> fltb y z = false -> fltb x z = false.

(** C7.  On input results that carry usable int ranks,
    [reciprocal_rank_fusion] returns one list, the same at every call: it is
    a function of its arguments (and of the process's string hash).  The
    result at position [i] has rank [i + 1].  When the fused scores are
    comparable, no result has a smaller score than a later one.  And when a
    result stands before another whose score is not smaller (a tie), its
    document was first seen earlier in the input lists read in order. *)
Theorem rrf_deterministic_order (hash : string -> Z)
    (results_list : list (list (Result F))) (k : Z) :
  Forall (Forall (ranked k)) results_list ->
  exists fused,
    reciprocal_rank_fusion hash results_list k = Ok fused /\
    (forall fused', reciprocal_rank_fusion hash results_list k = Ok fused' ->
                    fused' = fused) /\
    (forall (i : nat) o, fused !! i = Some o -> rank o = Some (VInt (Z.of_nat i + 1))) /\
    (Forall (fun o => exists s, score_of o = Some s /\ comparable s) fused ->
     forall (i j : nat) oi oj si sj,
       fused !! i = Some oi -> fused !! j = Some oj -> (i < j)%nat ->
       score_of oi = Some si -> score_of oj = Some sj ->
       fltb si sj = false) /\
    (forall (i j : nat) oi oj si sj,
       fused !! i = Some oi -> fused !! j = Some oj -> (i < j)%nat ->
       score_of oi = Some si -> score_of oj = Some sj ->
       fltb sj si = false ->
       exists pi ei pj ej,
         first_seen hash (key_of hash oi) results_list = Some (pi, ei) /\
         first_seen hash (key_of hash oj) results_list = Some (pj, ej) /\
         (pi < pj)%nat).
Proof.
  intros Hr.
  destruct (fusion_spec hash k results_list Hr)
    as (scores & objects & fused & Hinv & Hrun & Hlen & Hat).
  pose proof (fusion_result_at hash k results_list scores objects fused Hinv Hlen Hat)
    as Hres.
  destruct Hinv as (Hkeys & Hnd & Hsc & Hob & Hord). simpl in *.
  exists fused. split; [done|]. split; [|split; [|split]].
  - intros fused' Hrun'. congruence.
  - intros i o Hi. by destruct (Hres i o Hi) as (s & _ & _ & ? & _).
  - intros Hcmp i j oi oj si sj Hi Hj Hlt Hsi Hsj.
    destruct (Hres i oi Hi) as (si' & Hsi' & Hsi'' & _).
    destruct (Hres j oj Hj) as (sj' & Hsj' & Hsj'' & _).
    assert (si' = si) as -> by congruence. assert (sj' = sj) as -> by congruence.
    apply (sorted_desc_sorted snd comparable fltb_asym fltb_negtrans
             (key_of hash oi, si) (key_of hash oj, sj) scores).
    + apply Forall_forall. intros [key s] Hin. simpl.
      apply (sorted_desc_elem snd) in Hin. apply list_elem_of_lookup in Hin as [n Hn].
      destruct (Hat n key s Hn) as (doc & _ & Hfn).
      rewrite Forall_forall in Hcmp.
      destruct (Hcmp _ (list_elem_of_lookup_2 _ _ _ Hfn)) as (s' & Hs' & Hok).
      by injection Hs' as ->.
    + by eapply before_lookup.
  - intros i j oi oj si sj Hi Hj Hlt Hsi Hsj Htie.
    destruct (Hres i oi Hi) as (si' & Hsi' & Hsi'' & _).
    destruct (Hres j oj Hj) as (sj' & Hsj' & Hsj'' & _).
    assert (si' = si) as -> by congruence. assert (sj' = sj) as -> by congruence.
    assert (before (key_of hash oi, si) (key_of hash oj, sj) scores) as Hb.
    { apply (sorted_desc_stable snd); [by eapply before_lookup|done]. }
    destruct Hb as (l1 & l2 & l3 & Hsplit).
    apply (Hord (key_of hash oi) (key_of hash oj)).
    exists (map fst l1), (map fst l2), (map fst l3).
    rewrite Hsplit. rewrite !map_app. simpl. by rewrite !map_app.
Qed.

End FusionOrder.

(** ** The order of binary64 *)

Lemma SFltb_lex (f1 f2 : spec_float) :
  SFis_nan f1 = false -> SFis_nan f2 = false ->
  (SFltb f1 f2 = true <-> lex_lt (SFkey f1) (SFkey f2)).
Proof.
  unfold SFltb, lex_lt.
  destruct f1 as [s1|s1| |s1 m1 e1], f2 as [s2|s2| |s2 m2 e2]; try discriminate;
    intros _ _; simpl;
    try destruct s1; try destruct s2; simpl; try (split; [discriminate|lia]);
    try (split; [lia|reflexivity]).
  - rewrite Pos.compare_cont_spec. simpl.
    destruct (Z.compare_spec e1 e2); destruct (Pos.compare_spec m1 m2); simpl;
      split; try discriminate; try reflexivity; try lia.
  - rewrite Pos.compare_cont_spec. simpl.
    destruct (Z.compare_spec e1 e2); destruct (Pos.compare_spec m1 m2); simpl;
      split; try discriminate; try reflexivity; try lia.
Qed.

Lemma is_nan_spec (x : float) : PrimFloat.is_nan x = SFis_nan (Prim2SF x).
Proof.
  unfold PrimFloat.is_nan. rewrite FloatAxioms.eqb_spec. unfold SFeqb.
  destruct (Prim2SF x) as [s|s| |s m e]; simpl; try destruct s; try reflexivity.
  - rewrite Z.compare_refl. rewrite Pos.compare_cont_spec, Pos.compare_refl. reflexivity.
  - rewrite Z.compare_refl. rewrite Pos.compare_cont_spec, Pos.compare_refl. reflexivity.
Qed.

Lemma float_ltb_lex (x y : float) :
  not_nan x -> not_nan y ->
  (PrimFloat.ltb x y = true <-> lex_lt (SFkey (Prim2SF x)) (SFkey (Prim2SF y))).
Proof.
  unfold not_nan. intros Hx Hy. rewrite ltb_spec.
  apply SFltb_lex; by rewrite <- is_nan_spec.
Qed.

(** On binary64 values other than NaN, [<] is asymmetric ... *)
Lemma float_ltb_asym (x y : float) :
  not_nan x -> not_nan y -> PrimFloat.ltb x y = true -> PrimFloat.ltb y x = false.
Proof.
  intros Hx Hy Hlt. apply float_ltb_lex in Hlt; [|assumption..].
  apply not_true_is_false. intros Hgt. apply float_ltb_lex in Hgt; [|assumption..].
  destruct (SFkey (Prim2SF x)) as [[a1 a2] a3], (SFkey (Prim2SF y)) as [[b1 b2] b3].
  simpl in *. lia.
Qed.

(** ... and "not less" is transitive. *)
Lemma float_ltb_negtrans (x y z : float) :
  not_nan x -> not_nan y -> not_nan z ->
  PrimFloat.ltb x y = false -> PrimFloat.ltb y z = false -> PrimFloat.ltb x z = false.
Proof.
  intros Hx Hy Hz Hxy Hyz. apply not_true_is_false. intros Hxz.
  apply float_ltb_lex in Hxz; [|assumption..].
  assert (~ lex_lt (SFkey (Prim2SF x)) (SFkey (Prim2SF y))) as Hxy'.
  { intros Hl. apply float_ltb_lex in Hl; [congruence|assumption..]. }
  assert (~ lex_lt (SFkey (Prim2SF y)) (SFkey (Prim2SF z))) as Hyz'.
  { intros Hl. apply float_ltb_lex in Hl; [congruence|assumption..]. }
  destruct (SFkey (Prim2SF x)) as [[a1 a2] a3], (SFkey (Prim2SF y)) as [[b1 b2] b3],
           (SFkey (Prim2SF z)) as [[c1 c2] c3].
  simpl in *. lia.
Qed.

Lemma rrf_deterministic_order_witness :
  exists fused,
    bm25_retriever.reciprocal_rank_fusion samples.sample_hash
      [samples.keyword_list; samples.vector_list] 60 = Ok fused /\
    (forall (i : nat) o, fused !! i = Some o -> rank o = Some (VInt (Z.of_nat i + 1))) /\
    (forall (i j : nat) oi oj si sj,
       fused !! i = Some oi -> fused !! j = Some oj -> (i < j)%nat ->
       score_of oi = Some si -> score_of oj = Some sj ->
       PrimFloat.ltb si sj = false).
Proof.
  destruct (rrf_deterministic_order (F:=float) (H:=binary64) not_nan float_ltb_asym float_ltb_negtrans
              samples.sample_hash [samples.keyword_list; samples.vector_list] 60
              sample_lists_ranked)
    as (fused & Hrun & _ & Hrank & Hsorted & _).
  exists fused. split; [exact Hrun|]. split; [exact Hrank|].
  apply Hsorted.
  assert (Hfused : Ok fused
                   = bm25_retriever.reciprocal_rank_fusion samples.sample_hash
                       [samples.keyword_list; samples.vector_list] 60)
    by (symmetry; exact Hrun).
  vm_compute in Hfused. injection Hfused as ->.
  repeat constructor; eexists; (split; [reflexivity|vm_compute; reflexivity]).
Defined.

(** ** Sizes of the fusion and rerank outputs *)

Lemma slice_to_length_le {A} (n : Z) (l : list A) :
  (length (slice_to n l) <= length l)%nat.
Proof. unfold slice_to. destruct (0 <=? n); rewrite length_take; lia. Qed.

Lemma slice_to_length_bound {A} (n : Z) (l : list A) :
  0 <= n -> Z.of_nat (length (slice_to n l)) <= n.
Proof.
  intros Hn. unfold slice_to. destruct (0 <=? n) eqn:E; [|apply Z.leb_gt in E; lia].
  rewrite length_take. lia.
Qed.

Section RerankSizes.
Context {F : Type} `{PyFloat F} {U : Unicode}.
Import reranker.

Lemma original_order_length (documents : list (Document F)) (top_k : Z) :
  length (original_order documents top_k) = length (slice_to top_k documents).
Proof. unfold original_order, enumerate. by rewrite length_map, length_imap. Qed.

Lemma append_ranked_fold_length (items : list (Document F * F)) (acc : list (Result F)) :
  length (fold_left (fun reranked '(doc, s) => append_ranked reranked doc s) items acc)
  = (length acc + length items)%nat.
Proof.
  revert acc. induction items as [|[doc s] items IH]; intros acc; simpl; [lia|].
  rewrite IH. unfold append_ranked. rewrite length_app. simpl. lia.
Qed.

Lemma cohere_loop_length (documents : list (Document F)) (items : list RerankItem)
    (acc out : list (Result F)) :
  for_each (fun reranked result =>
              doc ← index documents (item_index result);
              Ok (append_ranked reranked doc (relevance_score result)))
           items acc = Ok out ->
  length out = (length acc + length items)%nat.
Proof.
  revert acc. induction items as [|item items IH]; intros acc; simpl.
  - intros [= <-]. lia.
  - destruct (index documents (item_index item)) as [doc|e]; simpl; [|discriminate].
    intros Hout. rewrite (IH _ Hout). unfold append_ranked. rewrite length_app. simpl. lia.
Qed.

(** The fallback list: at most [top_k] results, never more than the input. *)
Lemma original_order_size (documents : list (Document F)) (top_k : Z) :
  (length (original_order documents top_k) <= length documents)%nat /\
  (0 <= top_k -> Z.of_nat (length (original_order documents top_k)) <= top_k).
Proof.
  rewrite original_order_length. split; [apply slice_to_length_le|].
  apply slice_to_length_bound.
Qed.

Lemma rerank_local_size (self : Reranker) (query : string)
    (documents : list (Document F)) (top_k : Z) :
  (length (_rerank_local self query documents top_k) <= length documents)%nat /\
  (0 <= top_k -> Z.of_nat (length (_rerank_local self query documents top_k)) <= top_k).
Proof.
  unfold _rerank_local.
  destruct (cross_encoder self) as [predict|]; simpl; [|apply original_order_size].
  destruct (predict _) as [scores|e]; simpl; [|apply original_order_size].
  rewrite append_ranked_fold_length. simpl. split.
  - etrans; [apply slice_to_length_le|].
    rewrite sorted_desc_length, length_zip_with. lia.
  - apply slice_to_length_bound.
Qed.

(** The remote path returns what the service returned, one result per item,
    or the fallback list. *)
Lemma rerank_cohere_size (self : Reranker) (query : string)
    (documents : list (Document F)) (top_k : Z) :
  _rerank_cohere self query documents top_k = original_order documents top_k \/
  exists call items,
    cohere_client self = Some call /\
    call (cohere_model self) query (map page_content documents) top_k = Ok items /\
    length (_rerank_cohere self query documents top_k) = length items.
Proof.
  unfold _rerank_cohere.
  destruct (cohere_client self) as [call|]; simpl; [|by left].
  destruct (call _ _ _ _) as [items|e] eqn:Hcall; simpl; [|by left].
  destruct (for_each _ items []) as [out|e] eqn:Hloop; simpl; [|by left].
  right. exists call, items. repeat split; [done|].
  by rewrite (cohere_loop_length _ _ _ _ Hloop).
Qed.

End RerankSizes.

Section StageSizes.
Context {F : Type} `{PyFloat F} {U : Unicode}.
Import bm25_retriever reranker.

(** C2 (amended).  [Reranker.rerank] returns at most [top_k] results (for a
    [top_k] that is not negative) and never more results than it is given
    documents, provided the remote service, when it is the one used, answers
    with at most [top_n] items and with no more items than documents.
    [reciprocal_rank_fusion] takes no top-k: on ranked inputs it returns one
    result per distinct document key, hence at most as many results as the
    input lists hold together. *)
Theorem stage_output_sizes (hash : string -> Z)
    (results_list : list (list (Result F))) (k : Z)
    (self : Reranker) (query : string) (documents : list (Document F)) (top_k : Z) :
  Forall (Forall (ranked k)) results_list ->
  0 <= top_k ->
  (forall call items,
     cohere_client self = Some call ->
     call (cohere_model self) query (map page_content documents) top_k = Ok items ->
     Z.of_nat (length items) <= top_k /\ (length items <= length documents)%nat) ->
  (exists fused,
     reciprocal_rank_fusion hash results_list k = Ok fused /\
     length fused = length (remove_dups (map (key_of hash) (concat results_list))) /\
     (length fused <= length (concat results_list))%nat) /\
  Z.of_nat (length (rerank self query documents top_k)) <= top_k /\
  (length (rerank self query documents top_k) <= length documents)%nat.
Proof.
  intros Hr Hk Hservice. split.
  - destruct (fusion_keys_scores hash results_list k Hr)
      as (fused & Hrun & Hnd & Hcover & Hfrom & _).
    exists fused. split; [done|].
    assert (map (key_of hash) fused ≡ₚ remove_dups (map (key_of hash) (concat results_list)))
      as Hperm.
    { apply NoDup_Permutation; [done|apply NoDup_remove_dups|].
      intros key. rewrite elem_of_remove_dups. split.
      - intros Hin. apply list_elem_of_fmap in Hin as (o & -> & Ho).
        destruct (Hfrom o Ho) as (e & He & Hke).
        apply list_elem_of_fmap. by exists e.
      - intros Hin. apply list_elem_of_fmap in Hin as (e & -> & He).
        destruct (Hcover e He) as (o & Ho & <-).
        apply list_elem_of_fmap. by exists o. }
    assert (length fused = length (remove_dups (map (key_of hash) (concat results_list))))
      as Hlen by (by rewrite <- Hperm, length_map).
    split; [done|]. rewrite Hlen.
    rewrite <- (length_map (key_of hash) (concat results_list)).
    apply submseteq_length, NoDup_submseteq; [apply NoDup_remove_dups|].
    intros x. by rewrite elem_of_remove_dups.
  - assert ((length (rerank self query documents top_k) <= length documents)%nat /\
            Z.of_nat (length (rerank self query documents top_k)) <= top_k) as [? ?];
      [|done].
    unfold rerank. destruct documents as [|d ds] eqn:Hdocs; [simpl; lia|].
    rewrite <- Hdocs in *. clear Hdocs.
    destruct (use_local self && _).
    { destruct (rerank_local_size self query documents top_k); auto. }
    destruct (bool_decide _).
    + destruct (rerank_cohere_size self query documents top_k) as [->|Hex].
      * destruct (original_order_size documents top_k); auto.
      * destruct Hex as (call & items & Hc & Hcall & ->).
        destruct (Hservice call items Hc Hcall). auto.
    + destruct (original_order_size documents top_k); auto.
Qed.

End StageSizes.

Lemma stage_output_sizes_witness :
  (exists fused,
     bm25_retriever.reciprocal_rank_fusion samples.sample_hash
       [samples.keyword_list; samples.vector_list] 60 = Ok fused /\
     (length fused <= 4)%nat) /\
  Z.of_nat (length (reranker.rerank samples.remote_reranker "python"
                      samples.three_docs 2)) <= 2 /\
  (length (reranker.rerank samples.remote_reranker "python" samples.three_docs 2) <= 3)%nat.
Proof.
  destruct (stage_output_sizes samples.sample_hash
              [samples.keyword_list; samples.vector_list] 60
              samples.remote_reranker "python" samples.three_docs 2)
    as ((fused & Hrun & _ & Hlen) & Htop & Hin).
  - exact sample_lists_ranked.
  - lia.
  - intros call items [= <-] [= <-]. simpl. lia.
  - split; [|split; [exact Htop|exact Hin]].
    exists fused. split; [exact Hrun|exact Hlen].
Defined.

(** Two lists of two results each, no document in common: four fused results. *)
Lemma fusion_disjoint_sample :
  exists fused,
    bm25_retriever.reciprocal_rank_fusion samples.sample_hash
      [samples.keyword_list; samples.disjoint_list] 60 = Ok fused /\
    map (fun o => page_content (document o)) fused
    = ["a"; "ccc"; "bb"; "dddd"]%string.
Proof. eexists. split; [vm_compute; reflexivity|reflexivity]. Qed.

(** C2, as stated, fails for the fusion stage: its output is not bounded by
    the top-k that bounds each of its input lists. *)
Lemma fusion_exceeds_top_k :
  ~ (forall (hash : string -> Z) (results_list : list (list (Result float)))
            (k top_k : Z) (fused : list (Result float)),
       Forall (fun results => Z.of_nat (length results) <= top_k) results_list ->
       bm25_retriever.reciprocal_rank_fusion hash results_list k = Ok fused ->
       Z.of_nat (length fused) <= top_k).
Proof.
  intros Hclaim.
  destruct fusion_disjoint_sample as (fused & Hrun & Hcontents).
  specialize (Hclaim samples.sample_hash [samples.keyword_list; samples.disjoint_list]
                     60 2 fused).
  assert (Z.of_nat (length fused) <= 2) as Hlen.
  { apply Hclaim; [|exact Hrun]. repeat constructor; simpl; lia. }
  apply (f_equal length) in Hcontents. rewrite length_map in Hcontents.
  simpl in Hcontents. lia.
Qed.

(** ** BM25 search *)

Lemma index_lookup {A} (l : list A) (i : nat) (x : A) :
  l !! i = Some x -> index l (Z.of_nat i) = Ok x.
Proof.
  intros Hi. unfold index. apply lookup_lt_Some in Hi as Hlt.
  destruct (0 <=? Z.of_nat i) eqn:E; [|apply Z.leb_gt in E; lia].
  rewrite E. simpl.
  destruct (Z.of_nat i <? Z.of_nat (length l)) eqn:E'; [|apply Z.ltb_ge in E'; lia].
  by rewrite Nat2Z.id, Hi.
Qed.

Section BM25Search.
Context {F : Type} `{PyFloat F} {U : Unicode}.
Import bm25_retriever.

(** What holds of [results] while the loop of [search] runs: positive
    scores, ranks that count from 1, no more results than indices read. *)
Lemma search_step_inv (self : BM25Retriever) (scores : list F) :
  length scores = length (documents self) ->
  forall (done : list nat) (results : list (Result F)) (idx : nat),
    (Forall (fun r => exists s, score r = Some (VFloat s) /\ fltb (of_int 0) s = true)
            results /\
     (forall (i : nat) r, results !! i = Some r -> rank r = Some (VInt (Z.of_nat i + 1))) /\
     (length results <= length done)%nat) ->
    (idx < length scores)%nat ->
    exists results',
      search_step self scores results idx = Ok results' /\
      (Forall (fun r => exists s, score r = Some (VFloat s) /\ fltb (of_int 0) s = true)
              results' /\
       (forall (i : nat) r, results' !! i = Some r -> rank r = Some (VInt (Z.of_nat i + 1))) /\
       (length results' <= length (done ++ [idx]))%nat).
Proof.
  intros Hlen done results idx (Hpos & Hrank & Hcount) Hidx.
  destruct (lookup_lt_is_Some_2 scores idx Hidx) as [s Hs].
  destruct (lookup_lt_is_Some_2 (documents self) idx) as [doc Hdoc]; [lia|].
  unfold search_step. rewrite (index_lookup _ _ _ Hs). simpl.
  rewrite length_app. simpl.
  destruct (fltb (of_int 0) s) eqn:Hs0.
  - rewrite (index_lookup _ _ _ Hdoc). simpl. eexists. split; [reflexivity|].
    split; [|split].
    + apply Forall_app. split; [done|]. apply Forall_singleton. by exists s.
    + intros i r Hi. apply lookup_app_Some in Hi as [Hi|[Hge Hi]]; [by apply Hrank|].
      apply list_lookup_singleton_Some in Hi as [Hi <-]. simpl.
      do 2 f_equal. lia.
    + rewrite length_app. simpl. lia.
  - exists results. split; [done|]. split; [done|]. split; [done|lia].
Qed.

(** C5.  [BM25Retriever.search(query, top_k)], for a [top_k] that is not
    negative, returns a list in which every score is greater than 0, that has
    at most [top_k] results, and whose ranks are 1, 2, 3, ... in order.
    ([numpy.argsort] is taken to return indices into its argument, and the
    index to score every indexed document.) *)
Theorem search_positive_ranked (argsort : list F -> list nat) (self : BM25Retriever)
    (query : string) (top_k : Z) :
  (forall scores, Forall (fun i => (i < length scores)%nat) (argsort scores)) ->
  (forall get_scores tokens,
     bm25 self = Some get_scores -> length (get_scores tokens) = length (documents self)) ->
  0 <= top_k ->
  exists results,
    search argsort self query top_k = Ok results /\
    Forall (fun r => exists s, score r = Some (VFloat s) /\ fltb (of_int 0) s = true)
           results /\
    Z.of_nat (length results) <= top_k /\
    (forall (i : nat) r, results !! i = Some r -> rank r = Some (VInt (Z.of_nat i + 1))).
Proof.
  intros Hargsort Hscores Hk. unfold search.
  destruct (bm25 self) as [get_scores|] eqn:Hbm.
  2:{ exists []. repeat split; [by apply Forall_nil|simpl; lia|]. intros i r Hi. done. }
  destruct (documents self) as [|d ds] eqn:Hdocs.
  { exists []. repeat split; [by apply Forall_nil|simpl; lia|]. intros i r Hi. done. }
  set (scores := get_scores (split (lower query))).
  set (top_indices := slice_to top_k (rev (argsort scores))).
  destruct (for_each_invariant (search_step self scores)
              (fun done results =>
                 Forall (fun r => exists s, score r = Some (VFloat s)
                                            /\ fltb (of_int 0) s = true) results /\
                 (forall (i : nat) r, results !! i = Some r ->
                                      rank r = Some (VInt (Z.of_nat i + 1))) /\
                 (length results <= length done)%nat)
              (fun idx => (idx < length scores)%nat)
              top_indices [] [])
    as (results & Hrun & Hpos & Hrank & Hcount).
  - intros done results idx Hinv Hidx.
    apply (search_step_inv self scores); [|done..].
    unfold scores. rewrite Hdocs. by apply Hscores.
  - unfold top_indices, slice_to.
    destruct (0 <=? top_k); apply Forall_take, Forall_rev, Hargsort.
  - split; [by apply Forall_nil|]. split; [|simpl; lia]. intros i r Hi. done.
  - exists results. split; [done|]. split; [done|]. split; [|done].
    simpl in Hcount. unfold top_indices in Hcount.
    pose proof (slice_to_length_bound top_k (rev (argsort scores)) Hk). lia.
Qed.

End BM25Search.

Lemma argsort_insert_valid (scores : list float) (n i : nat) (sorted : list nat) :
  (i < n)%nat -> Forall (fun j => (j < n)%nat) sorted ->
  Forall (fun j => (j < n)%nat) (samples.argsort_insert scores i sorted).
Proof.
  intros Hi. induction sorted as [|j sorted IH]; intros Hs; simpl.
  - by apply Forall_singleton.
  - apply Forall_cons in Hs as [Hj Hs]. destruct (PrimFloat.ltb _ _).
    + apply Forall_cons. split; [done|]. by apply Forall_cons.
    + apply Forall_cons. split; [done|]. by apply IH.
Qed.

Lemma sample_argsort_valid (scores : list float) :
  Forall (fun i => (i < length scores)%nat) (samples.sample_argsort scores).
Proof.
  unfold samples.sample_argsort.
  assert (Forall (fun i => (i < length scores)%nat) (seq 0 (length scores))) as Hseq.
  { apply Forall_forall. intros i Hi. apply elem_of_seq in Hi. lia. }
  induction (seq 0 (length scores)) as [|i l IH]; simpl; [by apply Forall_nil|].
  apply Forall_cons in Hseq as [Hi Hl]. apply argsort_insert_valid; [done|by apply IH].
Qed.

Lemma search_positive_ranked_witness :
  exists results,
    bm25_retriever.search samples.sample_argsort samples.sample_retriever "python" 5
    = Ok results /\
    Forall (fun r => exists s, score r = Some (VFloat s) /\ PrimFloat.ltb 0 s = true)
           results /\
    Z.of_nat (length results) <= 5 /\
    (forall (i : nat) r, results !! i = Some r -> rank r = Some (VInt (Z.of_nat i + 1))).
Proof.
  apply (search_positive_ranked (F:=float) (H:=binary64)
           samples.sample_argsort samples.sample_retriever "python" 5).
  - exact sample_argsort_valid.
  - intros get_scores tokens [= <-]. reflexivity.
  - lia.
Defined.

(** The sample search, bit for bit: the document without the query term is
    left out, two results remain although [top_k] is 5. *)
Lemma search_sample_run :
  bm25_retriever.search samples.sample_argsort samples.sample_retriever "python" 5
  = Ok [mkResult (mkDocument "Variables in Python" ∅) (Some (VFloat 0.75%float))
                 (Some (VInt 1));
        mkResult (mkDocument "Python loops and functions" ∅) (Some (VFloat 0.5%float))
                 (Some (VInt 2))].
Proof. vm_compute. reflexivity. Qed.

(** ** Cosine similarity *)

Section CosineGeneric.
Context {F : Type} `{PyFloat F} {U : Unicode}.
Import semantic_cache.


End CosineGeneric.

Section CosineSelf.
Context {F : Type} `{PyFloat F}.
Import semantic_cache.


End CosineSelf.

(** ** Zero vectors in binary64 *)




Section CosineClaim.
Import semantic_cache.


End CosineClaim.



(** Three runs of a vector against itself in binary64: the quotient rounded
    below 1; a sum of squares that underflows to zero; one that overflows. *)
Lemma cosine_self_samples :
  semantic_cache._cosine_similarity [1%float; 1%float] [1%float; 1%float]
  = Ok 0x1.ffffffffffffep-1%float /\
  semantic_cache._cosine_similarity [0x1p-600%float] [0x1p-600%float] = Ok 0%float /\
  (exists s, semantic_cache._cosine_similarity [0x1p600%float] [0x1p600%float] = Ok s /\
             PrimFloat.is_nan s = true).
Proof.
  split; [vm_compute; reflexivity|]. split; [vm_compute; reflexivity|].
  eexists. split; vm_compute; reflexivity.
Qed.

(** ** Relevance scores *)

Lemma index_elem {A} (l : list A) (i : Z) (x : A) : index l i = Ok x -> x ∈ l.
Proof.
  unfold index. destruct (_ && _); [|discriminate].
  destruct (l !! _) as [y|] eqn:Hl; [|discriminate].
  intros [= <-]. by eapply list_elem_of_lookup_2.
Qed.

Section HybridResults.
Context {F : Type} `{PyFloat F} {U : Unicode}.
Import document_store.

Lemma dict_set_elem {V} (d : dict V) (k0 : Z) (v0 : V) (k : Z) (v : V) :
  (k, v) ∈ dict_set d k0 v0 -> (k, v) ∈ d \/ (k, v) = (k0, v0).
Proof.
  induction d as [|[k' v'] d IH]; simpl.
  - intros Hin. apply list_elem_of_singleton in Hin. by right.
  - destruct (k' =? k0) eqn:E.
    + apply Z.eqb_eq in E. subst k'. intros Hin.
      apply elem_of_cons in Hin as [Heq|Hin]; [by right|].
      left. by apply list_elem_of_further.
    + intros Hin. apply elem_of_cons in Hin as [Heq|Hin].
      * left. rewrite Heq. apply list_elem_of_here.
      * destruct (IH Hin) as [?|?]; [left; by apply list_elem_of_further|by right].
Qed.

(** [all_docs] holds documents of the two branches only. *)
Lemma combine_results_elem (hash : string -> Z)
    (semantic_results keyword_docs : list (Document F)) (doc : Document F) :
  doc ∈ map snd (combine_results hash semantic_results keyword_docs) ->
  doc ∈ semantic_results \/ doc ∈ keyword_docs.
Proof.
  unfold combine_results.
  assert (forall (l : list (Document F)) (acc : dict (Document F)) (P : Document F -> Prop)
                 (f : dict (Document F) -> Document F -> dict (Document F)),
            (forall a x y, y ∈ map snd (f a x) -> y ∈ map snd a \/ y = x) ->
            (forall y, y ∈ map snd acc -> P y) -> (forall y, y ∈ l -> P y) ->
            forall y, y ∈ map snd (fold_left f l acc) -> P y) as Hfold.
  { intros l. induction l as [|x l IH]; intros acc P f Hf Hacc Hl y; simpl; [apply Hacc|].
    apply (IH (f acc x) P f Hf).
    - intros z Hz. destruct (Hf acc x z Hz) as [?| ->]; [by apply Hacc|].
      apply Hl, list_elem_of_here.
    - intros z Hz. by apply Hl, list_elem_of_further. }
  assert (forall (a : dict (Document F)) (key : Z) (x y : Document F),
            y ∈ map snd (dict_set a key x) -> y ∈ map snd a \/ y = x) as Hset.
  { intros a key x y Hy. apply list_elem_of_fmap in Hy as ([k' v'] & -> & Hin).
    apply dict_set_elem in Hin as [Hin|Heq]; [|injection Heq as -> ->; by right].
    left. apply list_elem_of_fmap. by exists (k', v'). }
  apply (Hfold keyword_docs _ (fun y => y ∈ semantic_results \/ y ∈ keyword_docs)).
  - intros a x y Hy. destruct (dict_get a _); [by left|]. by apply Hset in Hy.
  - intros y Hy. left. revert y Hy.
    apply (Hfold semantic_results [] (fun y => y ∈ semantic_results)).
    + intros a x y Hy. by apply Hset in Hy.
    + intros y Hy. by apply elem_of_nil in Hy.
    + done.
  - intros y Hy. by right.
Qed.

End HybridResults.

(** The sample engine reports the distances 3 and 0.5: the first document
    returned carries the relevance score -0.5. *)
Lemma search_documents_far_sample :
  document_store.search_documents (samples.sample_store [3%float; 0.5%float])
    "python" "learning_resources" None 5 0
  = Ok [mkDocument "Python loops and functions"
          (<["relevance_score" := VFloat (-0.5)%float]> ∅);
        mkDocument "Variables in Python"
          (<["relevance_score" := VFloat 0.75%float]> ∅)].
Proof. vm_compute. reflexivity. Qed.

(** C3.  [search_documents] does not keep the relevance score in [0,1]:
    it stores [1.0 - distance / 2.0] for whatever distance the engine
    reports, and for the reported distance 3.0 the document carries the
    score -0.5, below zero.  (The comment on that line of the source reads
    "Convert distance to relevance (0-1)".) *)
Theorem relevance_score_below_zero :
  exists doc docs s,
    document_store.search_documents (samples.sample_store [3%float; 0.5%float])
      "python" "learning_resources" None 5 0 = Ok (doc :: docs) /\
    relevance_score_of doc = Some s /\
    s = document_store.relevance_of_distance 3%float /\
    PrimFloat.ltb s 0 = true.
Proof.
  eexists _, _, _. split; [exact search_documents_far_sample|].
  repeat split; vm_compute; reflexivity.
Qed.

(** ** Strings *)

Lemma string_app_cons (c : ascii) (s t : string) : String c s +:+ t = String c (s +:+ t).
Proof. reflexivity. Qed.

Lemma string_app_assoc (s t u : string) : (s +:+ t) +:+ u = s +:+ t +:+ u.
Proof. induction s as [|c s IH]; [done|]. by rewrite !string_app_cons, IH. Qed.

Lemma string_app_nil_r (s : string) : s +:+ EmptyString = s.
Proof. induction s as [|c s IH]; [done|]. by rewrite string_app_cons, IH. Qed.




(** ** Characters *)

Lemma unchars_cons (c : string) (cs : list string) : unchars (c :: cs) = c +:+ unchars cs.
Proof. reflexivity. Qed.

Lemma unchars_app (l1 l2 : list string) : unchars (l1 ++ l2) = unchars l1 +:+ unchars l2.
Proof.
  induction l1 as [|c l1 IH]; [done|].
  cbn [app]. by rewrite !unchars_cons, IH, string_app_assoc.
Qed.

Lemma unchars_chars (s : string) : unchars (chars s) = s.
Proof.
  induction s as [|b s IH]; simpl; [done|].
  destruct (chars s) as [|[|b' c] cs]; simpl in *.
  - by rewrite <- IH.
  - by rewrite <- IH.
  - destruct (is_continuation b'); simpl; by rewrite <- IH.
Qed.

Lemma chars_wf (s : string) : Forall is_char (chars s) /\ Forall headed (tail (chars s)).
Proof.
  induction s as [|b s [Hc Hh]]; simpl; [by split|].
  destruct (chars s) as [|[|b' c] cs]; simpl in *.
  - split; [by repeat constructor|done].
  - by apply Forall_cons in Hc as [[] _].
  - apply Forall_cons in Hc as [Hc Hcs]. destruct (is_continuation b') eqn:Hb.
    + split; [|done]. constructor; [|done]. simpl. by rewrite Hb.
    + split; [by repeat constructor|]. simpl. by constructor.
Qed.

Lemma chars_cons (b : ascii) (s : string) :
  chars (String b s)
  = match chars s with
    | String b' c :: cs =>
        if is_continuation b' then String b (String b' c) :: cs
        else String b EmptyString :: String b' c :: cs
    | cs => String b EmptyString :: cs
    end.
Proof. reflexivity. Qed.

Lemma chars_first (b : ascii) (t : string) :
  exists c cs, chars (String b t) = String b c :: cs.
Proof.
  rewrite chars_cons. destruct (chars t) as [|[|b3 c3] cs3]; eauto.
  destruct (is_continuation b3); eauto.
Qed.

Lemma chars_byte_app (b : ascii) (t : string) :
  starts_char t -> chars (String b t) = String b EmptyString :: chars t.
Proof.
  intros Ht. rewrite chars_cons. destruct t as [|b2 t]; [done|]. simpl in Ht.
  destruct (chars_first b2 t) as (c & cs & ->). by rewrite Ht.
Qed.

Lemma chars_run (r t : string) :
  r <> EmptyString -> continuation_run r = true -> starts_char t ->
  chars (r +:+ t) = r :: chars t.
Proof.
  induction r as [|b r IH]; [done|]. intros _ Hr Ht. simpl in Hr.
  apply andb_prop in Hr as [Hb Hr]. rewrite string_app_cons. destruct r as [|b' r].
  - by apply chars_byte_app.
  - rewrite chars_cons, IH; [|done..]. simpl in Hr.
    apply andb_prop in Hr as [Hb' _]. by rewrite Hb'.
Qed.

Lemma chars_char_app (c t : string) :
  is_char c -> starts_char t -> chars (c +:+ t) = c :: chars t.
Proof.
  destruct c as [|b r]; [done|]. intros Hr Ht. simpl in Hr.
  rewrite string_app_cons. destruct r as [|b' r].
  - by apply chars_byte_app.
  - rewrite chars_cons, chars_run; [|done..]. simpl in Hr.
    apply andb_prop in Hr as [Hb' _]. by rewrite Hb'.
Qed.

Lemma unchars_starts (cs : list string) : Forall headed cs -> starts_char (unchars cs).
Proof.
  destruct cs as [|[|b c] cs]; [done| |]; intros Hh; apply Forall_cons in Hh as [Hh _]; done.
Qed.

(** Cutting a string into characters undoes joining characters. *)
Lemma chars_unchars (cs : list string) :
  Forall is_char cs -> Forall headed (tail cs) -> chars (unchars cs) = cs.
Proof.
  induction cs as [|c cs IH]; [done|]. intros Hc Hh. simpl in Hh.
  apply Forall_cons in Hc as [Hc Hcs].
  change (unchars (c :: cs)) with (c +:+ unchars cs).
  rewrite chars_char_app; [|done|by apply unchars_starts].
  f_equal. apply IH; [done|]. destruct cs; [done|]. by apply Forall_cons in Hh as [_ ?].
Qed.

Lemma wf_app (l1 l2 : list string) :
  Forall is_char (l1 ++ l2) -> Forall headed (tail (l1 ++ l2)) ->
  (Forall is_char l1 /\ Forall headed (tail l1)) /\
  (Forall is_char l2 /\ Forall headed (tail l2)).
Proof.
  intros Hc Hh. apply Forall_app in Hc as [Hc1 Hc2]. destruct l1 as [|c l1]; simpl in *.
  - done.
  - apply Forall_app in Hh as [Hh1 Hh2]. repeat split; try done.
    destruct l2; [done|]. by apply Forall_cons in Hh2 as [_ ?].
Qed.

(** A run of the characters of a string is the characters of the run. *)
Lemma chars_app_inv (s : string) (l1 l2 : list string) :
  chars s = l1 ++ l2 ->
  s = unchars l1 +:+ unchars l2 /\ chars (unchars l1) = l1 /\ chars (unchars l2) = l2.
Proof.
  intros Hs. pose proof (chars_wf s) as [Hc Hh]. rewrite Hs in Hc, Hh.
  destruct (wf_app l1 l2 Hc Hh) as [[? ?] [? ?]].
  split; [by rewrite <- unchars_app, <- Hs, unchars_chars|].
  split; by apply chars_unchars.
Qed.




Lemma all_chars_unchars (p : string -> bool) (s : string) (l1 l2 : list string) :
  chars s = l1 ++ l2 ->
  all_chars p (unchars l1) = forallb p l1 /\ all_chars p (unchars l2) = forallb p l2.
Proof.
  intros Hs. destruct (chars_app_inv s l1 l2 Hs) as (_ & H1 & H2).
  unfold all_chars. by rewrite H1, H2.
Qed.

(** ** Stripping *)

Lemma lstrip_by_split (p : string -> bool) (cs : list string) :
  exists q, cs = q ++ lstrip_by p cs /\ forallb p q = true.
Proof.
  induction cs as [|c cs (q & Hq & Hall)]; cbn [lstrip_by].
  - by exists [].
  - destruct (p c) eqn:Hc.
    + exists (c :: q). cbn [app forallb]. rewrite <- Hq, Hc, Hall. done.
    + by exists [].
Qed.

Lemma rstrip_by_split (p : string -> bool) (cs : list string) :
  exists q, cs = rstrip_by p cs ++ q /\ forallb p q = true.
Proof.
  induction cs as [|c cs (q & Hq & Hall)]; cbn [rstrip_by].
  - by exists [].
  - destruct (rstrip_by p cs) as [|d t] eqn:Hr.
    + simpl in Hq. subst cs. destruct (p c) eqn:Hc.
      * exists (c :: q). cbn [app forallb]. by rewrite Hc, Hall.
      * by exists q.
    + exists q. split; [|done]. by rewrite <- app_comm_cons, <- Hq.
Qed.


Lemma lstrip_by_head (p : string -> bool) (cs : list string) :
  lstrip_by p cs = [] \/ exists c t, lstrip_by p cs = c :: t /\ p c = false.
Proof.
  induction cs as [|c cs IH]; cbn [lstrip_by]; [by left|].
  destruct (p c) eqn:Hc; [exact IH|right; by exists c, cs].
Qed.

Lemma lstrip_by_fixed (p : string -> bool) (c : string) (t : list string) :
  p c = false -> lstrip_by p (c :: t) = c :: t.
Proof. intros Hc. cbn [lstrip_by]. by rewrite Hc. Qed.

Lemma rstrip_by_head (p : string -> bool) (c : string) (t : list string) :
  p c = false -> exists u, rstrip_by p (c :: t) = c :: u.
Proof.
  intros Hc. cbn [rstrip_by]. destruct (rstrip_by p t) as [|d u].
  - rewrite Hc. by exists [].
  - by exists (d :: u).
Qed.

Lemma rstrip_by_idemp (p : string -> bool) (cs : list string) :
  rstrip_by p (rstrip_by p cs) = rstrip_by p cs.
Proof.
  induction cs as [|c cs IH]; cbn [rstrip_by]; [done|].
  destruct (rstrip_by p cs) as [|d u] eqn:Hr.
  - destruct (p c) eqn:Hc; [done|]. cbn [rstrip_by]. by rewrite Hc.
  - cbn [rstrip_by] in *. by rewrite IH.
Qed.

(** What [strip] returns has nothing left to strip. *)
Lemma strip_by_idemp (p : string -> bool) (s : string) :
  strip_by p (strip_by p s) = strip_by p s.
Proof.
  destruct (lstrip_by_split p (chars s)) as (l1 & H1 & _).
  destruct (rstrip_by_split p (lstrip_by p (chars s))) as (l2 & H2 & _).
  rewrite H2 in H1.
  destruct (chars_app_inv s _ _ H1) as (_ & _ & Hc2).
  destruct (chars_app_inv _ _ _ Hc2) as (_ & Hc3 & _).
  unfold strip_by. rewrite Hc3. f_equal.
  destruct (lstrip_by_head p (chars s)) as [->|(c & t & -> & Hc)]; [done|].
  destruct (rstrip_by_head p c t Hc) as (u & Hu). rewrite Hu.
  rewrite (lstrip_by_fixed p c u Hc). rewrite <- Hu. apply rstrip_by_idemp.
Qed.

(** ** Splitting at whitespace *)



(** Every run [split_from] returns is a run of the characters it read. *)
Lemma split_from_runs (cur : option (list string)) (cs token : list string) :
  token ∈ split_from cur cs ->
  exists l1 l2, default [] cur ++ cs = l1 ++ token ++ l2.
Proof.
  revert cur. induction cs as [|c cs IH]; intros cur; cbn [split_from].
  - destruct cur as [t|]; [|by intros ?%elem_of_nil].
    intros ->%list_elem_of_singleton. exists [], []. simpl. by rewrite !app_nil_r.
  - destruct (isspace c).
    + destruct cur as [t|]; simpl.
      * intros [->|Hin]%elem_of_cons; [by exists [], (c :: cs)|].
        destruct (IH None Hin) as (l1 & l2 & Hcs). simpl in Hcs.
        exists (t ++ c :: l1), l2. rewrite Hcs. by rewrite <- !app_assoc.
      * intros Hin. destruct (IH None Hin) as (l1 & l2 & Hcs). simpl in *.
        exists (c :: l1), l2. by rewrite Hcs.
    + intros Hin. destruct (IH _ Hin) as (l1 & l2 & Hcs). simpl in Hcs.
      exists l1, l2. rewrite <- Hcs. by rewrite <- app_assoc.
Qed.

Lemma split_from_nonspace (cur : option (list string)) (cs : list string) :
  (forall t, cur = Some t -> t <> [] /\ forallb (fun c => negb (isspace c)) t = true) ->
  Forall (fun t => t <> [] /\ forallb (fun c => negb (isspace c)) t = true)
         (split_from cur cs).
Proof.
  revert cur. induction cs as [|c cs IH]; intros cur Hcur; cbn [split_from].
  - destruct cur as [t|]; [|done]. apply Forall_singleton. by apply Hcur.
  - destruct (isspace c) eqn:Hc.
    + destruct cur as [t|]; [constructor; [by apply Hcur|]|]; by apply IH.
    + apply IH. intros t [= <-]. split; [by destruct (default [] cur)|].
      rewrite forallb_app. cbn [forallb]. rewrite Hc. cbn [negb andb].
      destruct cur as [t|]; [|done]. simpl. by rewrite (proj2 (Hcur t eq_refl)).
Qed.

Lemma split_tokens (s : string) : Forall is_token (split s).
Proof.
  unfold split. apply Forall_fmap, Forall_forall. intros tok Htok.
  pose proof (split_from_nonspace None (chars s)) as Hall.
  rewrite Forall_forall in Hall. destruct (Hall ltac:(done) tok Htok) as [Hne Hns].
  apply split_from_runs in Htok as (l1 & l2 & Hcs). simpl in Hcs.
  destruct (chars_app_inv s _ _ Hcs) as (_ & _ & Hc).
  destruct (chars_app_inv _ _ _ Hc) as (_ & Hc' & _).
  split; [|unfold all_chars; by rewrite Hc'].
  intros E. rewrite E in Hc'. by rewrite <- Hc' in Hne.
Qed.

(** ** Schema repair *)

Lemma split_once_shape (sep s : string) :
  split_once sep s = [s] \/ exists before after, split_once sep s = [before; after].
Proof.
  induction s as [|c s IH]; cbn [split_once].
  - destruct (drop_prefix sep EmptyString); [right; eauto|by left].
  - destruct (drop_prefix sep (String c s)); [right; eauto|].
    destruct IH as [->|(b & a & ->)]; [by left|right; eauto].
Qed.

Lemma index_first {A} (x : A) (l : list A) : index (x :: l) 0 = Ok x.
Proof. by apply (index_lookup (x :: l) 0 x). Qed.

Lemma index_empty {A} (i : Z) : exists e, index ([] : list A) i = Raise e /\ exn_class_of e = IndexError.
Proof.
  unfold index. cbn [length]. destruct ((0 <=? _) && (_ <? _)) eqn:E.
  - apply andb_prop in E as [E1 E2]. apply Z.leb_le in E1. apply Z.ltb_lt in E2.
    destruct (0 <=? i) eqn:Ei; lia.
  - eauto.
Qed.

Section SchemaRepair.
Context {F : Type} `{PyFloat F} {U : Unicode}.
Import document_store.



End SchemaRepair.


(** Names outside ASCII: [isalnum] accepts the letter U+00E9 and the
    superscript U+00B2, and the no-break space U+00A0 ends the token. *)
Lemma schema_repair_latin1_sample :
  document_store._try_repair_collection_schema (samples.sample_store [])
    (Exn OperationalError ("no such column: tabl" +:+ chr 233 +:+ "." +:+ chr 178
                           +:+ "col" +:+ chr 160 +:+ "x"))
  = (Ok true, ["ALTER TABLE tabl" +:+ chr 233 +:+ " ADD COLUMN " +:+ chr 178
               +:+ "col TEXT"]).
Proof. vm_compute. reflexivity. Qed.

(** The repair on the error message SQLite gives for a missing column. *)
Lemma schema_repair_sample :
  document_store._try_repair_collection_schema (samples.sample_store [])
    (Exn OperationalError "no such column: collections.topic")
  = (Ok true, ["ALTER TABLE collections ADD COLUMN topic TEXT"%string]) /\
  document_store._try_repair_collection_schema (samples.sample_store [])
    (Exn OperationalError "no such column: collections.topic; DROP TABLE x")
  = (Ok false, []) /\
  document_store._try_repair_collection_schema (samples.sample_store [])
    (Exn OperationalError "database is locked")
  = (Ok false, []).
Proof. repeat split; vm_compute; reflexivity. Qed.

(* ===================================================================== *)
(** * Part III.  Further properties of the embedded code                  *)
(* ===================================================================== *)

(** ** Hybrid search *)

Lemma before_cons_inv {A} (a b x : A) (l : list A) :
  before a b (x :: l) -> (a = x /\ b ∈ l) \/ before a b l.
Proof.
  intros Hb. apply (before_middle a b x [] l) in Hb as [?|[[_ Hin]|?]]; auto.
  by apply elem_of_nil in Hin.
Qed.

Lemma before_sublist {A} (a b : A) (l1 l2 : list A) :
  l1 `sublist_of` l2 -> before a b l1 -> before a b l2.
Proof.
  induction 1 as [|x l1 l2 Hsub IH|x l1 l2 Hsub IH]; intros Hb.
  - destruct Hb as (k1 & k2 & k3 & Heq). by destruct k1.
  - apply before_cons_inv in Hb as [[-> Hin]|Hb].
    + apply before_head. by apply (sublist_subseteq _ _ Hsub).
    + by apply before_cons, IH.
  - by apply before_cons, IH.
Qed.

Lemma slice_to_sublist {A} (n : Z) (l : list A) : slice_to n l `sublist_of` l.
Proof. unfold slice_to. destruct (0 <=? n); apply sublist_take. Qed.

Lemma dict_set_NoDup {V} (d : dict V) (k : Z) (v : V) :
  NoDup (map fst d) -> NoDup (map fst (dict_set d k v)).
Proof.
  intros Hnd. destruct (dict_get d k) as [v0|] eqn:Hget.
  - by rewrite (dict_set_keys_present d k v v0 Hget).
  - rewrite (dict_set_absent d k v Hget), map_app. simpl.
    apply NoDup_app. split; [done|]. split; [|apply NoDup_singleton].
    intros x Hx Hx'. apply list_elem_of_singleton in Hx'. subst x.
    by apply dict_get_None in Hget.
Qed.

Section HybridSearchFacts.
Context {F : Type} `{PyFloat F} {U : Unicode}.
Import document_store.

Lemma combine_results_inv (hash : string -> Z)
    (semantic_results keyword_docs : list (Document F)) :
  combine_inv hash semantic_results keyword_docs
    (combine_results hash semantic_results keyword_docs).
Proof.
  unfold combine_results.
  set (f := fun (all_docs : dict (Document F)) doc =>
              dict_set all_docs (hash (page_content doc)) doc).
  (* the first loop *)
  assert (Hsem : forall done todo acc,
            semantic_results = done ++ todo ->
            (NoDup (map fst acc) /\
             (forall key doc, (key, doc) ∈ acc ->
                key = hash (page_content doc) /\ doc ∈ done) /\
             (forall s, s ∈ done -> hash (page_content s) ∈ map fst acc)) ->
            let acc' := fold_left f todo acc in
            NoDup (map fst acc') /\
            (forall key doc, (key, doc) ∈ acc' ->
               key = hash (page_content doc) /\ doc ∈ semantic_results) /\
            (forall s, s ∈ semantic_results -> hash (page_content s) ∈ map fst acc')).
  { intros done todo. revert done. induction todo as [|x todo IH]; intros done acc Heq.
    - rewrite app_nil_r in Heq. subst done. simpl. done.
    - intros (Hnd & Hval & Hkeys). simpl. apply (IH (done ++ [x])).
      { by rewrite <- app_assoc. }
      split; [by apply dict_set_NoDup|]. split.
      + intros key doc Hin. unfold f in Hin. apply dict_set_elem in Hin as [Hin|Heq'].
        * destruct (Hval key doc Hin). split; [done|]. apply elem_of_app. by left.
        * injection Heq' as -> ->. split; [done|]. apply elem_of_app. right.
          apply list_elem_of_here.
      + intros s Hs. unfold f. apply elem_of_app in Hs as [Hs|Hs].
        * specialize (Hkeys s Hs).
          destruct (dict_get acc (hash (page_content x))) as [v0|] eqn:Hget.
          -- by rewrite (dict_set_keys_present _ _ _ _ Hget).
          -- rewrite (dict_set_absent _ _ _ Hget), map_app. apply elem_of_app. by left.
        * apply list_elem_of_singleton in Hs. subst s.
          apply list_elem_of_fmap. exists (hash (page_content x), x). split; [done|].
          apply dict_get_Some_elem, dict_get_set_eq. }
  specialize (Hsem [] semantic_results [] eq_refl).
  destruct Hsem as (Hnd0 & Hval0 & Hkeys0).
  { split; [apply NoDup_nil_2|]. split.
    - intros key doc Hin. by apply elem_of_nil in Hin.
    - intros s Hs. by apply elem_of_nil in Hs. }
  set (D0 := fold_left f semantic_results []) in *.
  (* the second loop *)
  set (g := fun (all_docs : dict (Document F)) doc =>
              match dict_get all_docs (hash (page_content doc)) with
              | Some _ => all_docs
              | None => dict_set all_docs (hash (page_content doc)) doc
              end).
  assert (Hkw : forall done todo acc,
            keyword_docs = done ++ todo ->
            (combine_inv hash semantic_results done acc /\
             (forall key, key ∈ map fst D0 -> key ∈ map fst acc)) ->
            combine_inv hash semantic_results keyword_docs (fold_left g todo acc)).
  { intros done todo. revert done. induction todo as [|x todo IH]; intros done acc Heq.
    - rewrite app_nil_r in Heq. subst done. simpl. by intros [? _].
    - intros ((Hnd & Hkey & Hsrc) & Hmono). simpl. apply (IH (done ++ [x])).
      { by rewrite <- app_assoc. }
      unfold g. destruct (dict_get acc (hash (page_content x))) as [v0|] eqn:Hget.
      + split; [|done]. split; [done|]. split; [done|].
        intros key doc Hin. destruct (Hsrc key doc Hin) as [?|[? ?]]; [by left|right].
        split; [|done]. apply elem_of_app. by left.
      + split.
        * split; [by apply dict_set_NoDup|]. split.
          -- intros key doc Hin. apply dict_set_elem in Hin as [Hin|Heq'].
             ++ by apply Hkey.
             ++ by injection Heq' as -> ->.
          -- intros key doc Hin. apply dict_set_elem in Hin as [Hin|Heq'].
             ++ destruct (Hsrc key doc Hin) as [?|[? ?]]; [by left|right].
                split; [|done]. apply elem_of_app. by left.
             ++ injection Heq' as -> ->. right. split.
                { apply elem_of_app. right. apply list_elem_of_here. }
                intros s Hs Heq'. apply dict_get_None in Hget. apply Hget.
                apply Hmono. rewrite <- Heq'. by apply Hkeys0.
        * intros key Hin. rewrite (dict_set_absent _ _ _ Hget), map_app.
          apply elem_of_app. left. by apply Hmono. }
  apply (Hkw [] keyword_docs D0 eq_refl). split; [|done].
  split; [done|]. split.
  - intros key doc Hin. by destruct (Hval0 key doc Hin).
  - intros key doc Hin. left. by destruct (Hval0 key doc Hin).
Qed.

(** Without a cached answer, [hybrid_search] is the sorted, filtered and
    truncated combination of its two branches. *)
Lemma hybrid_search_uncached (hash : string -> Z) (self : DocumentStore)
    (query_text collection_name : string) (filters : option (gmap string filter_value))
    (top_k : Z) (min_relevance : F) (use_cache : bool) (docs : list (Document F)) :
  (forall cached,
     (if use_cache then cache_get self (optimize_query query_text) else None) = Some cached ->
     cached = []) ->
  hybrid_search hash self query_text collection_name filters top_k min_relevance use_cache
  = Ok docs ->
  exists semantic_results,
    search_documents self (optimize_query query_text) collection_name filters (top_k * 2) 0
    = Ok semantic_results /\
    docs = slice_to top_k
             (filter (fun doc => fleb min_relevance (relevance_key doc) = true)
                (sorted_desc relevance_key
                   (map snd (combine_results hash semantic_results
                               (keyword_branch self query_text collection_name filters))))).
Proof.
  intros Hcache. unfold hybrid_search.
  destruct (if use_cache then cache_get self (optimize_query query_text) else None)
    as [[|c cs]|] eqn:Hc.
  - destruct (search_documents _ _ _ _ _ _) as [sem|e]; simpl; [|discriminate].
    intros [= <-]. by exists sem.
  - by specialize (Hcache _ eq_refl).
  - destruct (search_documents _ _ _ _ _ _) as [sem|e]; simpl; [|discriminate].
    intros [= <-]. by exists sem.
Qed.

(** X1.  Without a cached answer, [hybrid_search] returns at most [top_k]
    documents (for a [top_k] that is not negative), each with a relevance
    score that is not below [min_relevance], and no two with the same
    content hash. *)
Theorem hybrid_search_filtered_top_k (hash : string -> Z) (self : DocumentStore)
    (query_text collection_name : string) (filters : option (gmap string filter_value))
    (top_k : Z) (min_relevance : F) (use_cache : bool) (docs : list (Document F)) :
  0 <= top_k ->
  (forall cached,
     (if use_cache then cache_get self (optimize_query query_text) else None) = Some cached ->
     cached = []) ->
  hybrid_search hash self query_text collection_name filters top_k min_relevance use_cache
  = Ok docs ->
  Z.of_nat (length docs) <= top_k /\
  Forall (fun doc => fleb min_relevance (relevance_key doc) = true) docs /\
  NoDup (map (fun doc => hash (page_content doc)) docs).
Proof.
  intros Hk Hcache Hrun.
  destruct (hybrid_search_uncached _ _ _ _ _ _ _ _ _ Hcache Hrun) as (sem & _ & ->).
  split; [by apply slice_to_length_bound|]. split.
  - apply Forall_forall. intros doc Hdoc.
    apply (sublist_subseteq _ _ (slice_to_sublist _ _)) in Hdoc.
    by apply list_elem_of_filter in Hdoc as [? _].
  - destruct (combine_results_inv hash sem
                (keyword_branch self query_text collection_name filters))
      as (Hnd & Hkey & _).
    set (all_docs := combine_results _ _ _) in *.
    assert (map (fun doc => hash (page_content doc)) (map snd all_docs) = map fst all_docs)
      as Hkeys.
    { rewrite <- list_fmap_compose. apply Forall_fmap_ext_1, Forall_forall.
      intros [key doc] Hin. simpl. symmetry. by apply Hkey. }
    eapply sublist_NoDup; [|apply fmap_sublist, slice_to_sublist].
    eapply sublist_NoDup; [|apply fmap_sublist, sublist_filter].
    rewrite (sorted_desc_perm relevance_key (map snd all_docs)).
    rewrite <- Hkeys in Hnd. exact Hnd.
Qed.

(** X2.  Without a cached answer, every document [hybrid_search] returns
    is a result of the semantic search, or a document of the keyword branch
    whose content hash no result of the semantic search has: where both
    branches find a content, the semantic result is the one kept. *)
Theorem hybrid_search_semantic_first (hash : string -> Z) (self : DocumentStore)
    (query_text collection_name : string) (filters : option (gmap string filter_value))
    (top_k : Z) (min_relevance : F) (use_cache : bool) (docs : list (Document F)) :
  (forall cached,
     (if use_cache then cache_get self (optimize_query query_text) else None) = Some cached ->
     cached = []) ->
  hybrid_search hash self query_text collection_name filters top_k min_relevance use_cache
  = Ok docs ->
  exists semantic_results,
    search_documents self (optimize_query query_text) collection_name filters (top_k * 2) 0
    = Ok semantic_results /\
    forall doc, doc ∈ docs ->
      doc ∈ semantic_results \/
      (doc ∈ keyword_branch self query_text collection_name filters /\
       forall s, s ∈ semantic_results ->
         hash (page_content s) <> hash (page_content doc)).
Proof.
  intros Hcache Hrun.
  destruct (hybrid_search_uncached _ _ _ _ _ _ _ _ _ Hcache Hrun) as (sem & Hsem & ->).
  exists sem. split; [done|]. intros doc Hdoc.
  apply (sublist_subseteq _ _ (slice_to_sublist _ _)) in Hdoc.
  apply list_elem_of_filter in Hdoc as [_ Hdoc].
  apply (proj1 (sorted_desc_elem relevance_key _ _)) in Hdoc.
  apply list_elem_of_fmap in Hdoc as ([key d] & -> & Hin). simpl.
  destruct (combine_results_inv hash sem
              (keyword_branch self query_text collection_name filters))
    as (_ & Hkey & Hsrc).
  destruct (Hsrc key d Hin) as [?|[? Hno]]; [by left|right].
  split; [done|]. intros s Hs. rewrite <- (Hkey key d Hin). by apply Hno.
Qed.

Section HybridOrder.
Variable comparable : F -> Prop.
Hypothesis fltb_asym : forall x y,
  comparable x -> comparable y -> fltb x y = true -> fltb y x = false.
Hypothesis fltb_negtrans : forall x y z,
  comparable x -> comparable y -> comparable z ->
  fltb x y = false -> fltb y z = false -> fltb x z = false.

(** X3.  Without a cached answer, and with relevance scores that the
    comparison orders (for binary64: none is NaN), [hybrid_search] returns
    its documents in descending order of relevance score: no document has a
    smaller score than a later one. *)
Theorem hybrid_search_sorted (hash : string -> Z) (self : DocumentStore)
    (query_text collection_name : string) (filters : option (gmap string filter_value))
    (top_k : Z) (min_relevance : F) (use_cache : bool)
    (semantic_results docs : list (Document F)) :
  (forall cached,
     (if use_cache then cache_get self (optimize_query query_text) else None) = Some cached ->
     cached = []) ->
  search_documents self (optimize_query query_text) collection_name filters (top_k * 2) 0
  = Ok semantic_results ->
  Forall (fun doc => comparable (relevance_key doc)) semantic_results ->
  Forall (fun doc => comparable (relevance_key doc))
         (keyword_branch self query_text collection_name filters) ->
  hybrid_search hash self query_text collection_name filters top_k min_relevance use_cache
  = Ok docs ->
  forall (i j : nat) di dj,
    docs !! i = Some di -> docs !! j = Some dj -> (i < j)%nat ->
    fltb (relevance_key di) (relevance_key dj) = false.
Proof.
  intros Hcache Hsem Hcs Hck Hrun i j di dj Hi Hj Hlt.
  destruct (hybrid_search_uncached _ _ _ _ _ _ _ _ _ Hcache Hrun) as (sem & Hsem' & ->).
  assert (sem = semantic_results) as -> by congruence.
  pose proof (before_lookup _ _ _ _ _ Hi Hj Hlt) as Hb.
  apply (before_sublist _ _ _ _ (slice_to_sublist _ _)) in Hb.
  apply (before_sublist _ _ _ _ (sublist_filter _ _)) in Hb.
  apply (sorted_desc_sorted relevance_key comparable fltb_asym fltb_negtrans _ _ _) in Hb;
    [done|].
  apply Forall_forall. intros doc Hdoc.
  apply (combine_results_elem hash) in Hdoc as [Hdoc|Hdoc].
  - rewrite Forall_forall in Hcs. by apply Hcs.
  - rewrite Forall_forall in Hck. by apply Hck.
Qed.

End HybridOrder.

End HybridSearchFacts.

(** ** Pagination of [search_documents] *)

(** A loop whose body appends one item per element. *)
Lemma for_each_append {X Y} (body : list Y -> X -> res (list Y)) (P : X -> Y -> Prop)
    (xs : list X) (acc : list Y) :
  (forall x, x ∈ xs -> exists y, P x y /\ forall acc, body acc x = Ok (acc ++ [y])) ->
  exists ys, for_each body xs acc = Ok (acc ++ ys) /\ Forall2 P xs ys.
Proof.
  revert acc. induction xs as [|x xs IH]; intros acc Hbody; simpl.
  - exists []. by rewrite app_nil_r.
  - destruct (Hbody x (list_elem_of_here _ _)) as (y & Hy & ->). simpl.
    destruct (IH (acc ++ [y])) as (ys & -> & Hys).
    { intros x' Hx'. apply Hbody. by apply list_elem_of_further. }
    exists (y :: ys). split; [by rewrite <- app_assoc|]. by constructor.
Qed.

Lemma range_lookup (a b : Z) (n : nat) (i : Z) :
  range a b !! n = Some i <-> i = a + Z.of_nat n /\ a + Z.of_nat n < b.
Proof.
  unfold range. rewrite list_lookup_fmap. split.
  - destruct (seq 0 (Z.to_nat (b - a)) !! n) as [j|] eqn:Hj; [|discriminate].
    apply lookup_seq in Hj as [-> Hlt]. simpl. intros [= <-]. lia.
  - intros [-> Hlt]. rewrite (lookup_seq_lt 0 (Z.to_nat (b - a)) n) by lia. done.
Qed.

Lemma range_length (a b : Z) : length (range a b) = Z.to_nat (b - a).
Proof. unfold range. by rewrite length_map, length_seq. Qed.

Lemma index_nonneg {A} (l : list A) (i : Z) :
  0 <= i < Z.of_nat (length l) -> exists x, index l i = Ok x /\ l !! Z.to_nat i = Some x.
Proof.
  intros Hi. destruct (lookup_lt_is_Some_2 l (Z.to_nat i)) as [x Hx]; [lia|].
  exists x. split; [|done]. rewrite <- (Z2Nat.id i) by lia. by apply index_lookup.
Qed.

Section SearchPage.
Context {F : Type} `{PyFloat F} {U : Unicode}.
Import document_store.

Lemma nested_item_covers {A} (xs : option (list (list A))) (n : nat) (i : Z) (dflt : A) :
  row_covers xs n -> 0 <= i < Z.of_nat n -> exists x, nested_item xs i dflt = Ok x.
Proof.
  intros Hrow Hi. unfold nested_item.
  destruct xs as [[|[|x row] rest]|]; eauto.
  destruct (Hrow _ _ eq_refl) as [?|Hlen]; [done|].
  destruct (index_nonneg (x :: row) i) as (y & -> & _); [lia|]. eauto.
Qed.

(** X4.  When the collection is obtained and the engine answers the first
    query with a row of documents (and rows of metadata and distances that
    are absent, empty or as long), [search_documents] with [top_k] and
    [offset] not negative returns the documents at positions [offset] to
    [offset + top_k - 1] of that row, in order, each with the engine's
    metadata for its position to which [relevance_score = 1 - distance/2]
    is added. *)
Theorem search_documents_page (self : DocumentStore) (query_text collection_name : string)
    (filters : option (gmap string filter_value)) (top_k offset : Z)
    (collection : Collection) (r : QueryResult) (first : list string)
    (rest : list (list string)) :
  0 <= top_k -> 0 <= offset ->
  _initialize_collection self collection_name = Ok collection ->
  query collection 0 query_text (top_k + offset) (where_of filters) = Ok (Some r) ->
  q_documents r = Some (first :: rest) ->
  row_covers (q_metadatas r) (length first) ->
  row_covers (q_distances r) (length first) ->
  exists docs,
    search_documents self query_text collection_name filters top_k offset = Ok docs /\
    map page_content docs = take (Z.to_nat top_k) (drop (Z.to_nat offset) first) /\
    forall (n : nat) doc, docs !! n = Some doc ->
      exists md d,
        nested_item (q_metadatas r) (offset + Z.of_nat n) ∅ = Ok md /\
        nested_item (q_distances r) (offset + Z.of_nat n) (of_int 1) = Ok d /\
        metadata doc = <["relevance_score" := VFloat (relevance_of_distance d)]> md.
Proof.
  intros Hk Ho Hinit Hq Hdocs Hmd Hdist.
  unfold search_documents. rewrite Hinit, Hq. unfold convert_results. rewrite Hdocs.
  set (stop := (offset + top_k) `min` Z.of_nat (length first)).
  destruct (for_each_append (convert_step r first)
              (fun i doc => exists md d,
                 first !! Z.to_nat i = Some (page_content doc) /\
                 nested_item (q_metadatas r) i ∅ = Ok md /\
                 nested_item (q_distances r) i (of_int 1) = Ok d /\
                 metadata doc = <["relevance_score" := VFloat (relevance_of_distance d)]> md)
              (range offset stop) [])
    as (docs & Hrun & Hall).
  { intros i Hi. apply list_elem_of_lookup in Hi as [n Hn].
    apply range_lookup in Hn as [-> Hlt].
    assert (0 <= offset + Z.of_nat n < Z.of_nat (length first)) as Hin by (unfold stop in Hlt; lia).
    destruct (index_nonneg first _ Hin) as (content & Hc & Hc').
    destruct (nested_item_covers (q_metadatas r) _ _ ∅ Hmd Hin) as (md & Hm).
    destruct (nested_item_covers (q_distances r) _ _ (of_int 1) Hdist Hin) as (d & Hd).
    eexists (mkDocument content _). split.
    - exists md, d. simpl. done.
    - intros acc. unfold convert_step. rewrite Hc, Hm, Hd. simpl. reflexivity. }
  simpl in Hrun. exists docs. split; [exact Hrun|]. split.
  - apply list_eq. intros n. rewrite list_lookup_fmap.
    destruct (docs !! n) as [doc|] eqn:Hn; simpl.
    + destruct (Forall2_lookup_r _ _ _ _ _ Hall Hn) as (i & Hi & md & d & Hc & _).
      apply range_lookup in Hi as [-> Hlt]. unfold stop in Hlt.
      rewrite lookup_take_lt by lia. rewrite lookup_drop.
      rewrite <- Hc. f_equal. lia.
    + apply lookup_ge_None in Hn. rewrite <- (Forall2_length _ _ _ Hall), range_length in Hn.
      unfold stop in Hn. symmetry. apply lookup_ge_None.
      rewrite length_take, length_drop. lia.
  - intros n doc Hn.
    destruct (Forall2_lookup_r _ _ _ _ _ Hall Hn) as (i & Hi & md & d & _ & ? & ? & ?).
    apply range_lookup in Hi as [-> _]. by exists md, d.
Qed.

End SearchPage.

(** ** The reranker *)

Section RerankFacts.
Context {F : Type} `{PyFloat F} {U : Unicode}.
Import reranker.

(** The loop [for doc, score in ...: reranked.append(...)] numbers its
    results from [len(reranked) + 1]. *)
Lemma append_ranked_fold (items : list (Document F * F)) (acc : list (Result F)) :
  fold_left (fun reranked '(doc, s) => append_ranked reranked doc s) items acc
  = acc ++ imap (fun i '(doc, s) =>
                   mkResult doc (Some (VFloat s))
                            (Some (VInt (Z.of_nat (length acc + i) + 1)))) items.
Proof.
  revert acc. induction items as [|[doc s] items IH]; intros acc; simpl.
  - by rewrite app_nil_r.
  - rewrite IH. unfold append_ranked. rewrite <- app_assoc. simpl.
    rewrite Nat.add_0_r. do 2 f_equal. apply imap_ext. intros i [d x] _. simpl.
    rewrite length_app. simpl. do 4 f_equal. lia.
Qed.

Lemma original_order_lookup (documents : list (Document F)) (top_k : Z) (i : nat)
    (r : Result F) :
  original_order documents top_k !! i = Some r ->
  exists doc, slice_to top_k documents !! i = Some doc /\
    r = mkResult doc (Some (default (VFloat half) (metadata doc !! "relevance_score")))
                 (Some (VInt (Z.of_nat i + 1))).
Proof.
  unfold original_order, enumerate. rewrite list_lookup_fmap, list_lookup_imap.
  destruct (slice_to top_k documents !! i) as [doc|]; simpl; [|discriminate].
  intros [= <-]. by exists doc.
Qed.

(** The loop over [results.results]. *)
Lemma cohere_loop_lookup (documents : list (Document F)) (items : list RerankItem)
    (acc out : list (Result F)) :
  for_each (fun reranked result =>
              doc ← index documents (item_index result);
              Ok (append_ranked reranked doc (relevance_score result)))
           items acc = Ok out ->
  exists new, out = acc ++ new /\ length new = length items /\
    forall (i : nat) r, new !! i = Some r ->
      exists item, items !! i = Some item /\
        index documents (item_index item) = Ok (document r) /\
        score r = Some (VFloat (relevance_score item)) /\
        rank r = Some (VInt (Z.of_nat (length acc + i) + 1)).
Proof.
  revert acc. induction items as [|item items IH]; intros acc; simpl.
  - intros [= <-]. exists []. rewrite app_nil_r. repeat split; [done..|].
    intros i r Hi. done.
  - destruct (index documents (item_index item)) as [doc|e] eqn:Hdoc; simpl; [|discriminate].
    intros Hout. destruct (IH _ Hout) as (new & -> & Hlen & Hnew).
    exists (mkResult doc (Some (VFloat (relevance_score item)))
                     (Some (VInt (Z.of_nat (length acc) + 1))) :: new).
    unfold append_ranked. rewrite <- app_assoc. split; [done|].
    split; [simpl; by rewrite Hlen|].
    intros [|i] r Hi; simpl in Hi.
    + injection Hi as <-. exists item. simpl. rewrite Nat.add_0_r. done.
    + destruct (Hnew i r Hi) as (it & ? & ? & ? & Hr). exists it. simpl.
      repeat split; try done. rewrite Hr. unfold append_ranked. rewrite length_app. simpl.
      do 3 f_equal. lia.
Qed.

(** X5.  Whatever strategy runs and however it ends, every result of
    [Reranker.rerank] holds one of the input documents, the result at
    position [i] has rank [i + 1], and every result has a score. *)
Theorem rerank_results_from_input (self : Reranker) (query : string)
    (documents : list (Document F)) (top_k : Z) :
  forall (i : nat) r,
    rerank self query documents top_k !! i = Some r ->
    document r ∈ documents /\ rank r = Some (VInt (Z.of_nat i + 1)) /\ is_Some (score r).
Proof.
  assert (Hfallback : forall (i : nat) r,
            original_order documents top_k !! i = Some r ->
            document r ∈ documents /\ rank r = Some (VInt (Z.of_nat i + 1))
            /\ is_Some (score r)).
  { intros i r Hi. apply original_order_lookup in Hi as (doc & Hdoc & ->). simpl.
    split; [|split; [done|by eexists]].
    apply (sublist_subseteq _ _ (slice_to_sublist top_k documents)).
    by eapply list_elem_of_lookup_2. }
  intros i r. unfold rerank. destruct documents as [|d ds] eqn:Hdocs; [done|].
  rewrite <- Hdocs in *. clear Hdocs.
  destruct (use_local self && _).
  - unfold _rerank_local.
    destruct (cross_encoder self) as [predict|]; simpl; [|apply Hfallback].
    destruct (predict _) as [scores|e]; simpl; [|apply Hfallback].
    rewrite append_ranked_fold. simpl. rewrite list_lookup_imap.
    destruct (slice_to top_k _ !! i) as [[doc s]|] eqn:Hi; simpl; [|discriminate].
    intros [= <-]. simpl. split; [|split; [done|by eexists]].
    apply list_elem_of_lookup_2 in Hi.
    apply (sublist_subseteq _ _ (slice_to_sublist _ _)) in Hi.
    apply (proj1 (sorted_desc_elem snd _ _)) in Hi.
    by apply elem_of_zip_l in Hi.
  - destruct (bool_decide _); [|apply Hfallback].
    unfold _rerank_cohere.
    destruct (cohere_client self) as [call|]; simpl; [|apply Hfallback].
    destruct (call _ _ _ _) as [items|e]; simpl; [|apply Hfallback].
    destruct (for_each _ items []) as [out|e] eqn:Hloop; simpl; [|apply Hfallback].
    apply cohere_loop_lookup in Hloop as (new & -> & _ & Hnew). simpl.
    intros Hi. destruct (Hnew i r Hi) as (item & _ & Hdoc & Hs & Hr).
    split; [by eapply index_elem|]. split; [done|]. rewrite Hs. by eexists.
Qed.

(** X6.  When the strategy [rerank] chooses fails (the cross-encoder
    raises; the remote service raises or names a document index out of
    range; or there is no strategy), [rerank] returns the fallback list:
    the first [top_k] input documents in their input order, each scored with
    its own [relevance_score], or 0.5 when it has none.  Results built
    before the failure are dropped. *)
Theorem rerank_failure_fallback (self : Reranker) (query : string)
    (documents : list (Document F)) (top_k : Z) :
  documents <> [] ->
  (forall predict e,
     use_local self = true -> cross_encoder self = Some predict ->
     predict (map (fun doc => (query, page_content doc)) documents) = Raise e ->
     rerank self query documents top_k = original_order documents top_k) /\
  (forall call,
     use_local self && bool_decide (is_Some (cross_encoder self)) = false ->
     cohere_client self = Some call ->
     (forall e, call (cohere_model self) query (map page_content documents) top_k = Raise e ->
        rerank self query documents top_k = original_order documents top_k) /\
     (forall items item e,
        call (cohere_model self) query (map page_content documents) top_k = Ok items ->
        item ∈ items -> index documents (item_index item) = Raise e ->
        rerank self query documents top_k = original_order documents top_k)) /\
  (use_local self && bool_decide (is_Some (cross_encoder self)) = false ->
   cohere_client self = None ->
   rerank self query documents top_k = original_order documents top_k) /\
  map document (original_order documents top_k) = slice_to top_k documents /\
  (forall r, r ∈ original_order documents top_k ->
     score r = Some (default (VFloat half) (metadata (document r) !! "relevance_score"))).
Proof.
  intros Hne. split; [|split; [|split; [|split]]].
  - intros predict e Hlocal Hce Hfail. unfold rerank.
    destruct documents as [|d ds] eqn:Hdocs; [done|]. rewrite <- Hdocs in *.
    rewrite Hlocal, Hce. rewrite bool_decide_eq_true_2 by by eexists. simpl.
    unfold _rerank_local. rewrite Hce. simpl. by rewrite Hfail.
  - intros call Hnl Hcc. split.
    + intros e Hfail. unfold rerank.
      destruct documents as [|d ds] eqn:Hdocs; [done|]. rewrite <- Hdocs in *.
      rewrite Hnl, Hcc. rewrite bool_decide_eq_true_2 by by eexists.
      unfold _rerank_cohere. rewrite Hcc. simpl. by rewrite Hfail.
    + intros items item e Hcall Hin Hidx. unfold rerank.
      destruct documents as [|d ds] eqn:Hdocs; [done|]. rewrite <- Hdocs in *.
      rewrite Hnl, Hcc. rewrite bool_decide_eq_true_2 by by eexists.
      unfold _rerank_cohere. rewrite Hcc. simpl. rewrite Hcall. simpl.
      destruct (for_each _ items []) as [out|e'] eqn:Hloop; simpl; [|done].
      exfalso. apply cohere_loop_lookup in Hloop as (new & _ & Hlen & Hnew).
      apply list_elem_of_lookup in Hin as [i Hi].
      destruct (lookup_lt_is_Some_2 new i) as [r Hr].
      { apply lookup_lt_Some in Hi. lia. }
      destruct (Hnew i r Hr) as (item' & Hi' & Hok & _). congruence.
  - intros Hnl Hcc. unfold rerank.
    destruct documents as [|d ds] eqn:Hdocs; [done|]. rewrite <- Hdocs in *.
    rewrite Hnl, Hcc. by rewrite bool_decide_eq_false_2 by by intros [? [=]].
  - apply list_eq. intros i. rewrite list_lookup_fmap.
    destruct (original_order documents top_k !! i) as [r|] eqn:Hi; simpl.
    + apply original_order_lookup in Hi as (doc & -> & ->). done.
    + apply lookup_ge_None in Hi. rewrite original_order_length in Hi.
      symmetry. by apply lookup_ge_None.
  - intros r Hr. apply list_elem_of_lookup in Hr as [i Hi].
    by apply original_order_lookup in Hi as (doc & _ & ->).
Qed.

Section RerankOrder.
Variable comparable : F -> Prop.
Hypothesis fltb_asym : forall x y,
  comparable x -> comparable y -> fltb x y = true -> fltb y x = false.
Hypothesis fltb_negtrans : forall x y z,
  comparable x -> comparable y -> comparable z ->
  fltb x y = false -> fltb y z = false -> fltb x z = false.

(** X7.  When the local cross-encoder is used and answers, every result of
    [rerank] pairs an input document with the score predicted for it, the
    results are in descending order of score (for scores the comparison
    orders), and there are [min(top_k, len(documents))] of them when [top_k]
    is not negative and the encoder gives one score per document. *)
Theorem rerank_local_order (self : Reranker) (query : string)
    (documents : list (Document F)) (top_k : Z)
    (predict : list (string * string) -> res (list F)) (scores : list F) :
  documents <> [] ->
  use_local self = true ->
  cross_encoder self = Some predict ->
  predict (map (fun doc => (query, page_content doc)) documents) = Ok scores ->
  Forall comparable scores ->
  let results := rerank self query documents top_k in
  (forall r, r ∈ results ->
     exists (p : nat) s, documents !! p = Some (document r) /\ scores !! p = Some s /\
                         score r = Some (VFloat s)) /\
  (forall (i j : nat) ri rj si sj,
     results !! i = Some ri -> results !! j = Some rj -> (i < j)%nat ->
     score ri = Some (VFloat si) -> score rj = Some (VFloat sj) ->
     fltb si sj = false) /\
  (0 <= top_k -> length scores = length documents ->
   Z.of_nat (length results) = top_k `min` Z.of_nat (length documents)).
Proof.
  intros Hne Hlocal Hce Hpred Hcmp results.
  assert (results = imap (fun i '(doc, s) =>
                            mkResult doc (Some (VFloat s)) (Some (VInt (Z.of_nat i + 1))))
                         (slice_to top_k (sorted_desc snd (zip documents scores)))) as Hres.
  { unfold results, rerank.
    destruct documents as [|d ds] eqn:Hdocs; [done|]. rewrite <- Hdocs in *.
    rewrite Hlocal, Hce. rewrite bool_decide_eq_true_2 by by eexists. simpl.
    unfold _rerank_local. rewrite Hce. simpl. rewrite Hpred. simpl.
    by rewrite append_ranked_fold. }
  clearbody results. subst results.
  set (ranked := slice_to top_k (sorted_desc snd (zip documents scores))).
  assert (Hat : forall (i : nat) r,
            imap (fun i '(doc, s) =>
                    mkResult doc (Some (VFloat s)) (Some (VInt (Z.of_nat i + 1)))) ranked
            !! i = Some r ->
            exists s, ranked !! i = Some (document r, s) /\ score r = Some (VFloat s)).
  { intros i r. rewrite list_lookup_imap.
    destruct (ranked !! i) as [[doc s]|]; simpl; [|discriminate].
    intros [= <-]. by exists s. }
  split; [|split].
  - intros r Hr. apply list_elem_of_lookup in Hr as [i Hi].
    destruct (Hat i r Hi) as (s & Hs & Hscore).
    apply list_elem_of_lookup_2 in Hs.
    apply (sublist_subseteq _ _ (slice_to_sublist _ _)) in Hs.
    apply (proj1 (sorted_desc_elem snd _ _)) in Hs.
    apply list_elem_of_lookup in Hs as [p Hp].
    apply lookup_zip_with_Some in Hp as (d & s' & [= <- <-] & ? & ?).
    by exists p, s.
  - intros i j ri rj si sj Hi Hj Hlt Hsi Hsj.
    destruct (Hat i ri Hi) as (si' & Hi' & Hsi'). destruct (Hat j rj Hj) as (sj' & Hj' & Hsj').
    assert (si' = si) as -> by congruence. assert (sj' = sj) as -> by congruence.
    pose proof (before_lookup _ _ _ _ _ Hi' Hj' Hlt) as Hb.
    apply (before_sublist _ _ _ _ (slice_to_sublist _ _)) in Hb.
    apply (sorted_desc_sorted snd comparable fltb_asym fltb_negtrans _ _ _) in Hb; [done|].
    apply Forall_forall. intros [d s] Hin. simpl. apply elem_of_zip_r in Hin.
    rewrite Forall_forall in Hcmp. by apply Hcmp.
  - intros Hk Hlen. rewrite length_imap. unfold ranked, slice_to.
    destruct (0 <=? top_k) eqn:E; [|apply Z.leb_gt in E; lia].
    rewrite length_take, sorted_desc_length, length_zip_with. lia.
Qed.

End RerankOrder.

End RerankFacts.

(** ** Query rewriter and context compressor, continued *)

Section RewriterFacts.
Context {F : Type} `{PyFloat F} {U : Unicode}.
Import query_rewriter.

(** X8.  [rewrite_if_needed] never raises.  It returns the query itself
    when the query has at least [threshold] characters or more than 50, or
    when there is no client.  In any other case it returns the query or the
    answer of the service stripped of whitespace and then of quotes, on
    which stripping the quotes again changes nothing. *)
Theorem rewrite_if_needed_cases (self : QueryRewriter) (query : string) (threshold : Z) :
  exists s,
    rewrite_if_needed self query threshold = Ok s /\
    ((threshold <= Z.of_nat (len query) \/ 50 < Z.of_nat (len query) \/
      client self = None) -> s = query) /\
    (s = query \/
     exists create response text,
       client self = Some create /\
       create (rewrite_request self query) = Ok response /\
       response !! 0%nat = Some (Some text) /\
       s = strip_chars (quote +:+ "'") (strip text) /\
       strip_chars (quote +:+ "'") s = s).
Proof.
  unfold rewrite_if_needed, rewrite.
  destruct (Z.of_nat (len query) <? threshold) eqn:Hth.
  2:{ exists query. split; [done|]. split; [done|by left]. }
  apply Z.ltb_lt in Hth.
  destruct (client self) as [create|] eqn:Hc.
  2:{ exists query. split; [done|]. split; [done|by left]. }
  destruct (50 <? Z.of_nat (len query)) eqn:Hlong.
  { exists query. split; [done|]. split; [done|by left]. }
  apply Z.ltb_ge in Hlong. eexists. split; [reflexivity|]. split.
  { intros [?|[?|?]]; [lia|lia|done]. }
  destruct (create (rewrite_request self query)) as [response|e] eqn:Hr; simpl; [|by left].
  unfold first_content_stripped.
  destruct response as [|[text|] rest]; simpl; try by left.
  right. exists create, (Some text :: rest), text. repeat split; try done.
  unfold strip_chars. by rewrite strip_by_idemp.
Qed.

End RewriterFacts.

Section CompressorFacts.
Context {F : Type} `{PyFloat F} {U : Unicode}.
Import context_compressor.

(** X9.  With a client, the document [compress] returns for an input
    document of at least 100 estimated tokens carries ['compressed': True],
    the length of the original content under ['original_length'] and the
    length of its own content under ['compressed_length']; every other
    metadata key is as in the input document. *)
Theorem compress_annotations (self : ContextCompressor) (query : string)
    (documents : list (Document F)) (i : nat) (doc doc' : Document F) :
  is_Some (client self) ->
  documents !! i = Some doc ->
  100 <= Z.of_nat (len (page_content doc)) / 4 ->
  compress self query documents !! i = Some doc' ->
  metadata doc' !! "compressed" = Some (VBool true) /\
  metadata doc' !! "original_length"
    = Some (VInt (Z.of_nat (len (page_content doc)))) /\
  metadata doc' !! "compressed_length"
    = Some (VInt (Z.of_nat (len (page_content doc')))) /\
  (forall key : string,
     key <> "compressed"%string -> key <> "original_length"%string ->
     key <> "compressed_length"%string ->
     metadata doc' !! key = metadata doc !! key).
Proof.
  intros [create Hc] Hi Hlong. rewrite compress_map, Hc, list_lookup_fmap, Hi. simpl.
  intros [= <-]. unfold compress_doc.
  destruct (_ <? 100) eqn:Hshort; [apply Z.ltb_lt in Hshort; lia|]. simpl.
  split; [|split; [|split]].
  - rewrite lookup_insert_ne by done. rewrite lookup_insert_ne by done.
    by rewrite lookup_insert_eq.
  - rewrite lookup_insert_ne by done. by rewrite lookup_insert_eq.
  - by rewrite lookup_insert_eq.
  - intros key H1 H2 H3. by rewrite !lookup_insert_ne.
Qed.

End CompressorFacts.

(** ** Outcome of the schema repair *)

Section RepairOutcome.
Context {F : Type} `{PyFloat F} {U : Unicode}.
Import document_store.

Lemma on_operational_error_cases (e : exn) :
  (on_operational_error e = Ok false /\ exn_class_of e = OperationalError) \/
  (on_operational_error e = Raise e /\ exn_class_of e <> OperationalError).
Proof. unfold on_operational_error. destruct (exn_class_of e); auto. Qed.

(** X10.  [_try_repair_collection_schema] returns [True] only when the
    database file exists, it executed exactly one statement, and [connect],
    that statement and [commit] all succeeded.  It never raises [sqlite3.OperationalError]
    (that gives [False]); an exception it raises is one of another class
    that [connect], [execute] or [commit] raised. *)
Theorem schema_repair_outcome (self : DocumentStore (F:=F)) (error : exn) :
  (fst (_try_repair_collection_schema self error) = Ok true ->
   exists statement,
     snd (_try_repair_collection_schema self error) = [statement] /\
     db_file_exists (sqlite self) = true /\
     connect (sqlite self) = Ok () /\
     execute (sqlite self) statement = Ok () /\
     commit (sqlite self) = Ok ()) /\
  (forall e,
     fst (_try_repair_collection_schema self error) = Raise e ->
     exn_class_of e <> OperationalError /\
     (connect (sqlite self) = Raise e \/
      (exists statement, execute (sqlite self) statement = Raise e) \/
      commit (sqlite self) = Raise e)).
Proof.
  unfold _try_repair_collection_schema.
  destruct (contains "no such column: " (exn_str error)); cbn [negb]; [|by split].
  assert (Hparse : forall e0 : exn,
            (match exn_class_of e0 with
             | IndexError | ValueError => (Ok false, [])
             | _ => (Raise e0, [])
             end : res bool * list string) = (Raise e0, []) ->
            parse_missing_column (exn_str error) = Raise e0 -> False).
  { intros e0 Hm. unfold parse_missing_column.
    destruct (split_once_shape "no such column: " (exn_str error))
      as [->|(before & rest & ->)].
    { unfold index. cbn. intros [= <-]. simpl in Hm. discriminate. }
    assert (index [before; rest] 1 = Ok rest) as -> by done. cbn [mbind res_bind].
    destruct (split rest) as [|token tokens].
    { destruct (@index_empty string 0) as (e' & -> & He'). intros [= <-].
      rewrite He' in Hm. discriminate. }
    rewrite index_first. cbn [mbind res_bind].
    destruct (contains "." _); cbn [negb]; [|discriminate].
    destruct (split_once "." _) as [|t [|c [|? ?]]]; intros [= <-]; simpl in Hm;
      discriminate. }
  destruct (parse_missing_column (exn_str error)) as [[[table_name column_name]|]|e0] eqn:Hp.
  - destruct (negb _ || negb _); [by split|].
    destruct (db_file_exists (sqlite self)); cbn [negb]; [|by split].
    destruct (connect (sqlite self)) as [[]|e1].
    2:{ cbn [fst snd].
        destruct (on_operational_error_cases e1) as [[-> ?]|[-> ?]]; split; try done.
        intros e [= <-]. auto. }
    destruct (execute (sqlite self) _) as [[]|e2] eqn:Hexec.
    2:{ cbn [fst snd].
        destruct (on_operational_error_cases e2) as [[-> ?]|[-> ?]]; split; try done.
        intros e [= <-]. split; [done|]. right. left. eauto. }
    destruct (commit (sqlite self)) as [[]|e3].
    2:{ cbn [fst snd].
        destruct (on_operational_error_cases e3) as [[-> ?]|[-> ?]]; split; try done.
        intros e [= <-]. auto. }
    cbn [fst snd]. split; [|done]. intros _. eexists. by repeat split.
  - by split.
  - destruct (exn_class_of e0) eqn:Hclass; cbn [fst snd]; try (by split);
      exfalso; apply (Hparse e0); try done; by rewrite Hclass.
Qed.

End RepairOutcome.

(** ** The file cache *)


Lemma ends_with_app (suffix s : string) : ends_with suffix (s +:+ suffix) = true.
Proof.
  induction s as [|c s IH].
  - change (EmptyString +:+ suffix) with suffix.
    destruct suffix; cbn [ends_with]; by rewrite bool_decide_eq_true_2.
  - rewrite string_app_cons. cbn [ends_with]. rewrite IH. apply orb_true_r.
Qed.

Section FileCacheFacts.
Context {F : Type} `{PyFloat F} {U : Unicode} {V : Type}.
Import file_cache.
Implicit Types (dir : gmap string (File (F:=F) (V:=V))) (self : FileCache (V:=V)).




(** X13.  [get] changes the directory at most by deleting the file of its
    own key, and then it returns [None]; asked again at the same time it
    answers the same and changes nothing more.  A value it returns is the
    value of an entry that has both time stamps and has not expired. *)
Theorem file_cache_get_effect (t : F) dir (key : string) :
  let '(r, dir') := get t dir key in
  (dir' = dir \/ (r = None /\ dir' = delete (_get_cache_path key) dir)) /\
  get t dir' key = (r, dir') /\
  (forall v, r = Some v ->
     exists e c, dir !! _get_cache_path key = Some (Json (Some e) (Some c) (Some v)) /\
                 fltb e t = false).
Proof.
  unfold get. destruct (dir !! _get_cache_path key) as [[[e|] c v0|]|] eqn:Hd;
    try (rewrite Hd; split; [by left|split; [done|by intros v [=]]]).
  destruct (fltb e t) eqn:He.
  - rewrite lookup_delete_eq. split; [by right|]. split; [done|]. by intros v [=].
  - destruct c as [c|]; rewrite Hd, He.
    + split; [by left|]. split; [done|]. intros v ->. eauto.
    + split; [by left|]. split; [done|]. by intros v [=].
Qed.

(** A loop over directory entries that unlinks some of them and counts. *)
Lemma unlink_loop (rm : string * File (F:=F) (V:=V) -> bool)
    (entries : list (string * File)) (count : Z) dir :
  let '(count', dir') :=
    fold_left (fun '(count, dir) entry =>
                 if rm entry then (count + 1, delete entry.1 dir) else (count, dir))
              entries (count, dir) in
  count' = count + Z.of_nat (length (filter (fun entry => rm entry = true) entries)) /\
  forall name,
    dir' !! name = if decide (name ∈ map fst (filter (fun entry => rm entry = true) entries))
                   then None else dir !! name.
Proof.
  revert count dir. induction entries as [|entry entries IH]; intros count dir;
    cbn [fold_left].
  - split; [simpl; lia|]. intros name. rewrite filter_nil.
    rewrite decide_False; [done|]. apply not_elem_of_nil.
  - rewrite filter_cons. destruct (rm entry) eqn:Hrm.
    + rewrite decide_True by done.
      specialize (IH (count + 1) (delete entry.1 dir)).
      destruct (fold_left _ entries _) as [count' dir']. destruct IH as [-> Hdir].
      split; [simpl; lia|]. intros name. rewrite Hdir. cbn [map].
      destruct (decide (name ∈ map fst (filter _ entries))) as [Hin|Hnin].
      * rewrite decide_True; [done|]. by apply list_elem_of_further.
      * destruct (decide (name = entry.1)) as [->|Hne].
        -- rewrite decide_True by apply list_elem_of_here. apply lookup_delete_eq.
        -- rewrite decide_False.
           ++ by rewrite lookup_delete_ne.
           ++ intros Hin. apply elem_of_cons in Hin as [?|?]; done.
    + rewrite decide_False by done.
      specialize (IH count dir).
      destruct (fold_left _ entries _) as [count' dir']. exact IH.
Qed.

Lemma glob_json_elem dir (name : string) (file : File) :
  (name, file) ∈ glob_json dir <-> dir !! name = Some file /\ ends_with ".json" name = true.
Proof.
  unfold glob_json. rewrite list_elem_of_filter, elem_of_map_to_list. tauto.
Qed.

Lemma glob_json_name dir (rm : string * File -> bool) (name : string) :
  name ∈ map fst (filter (fun entry => rm entry = true) (glob_json dir)) <->
  exists file, dir !! name = Some file /\ ends_with ".json" name = true /\
               rm (name, file) = true.
Proof.
  rewrite list_elem_of_fmap. split.
  - intros ([n file] & -> & Hin). apply list_elem_of_filter in Hin as [Hrm Hin].
    apply glob_json_elem in Hin as [? ?]. by exists file.
  - intros (file & Hd & Hj & Hrm). exists (name, file). split; [done|].
    apply list_elem_of_filter. split; [done|]. by apply glob_json_elem.
Qed.

Lemma clear_expired_loop (t : F) dir :
  clear_expired t dir =
  fold_left (fun '(count, dir) entry =>
               if stale t entry.2 then (count + 1, delete entry.1 dir) else (count, dir))
            (glob_json dir) (0, dir).
Proof.
  unfold clear_expired. generalize (glob_json dir). generalize (0, dir).
  intros st entries. revert st. induction entries as [|[name file] entries IH];
    intros [count d]; simpl; [done|].
  rewrite <- IH. f_equal. destruct file as [[e|] c v|]; simpl; try done.
Qed.

(** X14.  [clear_expired] changes no answer: at the same time, [get]
    returns for every key what it returned before.  The [*.json] files left
    are entries that have not expired, files of other names are untouched,
    and the count returned is the number of [*.json] files that were
    unreadable or expired. *)
Theorem file_cache_clear_expired (t : F) dir :
  let '(count, dir') := clear_expired t dir in
  (forall key, fst (get t dir' key) = fst (get t dir key)) /\
  (forall name file, dir' !! name = Some file ->
     dir !! name = Some file /\
     (ends_with ".json" name = true ->
      exists e c v, file = Json (Some e) c v /\ fltb e t = false)) /\
  (forall name file, dir !! name = Some file -> ends_with ".json" name = false ->
     dir' !! name = Some file) /\
  count = Z.of_nat (length (filter (fun entry => stale t entry.2 = true) (glob_json dir))).
Proof.
  rewrite clear_expired_loop.
  pose proof (unlink_loop (fun entry => stale t entry.2) (glob_json dir) 0 dir) as Hloop.
  destruct (fold_left _ (glob_json dir) (0, dir)) as [count dir'].
  destruct Hloop as [-> Hdir].
  assert (Hlook : forall name,
            dir' !! name = match dir !! name with
                           | Some file =>
                               if ends_with ".json" name && stale t file then None
                               else Some file
                           | None => None
                           end).
  { intros name. rewrite Hdir. destruct (decide (name ∈ _)) as [Hin|Hnin].
    - apply glob_json_name in Hin as (file & -> & -> & Hst). simpl in Hst. by rewrite Hst.
    - destruct (dir !! name) as [file|] eqn:Hd; [|done].
      destruct (ends_with ".json" name && stale t file) eqn:E; [|done].
      apply andb_prop in E as [? ?]. exfalso. apply Hnin, glob_json_name. by exists file. }
  split; [|split; [|split]].
  - intros key. unfold get. rewrite Hlook.
    assert (ends_with ".json" (_get_cache_path key) = true) as ->
      by apply ends_with_app.
    destruct (dir !! _get_cache_path key) as [[[e|] c v|]|]; try done. simpl.
    destruct (fltb e t) eqn:He; [done|]. rewrite He. by destruct c.
  - intros name file. rewrite Hlook. destruct (dir !! name) as [file'|]; [|done].
    destruct (ends_with ".json" name) eqn:Hj; simpl.
    + destruct (stale t file') eqn:Hst; [done|]. intros [= <-]. split; [done|].
      intros _. destruct file' as [[e|] c v|]; try done. by exists e, c, v.
    + intros [= <-]. by split.
  - intros name file Hd Hj. by rewrite Hlook, Hd, Hj.
  - lia.
Qed.



(** X16.  A function wrapped by [cached] is not run again while its value
    is stored: when a call found no entry, ran the function and stored its
    value [v], every later call with the same key made before the entry
    expires returns the stored value as JSON reads it back, whatever the
    function would do then, and leaves the directory as it is. *)
Theorem cached_second_call self (ttl : Z) (cache_key : string) (v v' : V)
    (t0 t1 t2 : F) dir :
  int_fits (effective_ttl self (Some ttl)) = true ->
  writable self (_get_cache_path cache_key) = true ->
  encode self v = Some v' ->
  fst (get t0 dir cache_key) = None ->
  exists dir',
    cached self ttl (Ok (Some v)) cache_key t0 t1 t2 dir = (Ok (Some v), dir') /\
    forall (func : res (option V)) (t3 t4 t5 : F),
      fltb (fadd t1 (of_int (effective_ttl self (Some ttl)))) t3 = false ->
      cached self ttl func cache_key t3 t4 t5 dir' = (Ok (Some v'), dir').
Proof.
  intros Hfits Hw Henc Hmiss. unfold cached.
  destruct (get t0 dir cache_key) as [r dir0] eqn:Hget. simpl in Hmiss. subst r.
  unfold set. fold (effective_ttl self (Some ttl)). rewrite Hfits, Hw, Henc. cbn [negb].
  eexists. split; [reflexivity|].
  intros func t3 t4 t5 Hfresh. unfold get at 1. rewrite lookup_insert_eq, Hfresh. done.
Qed.

End FileCacheFacts.

(** ** Lookup in the semantic cache *)

Section SemanticCacheFacts.
Context {F : Type} `{PyFloat F} {U : Unicode} {V : Type}.
Import semantic_cache semantic_cache_store.

Lemma scan_step_cases (self : SemanticCache (V:=V)) (redis : Redis) (q : list F)
    (thr : F) (b : F) (r : option V) (key : string) :
  scan_step self redis q thr (b, r) key = (b, r) \/
  exists entry s,
    entry_similarity self redis q key entry s /\
    fltb b s = true /\ fleb thr s = true /\
    scan_step self redis q thr (b, r) key
    = (s, match result entry with Some r' => r' | None => r end).
Proof.
  unfold scan_step.
  destruct (redis_get redis key) as [[data|]|] eqn:Hg; [|by left..].
  case_bool_decide as Hd; [by left|].
  destruct (loads self data) as [entry|] eqn:Hl; [|by left].
  destruct (_cosine_similarity q (embedding entry)) as [s|] eqn:Hs; [|by left].
  destruct (fltb b s && fleb thr s) eqn:Hc; [|by left].
  apply andb_prop in Hc as [? ?]. right. exists entry, s.
  split; [by exists data|]. repeat split; try done. by destruct (result entry).
Qed.

Section SimilarityOrder.
Hypothesis fltb_trans : forall x y z : F,
  fltb x y = true -> fltb y z = true -> fltb x z = true.

Lemma scan_loop_inv (self : SemanticCache (V:=V)) (redis : Redis) (q : list F) (thr : F)
    (todo done : list string) (st : F * option V) :
  scan_inv self redis q thr done st ->
  scan_inv self redis q thr (done ++ todo)
           (fold_left (scan_step self redis q thr) todo st).
Proof.
  revert done st. induction todo as [|key todo IH]; intros done [b r] Hinv;
    cbn [fold_left].
  - by rewrite app_nil_r.
  - replace (done ++ key :: todo) with ((done ++ [key]) ++ todo)
      by (by rewrite <- app_assoc).
    apply IH. destruct Hinv as [Hb Hr].
    destruct (scan_step_cases self redis q thr b r key)
      as [->|(entry & s & Hes & Hbs & Hts & ->)].
    + split; [done|]. intros v Hv. destruct (Hr v Hv) as (k & e & s & Hk & ?).
      exists k, e, s. split; [|done]. apply elem_of_app. by left.
    + assert (fltb (of_int 0) s = true) as Hpos.
      { simpl in Hb. destruct Hb as [[-> _]|Hb]; [done|]. by eapply fltb_trans. }
      split; [by right|]. simpl. intros v Hv.
      destruct (result entry) as [r'|] eqn:Hres.
      * subst r'. exists key, entry, s. split; [|done].
        apply elem_of_app. right. apply list_elem_of_here.
      * destruct (Hr v Hv) as (k & e & s' & Hk & ?).
        exists k, e, s'. split; [|done]. apply elem_of_app. by left.
Qed.

(** X17.  A value [SemanticCache.get] returns is the stored result of an
    entry whose key the scan listed, that could be read and decoded, and
    whose similarity to the query's embedding is positive and not below the
    threshold in force (the argument, or the cache's own); the cache is
    enabled, the embedding was obtained and the scan ended without an
    exception.  The comparison of similarities is assumed transitive. *)
Theorem semantic_cache_get_hit (self : SemanticCache (V:=V)) (query : string) (threshold : option F)
    (v : V) :
  get self query threshold = Some v ->
  exists redis q key entry s,
    enabled self = true /\ redis_client self = Some redis /\
    _get_embedding self query = Some q /\
    snd (scan_iter redis) = None /\
    key ∈ fst (scan_iter redis) /\
    entry_similarity self redis q key entry s /\
    result entry = Some (Some v) /\
    fleb (default (similarity_threshold self) threshold) s = true /\
    fltb (of_int 0) s = true.
Proof.
  unfold get. destruct (enabled self); [|done].
  destruct (redis_client self) as [redis|]; [|done].
  destruct (_get_embedding self query) as [q|]; [|done].
  destruct (scan_iter redis) as [keys failure] eqn:Hscan.
  set (thr := default (similarity_threshold self) threshold).
  pose proof (scan_loop_inv self redis q thr keys [] (of_int 0, None)) as Hinv.
  destruct (fold_left _ keys _) as [b r].
  destruct failure; [done|]. intros ->.
  destruct Hinv as [_ Hr].
  { split; [by left|]. by intros v' [=]. }
  destruct (Hr v eq_refl) as (key & entry & s & Hk & ? & ? & ? & ?).
  exists redis, q, key, entry, s. rewrite Hscan. simpl. repeat split; done.
Qed.

Hypothesis fltb_irrefl : forall x : F, fltb x x = false.

Lemma entry_similarity_fun (self : SemanticCache (V:=V)) (redis : Redis) (q : list F)
    (key : string) (e1 e2 : Entry) (s1 s2 : F) :
  entry_similarity self redis q key e1 s1 -> entry_similarity self redis q key e2 s2 ->
  e1 = e2 /\ s1 = s2.
Proof.
  intros (d1 & Hg1 & _ & Hl1 & Hs1) (d2 & Hg2 & _ & Hl2 & Hs2).
  assert (d1 = d2) as -> by congruence. assert (e1 = e2) as -> by congruence.
  split; [done|congruence].
Qed.

Lemma best_loop_inv (self : SemanticCache (V:=V)) (redis : Redis) (q : list F) (thr : F)
    (todo done : list string) (st : F * option V) :
  (forall key entry s, key ∈ todo -> entry_similarity self redis q key entry s ->
     is_Some (result entry)) ->
  best_inv self redis q thr done st ->
  best_inv self redis q thr (done ++ todo)
           (fold_left (scan_step self redis q thr) todo st).
Proof.
  revert done st. induction todo as [|key todo IH]; intros done [b r] Hfull Hinv;
    cbn [fold_left].
  - by rewrite app_nil_r.
  - replace (done ++ key :: todo) with ((done ++ [key]) ++ todo)
      by (by rewrite <- app_assoc).
    apply IH.
    { intros k e s Hk. apply Hfull. by apply list_elem_of_further. }
    destruct Hinv as [Hr Hmax]. simpl in Hr, Hmax.
    destruct (scan_step_cases self redis q thr b r key)
      as [Hsame|(entry & s & Hes & Hbs & Hts & ->)].
    + rewrite Hsame. split; simpl.
      * intros v Hv. destruct (Hr v Hv) as (k & e & Hk & ?).
        exists k, e. split; [|done]. apply elem_of_app. by left.
      * intros k e s Hk Hes Hts. apply elem_of_app in Hk as [Hk|Hk]; [by eapply Hmax|].
        apply list_elem_of_singleton in Hk. subst k.
        revert Hsame. unfold scan_step. destruct Hes as (data & -> & Hd & -> & ->).
        rewrite bool_decide_eq_false_2 by done. rewrite Hts.
        destruct (fltb b s) eqn:Hbs; [|done]. simpl.
        destruct (result e); intros Heq; apply (f_equal fst) in Heq; simpl in Heq;
          subst b; by rewrite fltb_irrefl in Hbs.
    + destruct (Hfull key entry s (list_elem_of_here _ _) Hes) as [r' Hres].
      rewrite Hres. split; simpl.
      * intros v ->. exists key, entry. split; [|done].
        apply elem_of_app. right. apply list_elem_of_here.
      * intros k e s' Hk Hes' Hts'. apply elem_of_app in Hk as [Hk|Hk].
        -- destruct (fltb s s') eqn:Hss; [|done].
           rewrite <- (Hmax k e s' Hk Hes' Hts'). symmetry. by eapply fltb_trans.
        -- apply list_elem_of_singleton in Hk. subst k.
           destruct (entry_similarity_fun _ _ _ _ _ _ _ _ Hes Hes') as [_ <-].
           apply fltb_irrefl.
Qed.

(** X18.  When every readable entry has a ['result'] key, the value
    [SemanticCache.get] returns belongs to an entry of best similarity: no
    readable entry that reaches the threshold has a greater similarity to
    the query's embedding than the entry returned.  The comparison of
    similarities is assumed transitive and irreflexive. *)
Theorem semantic_cache_get_best (self : SemanticCache (V:=V)) (query : string) (threshold : option F)
    (redis : Redis) (q : list F) (v : V) :
  redis_client self = Some redis ->
  _get_embedding self query = Some q ->
  (forall key entry s, key ∈ fst (scan_iter redis) ->
     entry_similarity self redis q key entry s -> is_Some (result entry)) ->
  get self query threshold = Some v ->
  exists key entry s,
    key ∈ fst (scan_iter redis) /\
    entry_similarity self redis q key entry s /\
    result entry = Some (Some v) /\
    forall key' entry' s',
      key' ∈ fst (scan_iter redis) ->
      entry_similarity self redis q key' entry' s' ->
      fleb (default (similarity_threshold self) threshold) s' = true ->
      fltb s s' = false.
Proof.
  intros Hredis Hq Hfull. unfold get. destruct (enabled self); [|done].
  rewrite Hredis, Hq. destruct (scan_iter redis) as [keys failure] eqn:Hscan.
  set (thr := default (similarity_threshold self) threshold).
  pose proof (best_loop_inv self redis q thr keys [] (of_int 0, None) Hfull) as Hinv.
  destruct (fold_left _ keys _) as [b r].
  destruct failure; [done|]. intros ->.
  destruct Hinv as [Hr Hmax].
  { split; [by intros v' [=]|]. intros k e s Hk. by apply elem_of_nil in Hk. }
  simpl in Hr, Hmax. destruct (Hr v eq_refl) as (key & entry & Hk & Hes & Hres).
  exists key, entry, b. split; [done|]. split; [done|]. split; [done|]. exact Hmax.
Qed.

End SimilarityOrder.

End SemanticCacheFacts.

(** ** Cosine similarity, continued *)

(** binary64 multiplication is commutative, bit for bit. *)
Lemma SFmul_comm (x y : spec_float) : SFmul prec emax x y = SFmul prec emax y x.
Proof.
  destruct x as [sx|sx| |sx mx ex], y as [sy|sy| |sy my ey]; simpl;
    try reflexivity; try (by rewrite xorb_comm).
  by rewrite xorb_comm, Pos.mul_comm, Z.add_comm.
Qed.

Lemma float_mul_comm (x y : float) : PrimFloat.mul x y = PrimFloat.mul y x.
Proof.
  apply Prim2SF_inj. rewrite !mul_spec. apply SFmul_comm.
Qed.

Section CosineSymmetry.
Context {F : Type} `{PyFloat F} {U : Unicode}.
Import semantic_cache.
Hypothesis fmul_comm : forall x y : F, fmul x y = fmul y x.

Lemma dot_comm (a b : list F) (acc : F) :
  fold_left (fun acc '(x, y) => fadd acc (fmul x y)) (zip a b) acc
  = fold_left (fun acc '(x, y) => fadd acc (fmul x y)) (zip b a) acc.
Proof.
  revert b acc. induction a as [|x a IH]; intros [|y b] acc; simpl; try done.
  rewrite (fmul_comm x y). apply IH.
Qed.

(** X19.  [_cosine_similarity] is symmetric: with a commutative
    multiplication (that of binary64 is), exchanging the two vectors gives
    the same outcome, value or exception. *)
Theorem cosine_similarity_symmetric (vec1 vec2 : list F) :
  _cosine_similarity vec1 vec2 = _cosine_similarity vec2 vec1.
Proof.
  unfold _cosine_similarity, np_dot.
  destruct (decide (length vec1 = length vec2)) as [Hlen|Hlen].
  - rewrite !bool_decide_eq_true_2 by done. simpl. rewrite dot_comm.
    rewrite (orb_comm (feqb (np_linalg_norm vec1) _)).
    by rewrite (fmul_comm (np_linalg_norm vec1)).
  - by rewrite !bool_decide_eq_false_2 by done.
Qed.

End CosineSymmetry.


(** ** The BM25 index *)

Section IndexFacts.
Context {F : Type} `{PyFloat F} {U : Unicode}.
Import bm25_retriever bm25_index.

(** X21.  [index_documents] on an empty list changes nothing.  Otherwise,
    when the index is built, the retriever holds the documents, one token
    list per document (the lowered content split at whitespace) and the
    index built from these lists; every token is non-empty and holds no
    whitespace character, Unicode whitespace included.  When building the
    index raises, the documents and the token lists are already replaced
    while the old index stays. *)
Theorem index_documents_state
    (BM25Okapi : list (list string) -> F -> F -> res (list string -> list F))
    (self : BM25Retriever) (docs : list (Document F)) :
  let '(outcome, self') := index_documents BM25Okapi self docs in
  (docs = [] -> outcome = Ok () /\ self' = self) /\
  (docs <> [] ->
   documents self' = docs /\
   length (tokenized_corpus self') = length docs /\
   (forall (i : nat) doc, docs !! i = Some doc ->
      tokenized_corpus self' !! i = Some (split (lower (page_content doc)))) /\
   Forall (Forall is_token) (tokenized_corpus self') /\
   (forall index, BM25Okapi (tokenized_corpus self') (k1 self) (b self) = Ok index ->
      outcome = Ok () /\ bm25 self' = Some index) /\
   (forall e, BM25Okapi (tokenized_corpus self') (k1 self) (b self) = Raise e ->
      outcome = Raise e /\ bm25 self' = bm25 self)).
Proof.
  unfold index_documents. destruct docs as [|d ds] eqn:Hdocs.
  { split; [done|]. intros Hne. by destruct Hne. }
  assert (Hne : docs <> []) by (by rewrite Hdocs).
  rewrite <- !Hdocs. clear Hdocs.
  set (corpus := map (fun doc => split (lower (page_content doc))) docs).
  assert (Hshape : length corpus = length docs /\
            (forall (i : nat) doc, docs !! i = Some doc ->
               corpus !! i = Some (split (lower (page_content doc)))) /\
            Forall (Forall is_token) corpus).
  { split; [by unfold corpus; rewrite length_map|]. split.
    - intros i doc Hi. unfold corpus. by rewrite list_lookup_fmap, Hi.
    - apply Forall_forall. intros tokens Hin. apply list_elem_of_fmap in Hin as (doc & -> & _).
      apply split_tokens. }
  destruct Hshape as (Hlen & Hat & Htok).
  destruct (BM25Okapi corpus (k1 self) (b self)) as [index|e] eqn:Hb; simpl.
  - split; [done|]. intros _. do 4 (split; [done|]). split.
    + intros index' Hi. rewrite Hb in Hi. by injection Hi as <-.
    + intros e He. by rewrite Hb in He.
  - split; [done|]. intros _. do 4 (split; [done|]). split.
    + intros index Hi. by rewrite Hb in Hi.
    + intros e' He. rewrite Hb in He. by injection He as <-.
Qed.

Lemma search_loop (self : BM25Retriever) (scores : list F) (idxs : list nat)
    (acc : list (Result F)) :
  length scores = length (documents self) ->
  Forall (fun idx => (idx < length scores)%nat) idxs ->
  exists new,
    for_each (search_step self scores) idxs acc = Ok (acc ++ new) /\
    Forall2 (fun idx r =>
               documents self !! idx = Some (document r) /\
               exists s, scores !! idx = Some s /\ score r = Some (VFloat s))
            (filter (fun idx => scores_above_zero scores idx = true) idxs) new.
Proof.
  intros Hlen. revert acc. induction idxs as [|idx idxs IH]; intros acc Hidx;
    cbn [for_each].
  - exists []. rewrite app_nil_r. by split.
  - apply Forall_cons in Hidx as [Hi Hidx].
    destruct (lookup_lt_is_Some_2 scores idx Hi) as [s Hs].
    destruct (lookup_lt_is_Some_2 (documents self) idx) as [doc Hdoc]; [lia|].
    assert (search_step self scores acc idx =
            if fltb (of_int 0) s
            then Ok (acc ++ [mkResult doc (Some (VFloat s))
                               (Some (VInt (Z.of_nat (length acc) + 1)))])
            else Ok acc) as ->.
    { unfold search_step. rewrite (index_lookup _ _ _ Hs). cbn [mbind res_bind].
      destruct (fltb (of_int 0) s); [|done]. by rewrite (index_lookup _ _ _ Hdoc). }
    assert (scores_above_zero scores idx = fltb (of_int 0) s) as Habove
      by (unfold scores_above_zero; by rewrite Hs).
    rewrite filter_cons.
    destruct (fltb (of_int 0) s) eqn:Hpos; cbn [mbind res_bind].
    + rewrite decide_True by done.
      destruct (IH (acc ++ [mkResult doc (Some (VFloat s))
                              (Some (VInt (Z.of_nat (length acc) + 1)))]) Hidx)
        as (new & -> & Hnew).
      eexists (_ :: new). split; [by rewrite <- app_assoc|].
      constructor; [|done]. simpl. split; [done|]. by exists s.
    + rewrite decide_False by (rewrite Habove; done). apply IH, Hidx.
Qed.

(** X22.  On an indexed retriever whose index gives one score per
    document, the results of [BM25Retriever.search] are, in order, the
    documents at those of the first [top_k] indices of the descending score
    order whose score is greater than zero; each result pairs the document
    with the score of its own index. *)
Theorem search_results_scored (argsort : list F -> list nat) (self : BM25Retriever)
    (query : string) (top_k : Z) (get_scores : list string -> list F) :
  bm25 self = Some get_scores ->
  documents self <> [] ->
  (forall scores, Forall (fun i => (i < length scores)%nat) (argsort scores)) ->
  (forall tokens, length (get_scores tokens) = length (documents self)) ->
  let scores := get_scores (split (lower query)) in
  let top_indices := slice_to top_k (rev (argsort scores)) in
  exists results,
    search argsort self query top_k = Ok results /\
    Forall2 (fun idx r =>
               documents self !! idx = Some (document r) /\
               exists s, scores !! idx = Some s /\ score r = Some (VFloat s))
            (filter (fun idx => scores_above_zero scores idx = true) top_indices)
            results.
Proof.
  intros Hbm Hdocs Hargsort Hscores scores top_indices. unfold search. rewrite Hbm.
  destruct (documents self) as [|d ds] eqn:Hd; [done|]. rewrite <- Hd in *.
  destruct (search_loop self scores top_indices []) as (new & Hrun & Hnew).
  - apply Hscores.
  - unfold top_indices, slice_to.
    destruct (0 <=? top_k); apply Forall_take, Forall_rev, Hargsort.
  - exists new. split; [exact Hrun|exact Hnew].
Qed.

End IndexFacts.

(** ** Batches *)

Lemma range_step_zero (step : nat) : (0 < step)%nat -> range_step 0 step = [].
Proof.
  intros Hs. unfold range_step.
  replace ((0 + step - 1) / step)%nat with 0%nat; [done|].
  symmetry. apply Nat.div_small. lia.
Qed.

Lemma range_step_succ (n step : nat) :
  (0 < step)%nat -> (0 < n)%nat ->
  range_step n step = 0%nat :: map (fun i => (step + i)%nat) (range_step (n - step) step).
Proof.
  intros Hs Hn. unfold range_step.
  assert ((n + step - 1) / step = S ((n - step + step - 1) / step))%nat as ->.
  { destruct (Nat.le_gt_cases step n) as [Hle|Hgt].
    - replace (n + step - 1)%nat with ((n - step + step - 1) + 1 * step)%nat by lia.
      rewrite Nat.div_add by lia. lia.
    - replace (n - step + step - 1)%nat with (step - 1)%nat by lia.
      rewrite (Nat.div_small (step - 1)) by lia.
      replace (n + step - 1)%nat with ((n - 1) + 1 * step)%nat by lia.
      rewrite Nat.div_add by lia. rewrite Nat.div_small by lia. done. }
  cbn [seq map]. f_equal. rewrite <- seq_shift, !map_map.
  apply map_ext. intros j. lia.
Qed.

(** Reading a list batch by batch reads every element once, in order, at
    its own position. *)
Lemma batches_cover {A B} (f : nat -> A -> B) (step : nat) (l : list A) :
  (0 < step)%nat ->
  concat (map (fun i => imap (fun j x => f (i + j)%nat x)
                             (slice i (Nat.min (i + step) (length l)) l))
              (range_step (length l) step))
  = imap f l.
Proof.
  intros Hs. remember (length l) as n eqn:Hn. revert f l Hn.
  induction (lt_wf n) as [n _ IH]. intros f l Hn.
  destruct (Nat.eq_dec n 0%nat) as [->|Hpos].
  { rewrite range_step_zero by done. destruct l; [done|discriminate]. }
  rewrite range_step_succ by lia. cbn [map concat].
  rewrite map_map.
  assert (imap f l = imap f (take step l) ++ imap (fun k => f (step + k)%nat) (drop step l))
    as ->.
  { rewrite <- (take_drop step l) at 1. rewrite imap_app. f_equal.
    destruct (Nat.le_gt_cases step n) as [Hle|Hgt].
    - rewrite length_take. replace (step `min` length l)%nat with step by lia. done.
    - rewrite drop_ge by lia. done. }
  f_equal.
  - unfold slice. rewrite drop_0. simpl.
    replace (step `min` n - 0)%nat with (step `min` n)%nat by lia.
    destruct (Nat.le_gt_cases step n) as [Hle|Hgt].
    + by replace (step `min` n)%nat with step by lia.
    + rewrite !take_ge by lia. done.
  - rewrite <- (IH (n - step)%nat ltac:(lia) (fun k => f (step + k)%nat) (drop step l))
      by (rewrite length_drop; lia).
    f_equal. apply map_ext. intros i. unfold slice.
    rewrite drop_drop.
    assert ((step + i + step) `min` n - (step + i) = (i + step) `min` (n - step) - i)%nat
      as -> by lia.
    apply imap_ext. intros j x _. f_equal. lia.
Qed.

Lemma range_step_lt (n step i : nat) :
  (0 < step)%nat -> i ∈ range_step n step -> (i < n)%nat.
Proof.
  intros Hs Hi. unfold range_step in Hi. apply list_elem_of_fmap in Hi as (j & -> & Hj).
  apply elem_of_seq in Hj as [_ Hj]. simpl in Hj.
  pose proof (Nat.Div0.mul_div_le (n + step - 1) step) as Hq. nia.
Qed.

Lemma imap_id {A} (l : list A) : imap (fun _ x => x) l = l.
Proof.
  apply list_eq. intros i. rewrite list_lookup_imap. by destruct (l !! i).
Qed.

Lemma slices_cover {A} (step : nat) (l : list A) :
  (0 < step)%nat ->
  concat (map (fun i => slice i (Nat.min (i + step) (length l)) l)
              (range_step (length l) step)) = l.
Proof.
  intros Hs. transitivity (imap (fun (_ : nat) (x : A) => x) l); [|apply imap_id].
  rewrite <- (batches_cover (fun _ x => x) step l Hs).
  f_equal. apply map_ext. intros i. by rewrite imap_id.
Qed.

Lemma for_each_fmap {S X Y} (body : S -> Y -> res S) (g : X -> Y) (xs : list X) (s : S) :
  for_each (fun s x => body s (g x)) xs s = for_each body (map g xs) s.
Proof.
  revert s. induction xs as [|x xs IH]; intros s; simpl; [done|].
  destruct (body s (g x)); simpl; [apply IH|done].
Qed.

Section BatchFacts.
Context {F : Type} `{PyFloat F} {U : Unicode}.
Import document_store document_store_batch.

(** X23.  The calls of [collection.add] that [add_documents] issues carry,
    concatenated in order, exactly the contents, the metadata and the ids
    of the documents; every call carries between 1 and 100 documents, with
    as many metadata and ids as contents. *)
Theorem add_documents_batches (hash : string -> Z) (docs : list (Document F)) :
  (forall (self : DocumentStore) (collection_name : string),
     add_documents hash self docs collection_name =
     match docs with
     | [] => Ok []
     | _ :: _ =>
         collection ← _initialize_collection self collection_name;
         _ ← for_each (fun _ call => add collection call) (batch_calls hash docs) ();
         Ok (map (fun '(i, doc) => batch_id hash i doc) (enumerate docs))
     end) /\
  concat (map documents (batch_calls hash docs)) = map page_content docs /\
  concat (map metadatas (batch_calls hash docs)) = map metadata docs /\
  concat (map ids (batch_calls hash docs))
  = map (fun '(i, doc) => batch_id hash i doc) (enumerate docs) /\
  Forall (fun call =>
            (0 < length (documents call) <= 100)%nat /\
            length (metadatas call) = length (documents call) /\
            length (ids call) = length (documents call))
         (batch_calls hash docs).
Proof.
  assert (Hlen_ids : length (map (fun '(i, doc) => batch_id hash i doc) (enumerate docs))
                     = length docs).
  { rewrite length_map. unfold enumerate. by rewrite length_imap. }
  split; [|split; [|split; [|split]]].
  - intros self name. unfold add_documents. destruct docs as [|d ds] eqn:Hd; [done|].
    rewrite <- Hd.
    destruct (_initialize_collection self name) as [collection|e]; simpl; [|done].
    unfold batch_calls. by rewrite <- for_each_fmap.
  - unfold batch_calls. rewrite map_map. simpl.
    rewrite <- (length_map page_content docs). apply slices_cover. lia.
  - unfold batch_calls. rewrite map_map. simpl.
    rewrite <- (length_map metadata docs). apply slices_cover. lia.
  - unfold batch_calls. rewrite map_map. simpl.
    rewrite <- Hlen_ids. apply slices_cover. lia.
  - unfold batch_calls. apply Forall_forall. intros call Hcall.
    apply list_elem_of_fmap in Hcall as (i & -> & Hi). simpl.
    apply range_step_lt in Hi; [|lia].
    unfold slice. rewrite !length_take, !length_drop, !length_map.
    unfold enumerate. rewrite length_imap. lia.
Qed.

(** The loop of [add_documents_batch], when it ends normally, has collected
    the ids of all its batches. *)
Lemma batch_loop_ids (hash : string -> Z) (collection : Collection)
    (docs : list (Document F)) (step : nat) (starts : list nat)
    (acc out : list string) :
  for_each (fun all_ids (i : nat) =>
              let batch_end := Nat.min (i + step) (length docs) in
              let batch := slice i batch_end docs in
              let contents := map page_content batch in
              let metadatas := map metadata batch in
              let ids := map (fun '(j, doc) => batch_id hash (Z.of_nat i + j) doc)
                             (enumerate batch) in
              _ ← add collection {| documents := contents;
                                    metadatas := metadatas;
                                    ids := ids |};
              Ok (all_ids ++ ids))
           starts acc = Ok out ->
  out = acc ++ concat (map (fun i =>
                              imap (fun j doc => batch_id hash (Z.of_nat (i + j)) doc)
                                   (slice i (Nat.min (i + step) (length docs)) docs))
                           starts).
Proof.
  revert acc. induction starts as [|i starts IH]; intros acc; cbn [for_each].
  - intros [= <-]. simpl. by rewrite app_nil_r.
  - cbv zeta. destruct (add collection _) as [[]|e]; cbn [mbind res_bind]; [|discriminate].
    intros Hout. rewrite (IH _ Hout). cbn [map concat]. rewrite <- app_assoc.
    do 2 f_equal. unfold enumerate. rewrite fmap_imap. apply imap_ext.
    intros j doc _. simpl. by rewrite Nat2Z.inj_add.
Qed.

(** X24.  [add_documents_batch] returns either the empty list or one id
    per document.  It returns the empty list when [batch_size] is not
    positive, and when the measured time is zero (the rate in the last log
    line divides by it).  When it succeeds its ids are those
    [add_documents] returns for the same documents. *)
Theorem add_documents_batch_all_or_nothing (hash : string -> Z) (self : DocumentStore)
    (docs : list (Document F)) (collection_name : string) (batch_size : Z)
    (elapsed : F) :
  let all_ids := map (fun '(i, doc) => batch_id hash i doc) (enumerate docs) in
  (add_documents_batch hash self docs collection_name batch_size elapsed = [] \/
   add_documents_batch hash self docs collection_name batch_size elapsed = all_ids) /\
  (batch_size <= 0 \/ feqb elapsed (of_int 0) = true ->
   add_documents_batch hash self docs collection_name batch_size elapsed = []) /\
  (forall collection,
     0 < batch_size -> feqb elapsed (of_int 0) = false ->
     _initialize_collection self collection_name = Ok collection ->
     (forall call, add collection call = Ok ()) ->
     add_documents_batch hash self docs collection_name batch_size elapsed = all_ids /\
     add_documents hash self docs collection_name = Ok all_ids).
Proof.
  intros all_ids.
  assert (Hdef : all_ids = map (fun '(i, doc) => batch_id hash i doc) (enumerate docs))
    by done.
  clearbody all_ids.
  assert (Hall : 0 < batch_size ->
            concat (map (fun i =>
                           imap (fun j doc => batch_id hash (Z.of_nat (i + j)) doc)
                                (slice i (Nat.min (i + Z.to_nat batch_size) (length docs))
                                       docs))
                        (range_step (length docs) (Z.to_nat batch_size))) = all_ids).
  { intros Hb. rewrite (batches_cover (fun k doc => batch_id hash (Z.of_nat k) doc)) by lia.
    rewrite Hdef. unfold enumerate. by rewrite fmap_imap. }
  unfold add_documents_batch. destruct docs as [|d ds] eqn:Hd.
  { split; [by left|]. split; [done|]. intros. rewrite Hdef. by split. }
  assert (Hne : docs <> []) by (by rewrite Hd).
  rewrite <- Hd in *. clear Hd.
  destruct (_initialize_collection self collection_name) as [collection|e] eqn:Hinit;
    cbn [mbind res_bind try_except].
  2:{ split; [by left|]. split; [done|]. by intros c _ _ [=]. }
  destruct (batch_size =? 0) eqn:Hz; cbn [mbind res_bind try_except].
  { apply Z.eqb_eq in Hz. split; [by left|]. split; [done|]. intros; lia. }
  apply Z.eqb_neq in Hz.
  destruct (batch_size <? 0) eqn:Hneg; cbn [mbind res_bind try_except].
  { apply Z.ltb_lt in Hneg. cbn [for_each mbind res_bind].
    split; [left; by destruct (feqb _ _)|]. split; [intros _; by destruct (feqb _ _)|].
    intros; lia. }
  apply Z.ltb_ge in Hneg. assert (0 < batch_size) as Hpos by lia.
  destruct (for_each _ (range_step _ _) []) as [out|e] eqn:Hloop;
    cbn [mbind res_bind try_except].
  - apply batch_loop_ids in Hloop. rewrite (Hall Hpos) in Hloop. simpl in Hloop. subst out.
    destruct (feqb elapsed (of_int 0)) eqn:He; cbn [try_except].
    + split; [by left|]. split; [done|]. by intros c _ [=].
    + split; [by right|]. split; [intros [?|?]; [lia|done]|].
      intros c _ _ [= <-] Hadd. split; [done|].
      unfold add_documents. destruct docs as [|d' ds'] eqn:Hd'; [done|]. rewrite <- Hd' in *.
      rewrite Hinit. cbn [mbind res_bind].
      rewrite (for_each_unit_Ok (fun i : nat => add collection _)); [by rewrite Hdef|].
      intros i. apply Hadd.
  - split; [by left|]. split; [done|].
    intros c _ _ [= <-] Hadd. exfalso.
    match type of Hloop with
    | for_each ?body _ _ = _ =>
        assert (forall (starts : list nat) (acc : list string), exists out,
                  for_each body starts acc = Ok out) as Hok
    end.
    { intros starts. induction starts as [|i starts IH]; intros acc; cbn [for_each].
      - by eexists.
      - cbv zeta. rewrite Hadd. cbn [mbind res_bind]. apply IH. }
    destruct (Hok (range_step (length docs) (Z.to_nat batch_size)) []) as (out & Hout).
    rewrite Hout in Hloop. discriminate.
Qed.

End BatchFacts.

(** ** The retrieval pipeline *)

Section PipelineFacts.
Context {F : Type} `{PyFloat F} {U : Unicode}.
Import document_store rag_pipeline.

(** The reranker returns at most [top_k] results when the remote service,
    if it is the one used, answers with at most [top_n] items. *)
Lemma rerank_at_most_top_k (self : reranker.Reranker) (query : string)
    (documents : list (Document F)) (top_k : Z) :
  0 <= top_k ->
  (forall call items,
     reranker.cohere_client self = Some call ->
     call (reranker.cohere_model self) query (map page_content documents) top_k = Ok items ->
     Z.of_nat (length items) <= top_k) ->
  Z.of_nat (length (reranker.rerank self query documents top_k)) <= top_k.
Proof.
  intros Hk Hservice. unfold reranker.rerank.
  destruct documents as [|d ds] eqn:Hdocs; [simpl; lia|]. rewrite <- Hdocs in *.
  pose proof (proj2 (original_order_size documents top_k) Hk) as Hfallback.
  destruct (reranker.use_local self && _).
  { by apply (proj2 (rerank_local_size self query documents top_k)). }
  destruct (bool_decide _); [|done].
  destruct (rerank_cohere_size self query documents top_k) as [->|Hex]; [done|].
  destruct Hex as (call & items & Hc & Hcall & ->). by eapply Hservice.
Qed.

Lemma reranking_top_k (env : Pipeline) (query : string)
    (candidate_docs : list (Document F)) (top_k top_k' : Z) :
  RERANK_ENABLED env = true ->
  reranking env query candidate_docs top_k = reranking env query candidate_docs top_k'.
Proof.
  intros Hre. unfold reranking. rewrite Hre. destruct candidate_docs as [|d ds].
  - case_bool_decide as Hd; [by destruct Hd|]. simpl.
    unfold slice_to. rewrite !take_nil. by destruct (0 <=? top_k), (0 <=? top_k').
  - by case_bool_decide.
Qed.

Lemma contextual_compression_length (env : Pipeline) (query : string)
    (candidate_docs : list (Document F)) :
  length (contextual_compression env query candidate_docs) = length candidate_docs.
Proof.
  unfold contextual_compression. destruct (_ && _); [|done].
  destruct (new_context_compressor env) as [compressor|]; [|done].
  rewrite compress_map. destruct (context_compressor.client compressor); [|done].
  by rewrite length_map.
Qed.

(** Without a cached result the pipeline is retrieval, reranking and
    compression in turn. *)
Lemma advanced_rag_search_uncached (env : Pipeline) (self : DocumentStore)
    (query collection_name : string) (filters : option (gmap string filter_value))
    (top_k : Z) (use_cache : bool) (docs : list (Document F)) :
  (forall cached, semantic_cache_check env query use_cache = Some cached -> cached = []) ->
  advanced_rag_search env self query collection_name filters top_k use_cache = Ok docs ->
  exists candidate_docs,
    docs = contextual_compression env (query_rewriting env query)
             (reranking env (query_rewriting env query) candidate_docs top_k).
Proof.
  intros Hcache. unfold advanced_rag_search.
  destruct (semantic_cache_check env query use_cache) as [[|c cs]|];
    [|by specialize (Hcache _ eq_refl)|].
  all: destruct (match hybrid_retrieval _ _ _ _ _ with Ok _ => _ | Raise _ => _ end)
    as [candidates|]; simpl; [|discriminate]; intros [= <-]; by exists candidates.
Qed.

(** X25.  With [RERANK_ENABLED] the argument [top_k] of
    [advanced_rag_search] has no effect: the result is the same for any two
    values.  Without a cached answer the result has at most [top_k]
    documents when reranking is off (for [top_k >= 0]), and at most
    [RERANK_TOP_K] when it is on (for [RERANK_TOP_K >= 0]) and the remote
    service, if used, honours [top_n]. *)
Theorem advanced_rag_search_top_k (env : Pipeline) (self : DocumentStore)
    (query collection_name : string) (filters : option (gmap string filter_value))
    (use_cache : bool) :
  (RERANK_ENABLED env = true ->
   forall top_k top_k',
     advanced_rag_search env self query collection_name filters top_k use_cache
     = advanced_rag_search env self query collection_name filters top_k' use_cache) /\
  (forall top_k docs,
     (forall cached, semantic_cache_check env query use_cache = Some cached -> cached = []) ->
     advanced_rag_search env self query collection_name filters top_k use_cache = Ok docs ->
     (RERANK_ENABLED env = false -> 0 <= top_k -> Z.of_nat (length docs) <= top_k) /\
     (RERANK_ENABLED env = true -> 0 <= RERANK_TOP_K env ->
      (forall reranker call q documents items,
         new_reranker env = Ok reranker ->
         reranker.cohere_client reranker = Some call ->
         call (reranker.cohere_model reranker) q documents (RERANK_TOP_K env) = Ok items ->
         Z.of_nat (length items) <= RERANK_TOP_K env) ->
      Z.of_nat (length docs) <= RERANK_TOP_K env)).
Proof.
  split.
  - intros Hre top_k top_k'. unfold advanced_rag_search.
    destruct (semantic_cache_check env query use_cache) as [[|c cs]|]; try done.
    all: destruct (match hybrid_retrieval _ _ _ _ _ with Ok _ => _ | Raise _ => _ end)
      as [candidates|]; simpl; [|done]; by rewrite (reranking_top_k _ _ _ top_k top_k').
  - intros top_k docs Hcache Hrun.
    destruct (advanced_rag_search_uncached _ _ _ _ _ _ _ _ Hcache Hrun) as (cands & ->).
    rewrite contextual_compression_length. unfold reranking. split.
    + intros -> Hk. simpl. by apply slice_to_length_bound.
    + intros -> Hk Hservice. case_bool_decide as Hc; simpl.
      2:{ assert (cands = []) as -> by (by destruct cands; [|destruct Hc]).
          unfold slice_to. rewrite !take_nil. destruct (0 <=? top_k); simpl; lia. }
      destruct (new_reranker env) as [reranker|] eqn:Hr.
      * rewrite length_map. apply rerank_at_most_top_k; [done|].
        intros call items Hcall Hitems. by eapply Hservice.
      * by apply slice_to_length_bound.
Qed.

End PipelineFacts.

(** ** The properties at sample inputs *)

Lemma hybrid_search_filtered_top_k_witness :
  exists docs,
    document_store.hybrid_search samples.sample_hash (samples.sample_store [0.5%float; 1%float])
      "python" "learning_resources" None 5 0.25%float false = Ok docs /\
    Z.of_nat (length docs) <= 5 /\
    Forall (fun doc => PrimFloat.leb 0.25 (document_store.relevance_key doc) = true) docs /\
    NoDup (map (fun doc => samples.sample_hash (page_content doc)) docs).
Proof.
  eexists. split; [vm_compute; reflexivity|].
  apply (hybrid_search_filtered_top_k (F:=float) (H:=binary64) samples.sample_hash
           (samples.sample_store [0.5%float; 1%float])
           "python" "learning_resources" None 5 0.25%float false).
  - lia.
  - intros cached [=].
  - vm_compute. reflexivity.
Defined.

Lemma hybrid_search_semantic_first_witness :
  exists docs,
    document_store.hybrid_search samples.sample_hash (samples.sample_store [0.5%float; 1%float])
      "python" "learning_resources" None 5 0.25%float false = Ok docs /\
    exists semantic_results,
      document_store.search_documents (samples.sample_store [0.5%float; 1%float])
        (document_store.optimize_query "python") "learning_resources" None (5 * 2) 0
      = Ok semantic_results /\
      forall doc, doc ∈ docs ->
        doc ∈ semantic_results \/
        (doc ∈ document_store.keyword_branch (samples.sample_store [0.5%float; 1%float])
                 "python" "learning_resources" None /\
         forall s, s ∈ semantic_results ->
           samples.sample_hash (page_content s) <> samples.sample_hash (page_content doc)).
Proof.
  eexists. split; [vm_compute; reflexivity|].
  apply (hybrid_search_semantic_first (F:=float) (H:=binary64) samples.sample_hash
           (samples.sample_store [0.5%float; 1%float])
           "python" "learning_resources" None 5 0.25%float false).
  - intros cached [=].
  - vm_compute. reflexivity.
Defined.

Lemma hybrid_search_sorted_witness :
  exists docs,
    document_store.hybrid_search samples.sample_hash (samples.sample_store [0.5%float; 1%float])
      "python" "learning_resources" None 5 0.25%float false = Ok docs /\
    forall (i j : nat) di dj,
      docs !! i = Some di -> docs !! j = Some dj -> (i < j)%nat ->
      PrimFloat.ltb (document_store.relevance_key di) (document_store.relevance_key dj)
      = false.
Proof.
  eexists. split; [vm_compute; reflexivity|].
  eapply (hybrid_search_sorted (F:=float) (H:=binary64) not_nan float_ltb_asym
            float_ltb_negtrans samples.sample_hash
            (samples.sample_store [0.5%float; 1%float])
            "python" "learning_resources" None 5 0.25%float false).
  - intros cached [=].
  - vm_compute. reflexivity.
  - repeat constructor.
  - vm_compute. repeat constructor.
  - vm_compute. reflexivity.
Defined.

Lemma search_documents_page_witness :
  exists docs,
    document_store.search_documents (samples.sample_store [0.5%float; 1%float])
      "python" "learning_resources" None 1 1 = Ok docs /\
    map page_content docs
    = take (Z.to_nat 1) (drop (Z.to_nat 1)
                           ["Python loops and functions"; "Variables in Python"]%string).
Proof.
  edestruct (search_documents_page (F:=float) (H:=binary64)
               (samples.sample_store [0.5%float; 1%float])
               "python" "learning_resources" None 1 1
               (samples.sample_collection [0.5%float; 1%float]))
    as (docs & Hrun & Hcontents & _).
  - lia.
  - lia.
  - reflexivity.
  - reflexivity.
  - reflexivity.
  - intros row rest [= <- <-]. right. simpl. lia.
  - intros row rest [= <- <-]. right. simpl. lia.
  - exists docs. split; [exact Hrun|exact Hcontents].
Defined.

Lemma rerank_results_from_input_witness :
  exists r,
    reranker.rerank samples.remote_reranker "python" samples.three_docs 2 !! 0%nat = Some r /\
    document r ∈ samples.three_docs /\ rank r = Some (VInt (Z.of_nat 0 + 1)) /\
    is_Some (score r).
Proof.
  eexists. split; [vm_compute; reflexivity|].
  apply (rerank_results_from_input (F:=float) (H:=binary64)
           samples.remote_reranker "python" samples.three_docs 2 0%nat).
  vm_compute. reflexivity.
Defined.

Lemma rerank_failure_fallback_witness :
  reranker.rerank more_samples.raising_reranker "python" samples.three_docs 2
  = reranker.original_order samples.three_docs 2 /\
  map document (reranker.original_order samples.three_docs 2)
  = slice_to 2 samples.three_docs.
Proof.
  destruct (rerank_failure_fallback (F:=float) (H:=binary64)
              more_samples.raising_reranker "python" samples.three_docs 2)
    as (Hlocal & _ & _ & Hdocs & _).
  - discriminate.
  - split; [|exact Hdocs]. eapply Hlocal; reflexivity.
Defined.

Lemma rerank_local_order_witness :
  Z.of_nat (length (reranker.rerank more_samples.local_reranker "python"
                      samples.three_docs 2)) = 2 `min` 3 /\
  forall (i j : nat) ri rj si sj,
    reranker.rerank more_samples.local_reranker "python" samples.three_docs 2 !! i = Some ri ->
    reranker.rerank more_samples.local_reranker "python" samples.three_docs 2 !! j = Some rj ->
    (i < j)%nat ->
    score ri = Some (VFloat si) -> score rj = Some (VFloat sj) ->
    PrimFloat.ltb si sj = false.
Proof.
  edestruct (rerank_local_order (F:=float) (H:=binary64) not_nan float_ltb_asym
               float_ltb_negtrans more_samples.local_reranker "python"
               samples.three_docs 2)
    as (_ & Hsorted & Hlen).
  - discriminate.
  - reflexivity.
  - reflexivity.
  - reflexivity.
  - repeat constructor.
  - split; [|exact Hsorted]. apply Hlen; [lia|reflexivity].
Defined.

Lemma compress_annotations_witness :
  exists doc',
    context_compressor.compress more_samples.answering_compressor "python"
      [samples.short_doc; samples.long_doc] !! 1%nat = Some doc' /\
    metadata doc' !! "compressed" = Some (VBool true) /\
    metadata doc' !! "original_length"
    = Some (VInt (Z.of_nat (len (page_content samples.long_doc)))) /\
    metadata doc' !! "compressed_length"
    = Some (VInt (Z.of_nat (len (page_content doc')))) /\
    (forall key : string,
       key <> "compressed"%string -> key <> "original_length"%string ->
       key <> "compressed_length"%string ->
       metadata doc' !! key = metadata samples.long_doc !! key).
Proof.
  eexists. split; [vm_compute; reflexivity|].
  apply (compress_annotations (F:=float) (H:=binary64)
           more_samples.answering_compressor "python"
           [samples.short_doc; samples.long_doc] 1%nat samples.long_doc).
  - by eexists.
  - reflexivity.
  - by vm_compute.
  - vm_compute. reflexivity.
Defined.



Lemma cached_second_call_witness :
  exists dir',
    file_cache.cached more_samples.string_cache 3600 (Ok (Some "answer"%string)) "k"
      1000%float 1000%float 1000%float ∅ = (Ok (Some "answer"%string), dir') /\
    file_cache.cached more_samples.string_cache 3600
      (Raise (Exn OtherException "service unavailable")) "k"
      2000%float 2000%float 2000%float dir' = (Ok (Some "answer"%string), dir').
Proof.
  destruct (cached_second_call (F:=float) (H:=binary64) more_samples.string_cache 3600 "k"
              "answer"%string "answer"%string 1000%float 1000%float 1000%float ∅)
    as (dir' & Hfirst & Hlater).
  - reflexivity.
  - reflexivity.
  - reflexivity.
  - reflexivity.
  - exists dir'. split; [exact Hfirst|]. apply Hlater. reflexivity.
Defined.

(** [<] on binary64 is false as soon as an argument is NaN. *)
Lemma float_ltb_not_nan (x y : float) :
  PrimFloat.ltb x y = true -> not_nan x /\ not_nan y.
Proof.
  unfold not_nan. rewrite ltb_spec, !is_nan_spec.
  by destruct (Prim2SF x) as [?|?| |? ? ?], (Prim2SF y) as [?|?| |? ? ?].
Qed.

Lemma float_ltb_trans (x y z : float) :
  PrimFloat.ltb x y = true -> PrimFloat.ltb y z = true -> PrimFloat.ltb x z = true.
Proof.
  intros Hxy Hyz.
  destruct (float_ltb_not_nan _ _ Hxy) as [Hx Hy].
  destruct (float_ltb_not_nan _ _ Hyz) as [_ Hz].
  apply float_ltb_lex in Hxy; [|assumption..]. apply float_ltb_lex in Hyz; [|assumption..].
  apply float_ltb_lex; [assumption..|].
  destruct (SFkey (Prim2SF x)) as [[a1 a2] a3], (SFkey (Prim2SF y)) as [[b1 b2] b3],
    (SFkey (Prim2SF z)) as [[c1 c2] c3].
  simpl in *. lia.
Qed.

Lemma float_ltb_irrefl (x : float) : PrimFloat.ltb x x = false.
Proof.
  destruct (PrimFloat.ltb x x) eqn:Hxx; [|done].
  destruct (float_ltb_not_nan _ _ Hxx) as [Hx _].
  by rewrite (float_ltb_asym x x Hx Hx Hxx) in Hxx.
Qed.

Lemma semantic_cache_get_hit_witness :
  exists redis q key entry s,
    semantic_cache_store.enabled more_samples.sample_semantic_cache = true /\
    semantic_cache_store.redis_client more_samples.sample_semantic_cache = Some redis /\
    semantic_cache_store._get_embedding more_samples.sample_semantic_cache "python loops"
    = Some q /\
    snd (semantic_cache_store.scan_iter redis) = None /\
    key ∈ fst (semantic_cache_store.scan_iter redis) /\
    entry_similarity more_samples.sample_semantic_cache redis q key entry s /\
    semantic_cache_store.result entry = Some (Some "cached answer"%string) /\
    PrimFloat.leb
      (default (semantic_cache_store.similarity_threshold more_samples.sample_semantic_cache)
               None) s = true /\
    PrimFloat.ltb 0 s = true.
Proof.
  apply (semantic_cache_get_hit (F:=float) (H:=binary64) float_ltb_trans
           more_samples.sample_semantic_cache "python loops" None "cached answer"%string).
  vm_compute. reflexivity.
Defined.

Lemma semantic_cache_get_best_witness :
  exists key entry s,
    key ∈ fst (semantic_cache_store.scan_iter more_samples.sample_redis) /\
    entry_similarity more_samples.sample_semantic_cache more_samples.sample_redis
      [1%float; 0%float] key entry s /\
    semantic_cache_store.result entry = Some (Some "cached answer"%string) /\
    forall key' entry' s',
      key' ∈ fst (semantic_cache_store.scan_iter more_samples.sample_redis) ->
      entry_similarity more_samples.sample_semantic_cache more_samples.sample_redis
        [1%float; 0%float] key' entry' s' ->
      PrimFloat.leb
        (default (semantic_cache_store.similarity_threshold
                    more_samples.sample_semantic_cache) None) s' = true ->
      PrimFloat.ltb s s' = false.
Proof.
  apply (semantic_cache_get_best (F:=float) (H:=binary64) float_ltb_trans float_ltb_irrefl
           more_samples.sample_semantic_cache "python loops" None
           more_samples.sample_redis [1%float; 0%float] "cached answer"%string).
  - reflexivity.
  - reflexivity.
  - intros key entry s Hkey (data & Hget & _ & Hloads & _).
    apply elem_of_cons in Hkey as [->|Hkey];
      [|apply list_elem_of_singleton in Hkey as ->];
      vm_compute in Hget; injection Hget as <-;
      vm_compute in Hloads; injection Hloads as <-; by eexists.
  - vm_compute. reflexivity.
Defined.

Lemma cosine_similarity_symmetric_witness :
  semantic_cache._cosine_similarity [1%float; 2%float] [3%float; 4%float]
  = semantic_cache._cosine_similarity [3%float; 4%float] [1%float; 2%float].
Proof.
  apply (cosine_similarity_symmetric (F:=float) (H:=binary64) float_mul_comm).
Defined.


Lemma search_results_scored_witness :
  exists results,
    bm25_retriever.search samples.sample_argsort samples.sample_retriever "python" 5
    = Ok results /\
    Forall2 (fun idx r =>
               bm25_retriever.documents samples.sample_retriever !! idx = Some (document r) /\
               exists s, [0.5%float; 0.75%float; 0%float] !! idx = Some s /\
                         score r = Some (VFloat s))
            (filter (fun idx =>
                       scores_above_zero [0.5%float; 0.75%float; 0%float] idx = true)
                    (slice_to 5 (rev (samples.sample_argsort
                                        [0.5%float; 0.75%float; 0%float]))))
            results.
Proof.
  apply (search_results_scored (F:=float) (H:=binary64) samples.sample_argsort
           samples.sample_retriever "python" 5
           (fun _ => [0.5%float; 0.75%float; 0%float])).
  - reflexivity.
  - discriminate.
  - exact sample_argsort_valid.
  - intros tokens. reflexivity.
Defined.

Lemma rewrite_if_needed_cases_witness :
  exists s,
    query_rewriter.rewrite_if_needed more_samples.answering_rewriter "loops" 10 = Ok s /\
    strip_chars (quote +:+ "'") s = s.
Proof.
  destruct (rewrite_if_needed_cases (F:=float) (H:=binary64)
              more_samples.answering_rewriter "loops" 10)
    as (s & Hrun & _ & [->|(_ & _ & _ & _ & _ & _ & _ & Hstripped)]).
  - exists "loops"%string. split; [exact Hrun|reflexivity].
  - exists s. split; [exact Hrun|exact Hstripped].
Defined.

Lemma schema_repair_outcome_witness :
  exists statement,
    snd (document_store._try_repair_collection_schema
           (samples.sample_store [0.5%float; 1%float])
           (Exn OperationalError "no such column: collections.topic")) = [statement] /\
    document_store.db_file_exists samples.sample_sqlite = true /\
    document_store.connect samples.sample_sqlite = Ok () /\
    document_store.execute samples.sample_sqlite statement = Ok () /\
    document_store.commit samples.sample_sqlite = Ok ().
Proof.
  destruct (schema_repair_outcome (F:=float)
              (samples.sample_store [0.5%float; 1%float])
              (Exn OperationalError "no such column: collections.topic"))
    as [Hrepaired _].
  apply Hrepaired. reflexivity.
Defined.

Lemma add_documents_batch_all_or_nothing_witness :
  document_store_batch.add_documents_batch samples.sample_hash
    (samples.sample_store [0.5%float; 1%float]) samples.three_docs "learning_resources"
    2 0.5%float
  = map (fun '(i, doc) => document_store.batch_id samples.sample_hash i doc)
        (enumerate samples.three_docs) /\
  document_store_batch.add_documents_batch samples.sample_hash
    (samples.sample_store [0.5%float; 1%float]) samples.three_docs "learning_resources"
    2 0%float = [].
Proof.
  destruct (add_documents_batch_all_or_nothing (F:=float) (H:=binary64) samples.sample_hash
              (samples.sample_store [0.5%float; 1%float]) samples.three_docs
              "learning_resources" 2 0.5%float) as (_ & _ & Hsuccess).
  destruct (add_documents_batch_all_or_nothing (F:=float) (H:=binary64) samples.sample_hash
              (samples.sample_store [0.5%float; 1%float]) samples.three_docs
              "learning_resources" 2 0%float) as (_ & Hfailure & _).
  split.
  - apply (Hsuccess (samples.sample_collection [0.5%float; 1%float]));
      [lia|reflexivity|reflexivity|intros call; reflexivity].
  - apply Hfailure. right. reflexivity.
Defined.

Lemma advanced_rag_search_top_k_witness :
  exists docs,
    rag_pipeline.advanced_rag_search more_samples.plain_pipeline
      (samples.sample_store [0.5%float; 1%float]) "python" "learning_resources" None 1 true
    = Ok docs /\
    Z.of_nat (length docs) <= 1.
Proof.
  eexists. split; [vm_compute; reflexivity|].
  destruct (advanced_rag_search_top_k (F:=float) (H:=binary64) more_samples.plain_pipeline
              (samples.sample_store [0.5%float; 1%float]) "python" "learning_resources"
              None true) as [_ Hsize].
  eapply Hsize; [intros cached [=]|vm_compute; reflexivity|reflexivity|lia].
Defined.
